(** * The bundler's Manager: resolver, incremental update, cache, evaluation

    A shallow embedding of the [Manager] class of the in-browser bundler
    (resolution with its directory-scoped cache, [updateData], [serialize],
    [load], [evaluateModule]) together with the properties stated about it.

    The class threads one mutable object through all of its methods and
    raises exceptions; the embedding is a state-and-exception monad over a
    record of the fields.  Transpiled modules are shared objects (the same
    object is reachable through [transpiledModules[path].tModules[query]] and
    through [transpiledModulesByHash[hash]]), so they live in a heap and the
    two registries hold references.  Calls that leave the class (the
    [TranspiledModule] methods, browser-resolve, the npm fetcher, the host
    page) are collaborators: their behaviour is a parameter and every call is
    recorded in a trace.

    The second half covers the rest of the class (the constructor, the
    module store and its two registries, [setManifest], the [/.env] file, the
    round trip through [serialize] and [load], what [updateData] leaves in
    the store and decides about the reload) and the selection and order of
    the entries [DirectoryChildren] lists.

    The plain objects the class uses as maps are finite maps of their own
    properties.  A JavaScript object also answers to the names it inherits
    from [Object.prototype]; statements that would be affected are made for
    plain keys ([JsObject.plainKey]), which absolute paths are. *)

From Stdlib Require Import String Ascii List Bool Arith Lia Sorted.
From Stdlib Require OrderedTypeEx.
From stdpp Require Import base option list gmap strings fin_maps.

Local Open Scope string_scope.
Local Open Scope list_scope.

(** ** JavaScript string primitives used by the class *)

Module Js.

Definition truthy (s : string) : bool := negb (String.eqb s "").

(** [a || b] on strings. *)
Definition or_else (a : option string) (b : string) : string :=
  match a with
  | Some v => if truthy v then v else b
  | None => b
  end.

Definition startsWith (s pre : string) : bool := String.prefix pre s.

Definition indexOf (s pat : string) : option nat := String.index 0 pat s.

Definition includes (s pat : string) : bool :=
  match indexOf s pat with Some _ => true | None => false end.

Definition endsWith (s suf : string) : bool :=
  let n := String.length s in
  let k := String.length suf in
  (k <=? n)%nat && String.eqb (String.substring (n - k) k s) suf.

(** [s.replace(pat, rep)] with a string pattern: the first occurrence only. *)
Definition replace (s pat rep : string) : string :=
  match indexOf s pat with
  | Some i =>
      String.substring 0 i s +:+ rep +:+
      String.substring (i + String.length pat)
                       (String.length s - (i + String.length pat)) s
  | None => s
  end.

Definition in_range (lo hi : nat) (c : ascii) : bool :=
  let n := nat_of_ascii c in ((lo <=? n) && (n <=? hi))%nat.

(** The class [\w]. *)
Definition is_word (c : ascii) : bool :=
  in_range 97 122 c || in_range 65 90 c || in_range 48 57 c
  || Ascii.eqb c "_"%char.

(** [/^(\w|@\w)/.test(s)] *)
Definition looks_like_dependency (s : string) : bool :=
  match s with
  | String c rest =>
      is_word c ||
      (Ascii.eqb c "@"%char &&
       match rest with String d _ => is_word d | EmptyString => false end)
  | EmptyString => false
  end.

Definition is_line_terminator (c : ascii) : bool :=
  Ascii.eqb c "010"%char || Ascii.eqb c "013"%char.

(** Position of the last occurrence of [pat] in [s], counted from [i]. *)
Fixpoint lastIndexFrom (pat s : string) (i : nat) : option nat :=
  match s with
  | EmptyString => if String.prefix pat s then Some i else None
  | String _ s' =>
      match lastIndexFrom pat s' (S i) with
      | Some j => Some j
      | None => if String.prefix pat s then Some i else None
      end
  end.

(** The first line of [s], and what follows it (terminator included). *)
Fixpoint takeLine (s : string) : string :=
  match s with
  | EmptyString => EmptyString
  | String c s' => if is_line_terminator c then EmptyString else String c (takeLine s')
  end.

Fixpoint dropLine (s : string) : string :=
  match s with
  | EmptyString => EmptyString
  | String c s' => if is_line_terminator c then s else dropLine s'
  end.

(** [s.replace(/.*PAT/, '')] for a literal [PAT] without line terminators:
    the match starts at the beginning of the first line that contains
    [PAT], and the greedy [.*] extends it to the last occurrence on that
    line. *)
Fixpoint replaceUpTo (fuel : nat) (pat s : string) : string :=
  match fuel with
  | 0 => s
  | S fuel' =>
      let line := takeLine s in
      let rest := dropLine s in
      match lastIndexFrom pat line 0 with
      | Some j =>
          String.substring (j + String.length pat)
                           (String.length line - (j + String.length pat)) line
          +:+ rest
      | None =>
          match rest with
          | EmptyString => line
          | String c r => line +:+ String c (replaceUpTo fuel' pat r)
          end
      end
  end.

End Js.

(** ** Data model *)

(** A source file ([Module] in the source; the name is reserved here). *)
Record SourceModule := mkModule {
  path : string;
  code : string;
  requires : option (list string);
  downloaded : bool;
  (** set on modules emitted by a loader ([ChildModule.parent]) *)
  parent : option nat;
}.

#[export] Instance SourceModule_eq_dec : EqDecision SourceModule.
Proof. solve_decision. Defined.

(** Reference to a [TranspiledModule] object. *)
Definition TMRef := nat.

(** The fields of a [TranspiledModule] that the manager reads. *)
Record TranspiledModule := mkTM {
  tm_module : SourceModule;
  query : string;
  hash : string;
  source : option string;
  compilation : option string;
  errors : list string;
  hasMissingDependencies : bool;
  isEntry : bool;
  isTestFile : bool;
  (** [t.hmrConfig && t.hmrConfig.isDirty()] *)
  hmrDirty : bool;
}.

Record ManifestDependency := mkDep { dep_name : string; dep_version : string }.

Record DependencyDependency := mkDepDep {
  semver : string; resolved : string; parents : list string;
}.

Record Manifest := mkManifest {
  contents : gmap string (string * list string);
  dependencies : list ManifestDependency;
  dependencyDependencies : gmap string DependencyDependency;
  dependencyAliases : gmap string (gmap string string);
}.

(** [configurations.typescript] / [configurations.jsconfig]: the
    [generated] flag and [parsed.compilerOptions.baseUrl] when the whole
    chain is present. *)
Record CompilerConfig := mkCompilerConfig {
  generated : bool;
  baseUrl : option string;
}.

Record SandboxConfig := mkSandboxConfig { hardReloadOnChange : bool }.

Record Configurations := mkConfigurations {
  typescript : option CompilerConfig;
  jsconfig : option CompilerConfig;
  sandbox : option SandboxConfig;
}.

Inductive HMRStatus := Idle | Check | Apply | Fail | Dispose.
Inductive Stage := Transpilation | Evaluation.

#[export] Instance HMRStatus_eq_dec : EqDecision HMRStatus.
Proof. solve_decision. Defined.

(** JavaScript objects used as dictionaries are finite maps.  Where the
    class iterates over one ([Object.keys], [values]) the order is the order
    of the keys rather than the order of insertion; nothing stated below
    depends on it. *)
Record ModuleEntry := mkEntry {
  entry_module : SourceModule;
  tModules : gmap string TMRef;
}.

Record Manager := mkManager {
  transpiledModules : gmap string ModuleEntry;
  transpiledModulesByHash : gmap string TMRef;
  (** the [TranspiledModule] objects themselves *)
  heap : gmap TMRef TranspiledModule;
  nextRef : TMRef;
  envVariables : gmap string string;
  modules : gmap string SourceModule;
  manifest : option Manifest;
  hardReload : bool;
  isFirstLoad : bool;
  hmrStatus : HMRStatus;
  transpileJobs : gset string;
  cachedPaths : gmap string (gmap string string);
  configurations : Configurations;
  stage : Stage;
  (** the module-level [combinedMetas] of the npm fetcher *)
  combinedMetas : gset string;
}.

Definition set_transpiledModules f (m : Manager) : Manager :=
  mkManager (f (transpiledModules m)) (transpiledModulesByHash m) (heap m)
    (nextRef m) (envVariables m) (modules m) (manifest m) (hardReload m)
    (isFirstLoad m) (hmrStatus m) (transpileJobs m) (cachedPaths m)
    (configurations m) (stage m) (combinedMetas m).

Definition set_transpiledModulesByHash f (m : Manager) : Manager :=
  mkManager (transpiledModules m) (f (transpiledModulesByHash m)) (heap m)
    (nextRef m) (envVariables m) (modules m) (manifest m) (hardReload m)
    (isFirstLoad m) (hmrStatus m) (transpileJobs m) (cachedPaths m)
    (configurations m) (stage m) (combinedMetas m).

Definition set_heap f (m : Manager) : Manager :=
  mkManager (transpiledModules m) (transpiledModulesByHash m) (f (heap m))
    (nextRef m) (envVariables m) (modules m) (manifest m) (hardReload m)
    (isFirstLoad m) (hmrStatus m) (transpileJobs m) (cachedPaths m)
    (configurations m) (stage m) (combinedMetas m).

Definition set_nextRef f (m : Manager) : Manager :=
  mkManager (transpiledModules m) (transpiledModulesByHash m) (heap m)
    (f (nextRef m)) (envVariables m) (modules m) (manifest m) (hardReload m)
    (isFirstLoad m) (hmrStatus m) (transpileJobs m) (cachedPaths m)
    (configurations m) (stage m) (combinedMetas m).

Definition set_modules f (m : Manager) : Manager :=
  mkManager (transpiledModules m) (transpiledModulesByHash m) (heap m)
    (nextRef m) (envVariables m) (f (modules m)) (manifest m) (hardReload m)
    (isFirstLoad m) (hmrStatus m) (transpileJobs m) (cachedPaths m)
    (configurations m) (stage m) (combinedMetas m).

Definition set_hardReload f (m : Manager) : Manager :=
  mkManager (transpiledModules m) (transpiledModulesByHash m) (heap m)
    (nextRef m) (envVariables m) (modules m) (manifest m) (f (hardReload m))
    (isFirstLoad m) (hmrStatus m) (transpileJobs m) (cachedPaths m)
    (configurations m) (stage m) (combinedMetas m).

Definition set_isFirstLoad f (m : Manager) : Manager :=
  mkManager (transpiledModules m) (transpiledModulesByHash m) (heap m)
    (nextRef m) (envVariables m) (modules m) (manifest m) (hardReload m)
    (f (isFirstLoad m)) (hmrStatus m) (transpileJobs m) (cachedPaths m)
    (configurations m) (stage m) (combinedMetas m).

Definition set_hmrStatus f (m : Manager) : Manager :=
  mkManager (transpiledModules m) (transpiledModulesByHash m) (heap m)
    (nextRef m) (envVariables m) (modules m) (manifest m) (hardReload m)
    (isFirstLoad m) (f (hmrStatus m)) (transpileJobs m) (cachedPaths m)
    (configurations m) (stage m) (combinedMetas m).

Definition set_transpileJobs f (m : Manager) : Manager :=
  mkManager (transpiledModules m) (transpiledModulesByHash m) (heap m)
    (nextRef m) (envVariables m) (modules m) (manifest m) (hardReload m)
    (isFirstLoad m) (hmrStatus m) (f (transpileJobs m)) (cachedPaths m)
    (configurations m) (stage m) (combinedMetas m).

Definition set_cachedPaths f (m : Manager) : Manager :=
  mkManager (transpiledModules m) (transpiledModulesByHash m) (heap m)
    (nextRef m) (envVariables m) (modules m) (manifest m) (hardReload m)
    (isFirstLoad m) (hmrStatus m) (transpileJobs m) (f (cachedPaths m))
    (configurations m) (stage m) (combinedMetas m).

Definition set_configurations f (m : Manager) : Manager :=
  mkManager (transpiledModules m) (transpiledModulesByHash m) (heap m)
    (nextRef m) (envVariables m) (modules m) (manifest m) (hardReload m)
    (isFirstLoad m) (hmrStatus m) (transpileJobs m) (cachedPaths m)
    (f (configurations m)) (stage m) (combinedMetas m).

Definition set_combinedMetas f (m : Manager) : Manager :=
  mkManager (transpiledModules m) (transpiledModulesByHash m) (heap m)
    (nextRef m) (envVariables m) (modules m) (manifest m) (hardReload m)
    (isFirstLoad m) (hmrStatus m) (transpileJobs m) (cachedPaths m)
    (configurations m) (stage m) (f (combinedMetas m)).

(** ** Exceptions, trace and the monad *)

Inductive Exn :=
| ModuleNotFoundError (p : string) (isDependency : bool) (currentPath : string)
| DependencyNotFoundError (p : string) (currentPath : string)
| TypeError (msg : string)
| JsError (msg : string)
  (** raised by a collaborator *)
| Foreign (msg : string).

(** Calls that leave the class. *)
Inductive Event :=
| EvReload
| EvClearIndexedDBCache
| EvHmrStatus (s : HMRStatus)
| EvResolve (request filename : string)
| EvFetchModule (p : string)
| EvUpdate (r : TMRef)
| EvDispose (r : TMRef)
| EvResetTranspilation (r : TMRef)
| EvTranspile (r : TMRef)
| EvEvaluate (r : TMRef)
| EvPostEvaluate (r : TMRef)
| EvLoad (r : TMRef)
| EvSerialize (r : TMRef).

#[export] Instance Event_eq_dec : EqDecision Event.
Proof. solve_decision. Defined.

Record World := mkWorld { mgr : Manager; trace : list Event }.

Inductive Outcome (A : Type) :=
| Return (a : A)
| Throw (e : Exn).
Arguments Return {A} a.
Arguments Throw {A} e.

Definition M (A : Type) : Type := World -> World * Outcome A.

Definition ret {A} (a : A) : M A := fun w => (w, Return a).

Definition bind {A B} (c : M A) (k : A -> M B) : M B :=
  fun w =>
    match c w with
    | (w', Return a) => k a w'
    | (w', Throw e) => (w', Throw e)
    end.

Definition throw {A} (e : Exn) : M A := fun w => (w, Throw e).

(** [try { c } catch (e) { h e }]: the state reached when the exception was
    raised is the one the handler starts from. *)
Definition try_catch {A} (c : M A) (h : Exn -> M A) : M A :=
  fun w =>
    match c w with
    | (w', Return a) => (w', Return a)
    | (w', Throw e) => h e w'
    end.

(** [try { c } finally { f }] *)
Definition try_finally {A} (c : M A) (f : M unit) : M A :=
  fun w =>
    match c w with
    | (w', Return a) =>
        match f w' with
        | (w'', Return _) => (w'', Return a)
        | (w'', Throw e) => (w'', Throw e)
        end
    | (w', Throw e) =>
        match f w' with
        | (w'', Return _) => (w'', Throw e)
        | (w'', Throw e') => (w'', Throw e')
        end
    end.

Definition get : M Manager := fun w => (w, Return (mgr w)).

Definition modify (f : Manager -> Manager) : M unit :=
  fun w => (mkWorld (f (mgr w)) (trace w), Return tt).

Definition emit (e : Event) : M unit :=
  fun w => (mkWorld (mgr w) (trace w ++ [e]), Return tt).

(** A collaborator that transforms the manager's objects. *)
Definition foreign (ev : Event) (f : Manager -> Manager) : M unit :=
  fun w => (mkWorld (f (mgr w)) (trace w ++ [ev]), Return tt).

Definition foreign_call {A} (ev : Event) (f : Manager -> Manager * Outcome A)
  : M A :=
  fun w => let '(m', o) := f (mgr w) in (mkWorld m' (trace w ++ [ev]), o).

Declare Scope js_scope.
Delimit Scope js_scope with js.
Notation "'let*' x ':=' c1 'in' c2" := (bind c1 (fun x => c2))
  (at level 10, x pattern, c1 at level 100, c2 at level 200) : js_scope.
Notation "c1 '>>' c2" := (bind c1 (fun _ => c2))
  (at level 100, c2 at level 200, right associativity) : js_scope.
Local Open Scope js_scope.

(** [xs.forEach(f)] *)
Fixpoint forEach {A} (f : A -> M unit) (xs : list A) : M unit :=
  match xs with
  | [] => ret tt
  | x :: xs' => f x >> forEach f xs'
  end.

(** [xs.map(f)] for an effectful [f]. *)
Fixpoint mapM {A B} (f : A -> M B) (xs : list A) : M (list B) :=
  match xs with
  | [] => ret []
  | x :: xs' => let* y := f x in let* ys := mapM f xs' in ret (y :: ys)
  end.

(** [xs.filter(f)] for an effectful [f]. *)
Fixpoint filterM {A} (f : A -> M bool) (xs : list A) : M (list A) :=
  match xs with
  | [] => ret []
  | x :: xs' =>
      let* b := f x in
      let* ys := filterM f xs' in
      ret (if b then x :: ys else ys)
  end.

(** ** Collaborators *)

(** The options object handed to browser-resolve ([packageFilter] is a
    constant of the library glue and belongs to the resolver). *)
Record ResolveOpts := mkResolveOpts {
  filename : string;
  extensions : list string;
  opt_isFile : string -> bool;
  opt_readFileSync : string -> option string;
  moduleDirectory : list string;
}.

(** What [TranspiledModule.serialize] produces, as far as [load] reads it. *)
Record SerializedTranspiledModule := mkSerialized {
  s_module : SourceModule;
  s_query : string;
  s_payload : string;
}.

(** Everything the class imports.  [browserResolve] stands for both entry
    points of browser-resolve ([resolve.sync] and the callback form), which
    run the same algorithm over the same [isFile]/[readFileSync]; [None] is a
    resolution error.  The [tm_*] fields are the [TranspiledModule] methods;
    they receive the manager because the real ones do, and they have a
    failure outcome where the class deals with their failure. *)
Class Collaborators := {
  dirname : string -> string;
  join : string -> string -> string;
  basename : string -> string;
  getDependencyName : string -> string;
  coreLibraries : gmap string string;
  getAliasedPath : string -> string;
  ignoredExtensions : list string;
  browserResolve : string -> ResolveOpts -> option string;
  splitQueryFromPath : string -> string * string;
  SCRIPT_VERSION : string;
  dependenciesToQuery : gmap string string -> string;
  hashOf : string -> string -> string;
  getId : TranspiledModule -> string;
  fetchModule :
    string -> TMRef -> list string -> Manager -> Manager * Outcome SourceModule;
  tm_update : TMRef -> SourceModule -> Manager -> Manager;
  tm_dispose : TMRef -> Manager -> Manager;
  tm_resetTranspilation : TMRef -> Manager -> Manager;
  tm_shouldTranspile : TMRef -> Manager -> bool;
  tm_transpile : TMRef -> Manager -> Manager * Outcome unit;
  tm_evaluate :
    TMRef -> bool -> bool -> option TMRef -> Manager -> Manager * Outcome string;
  tm_postEvaluate : TMRef -> Manager -> Manager;
  tm_serialize : bool -> TMRef -> Manager -> SerializedTranspiledModule;
  tm_load :
    TMRef -> SerializedTranspiledModule -> gmap string TMRef ->
    Manager -> Manager;
}.

(** ** The Manager class *)

Section Manager.
Context `{C : Collaborators}.

Definition NODE_LIBS : list string :=
  ["dgram"; "net"; "tls"; "fs"; "module"; "child_process"].

Definition EMPTY_SENTINEL : string := "//empty.js".

Definition SHIMMED_MODULE : SourceModule :=
  mkModule (join (join "/node_modules" "empty") "index.js") "// empty"
           (Some []) false None.

Definition getShimmedModuleFromPath (currentPath p : string) : SourceModule :=
  mkModule (join (dirname currentPath) p) (code SHIMMED_MODULE)
           (requires SHIMMED_MODULE) (downloaded SHIMMED_MODULE)
           (parent SHIMMED_MODULE).

(** Modelled from the spec: the constructor of [TranspiledModule], which is
    not among the sources; a fresh node has no source, no compilation, no
    errors and cleared flags, and its hash is a function of (path, query). *)
Definition newTranspiledModule (module : SourceModule) (q : string)
  : TranspiledModule :=
  mkTM module q (hashOf (path module) q) None None [] false false false false.

(** Reading a field through a reference.  References are created by
    allocation only, so the default is not observed on a heap the class built
    itself. *)
Definition deref (m : Manager) (r : TMRef) : TranspiledModule :=
  default (newTranspiledModule (mkModule "" "" None false None) "")
          (heap m !! r).

Definition addModule (module : SourceModule) : M unit :=
  modify (set_transpiledModules (fun tms =>
    match tms !! path module with
    | Some _ => tms
    | None => <[path module := mkEntry module ∅]> tms
    end)).

Definition addTranspiledModule (module : SourceModule) (q : string) : M TMRef :=
  let* m0 := get in
  (if decide (is_Some (transpiledModules m0 !! path module))
   then ret tt else addModule module) >>
  let* m := get in
  let r := nextRef m in
  let tm := newTranspiledModule module q in
  modify (fun m =>
    set_transpiledModulesByHash (fun h => <[hash tm := r]> h)
      (set_transpiledModules
         (alter (fun e => mkEntry module (<[q := r]> (tModules e))) (path module))
         (set_heap (fun h => <[r := tm]> h)
            (set_nextRef S m)))) >>
  ret r.


Definition getTranspiledModule (module : SourceModule) (q : string) : M TMRef :=
  let* m0 := get in
  (if decide (is_Some (transpiledModules m0 !! path module))
   then ret tt else addModule module) >>
  let* m := get in
  match transpiledModules m !! path module ≫= (fun e => tModules e !! q) with
  | Some r => ret r
  | None => addTranspiledModule module q
  end.

Definition getTranspiledModulesByModule (module : SourceModule) (m : Manager)
  : list TMRef :=
  match transpiledModules m !! path module with
  | Some e => (map_to_list (tModules e)).*2
  | None => []
  end.

Definition getTranspiledModules (m : Manager) : list TMRef :=
  (map_to_list (transpiledModulesByHash m)).*2.

Definition getModules (m : Manager) : list SourceModule :=
  entry_module <$> (map_to_list (transpiledModules m)).*2.

Definition removeTranspiledModule (r : TMRef) : M unit :=
  let* m := get in
  let tm := deref m r in
  modify (set_transpiledModulesByHash (delete (hash tm))) >>
  let* m := get in
  match transpiledModules m !! path (tm_module tm) with
  | None => throw (TypeError "Cannot read property 'tModules' of undefined")
  | Some _ =>
      modify (set_transpiledModules
                (alter (fun e => mkEntry (entry_module e)
                                         (delete (query tm) (tModules e)))
                       (path (tm_module tm))))
  end.

Definition removeModule (module : SourceModule) : M unit :=
  (* Reset all cached paths because file structure changed *)
  modify (set_cachedPaths (fun _ => ∅)) >>
  let* m := get in
  match transpiledModules m !! path module with
  | None => throw (TypeError "Cannot read property 'tModules' of undefined")
  | Some existingModule =>
      forEach (fun r => foreign (EvDispose r) (tm_dispose r) >>
                        removeTranspiledModule r)
              (map_to_list (tModules existingModule)).*2 >>
      modify (set_transpiledModules (delete (path module)))
  end.

(** [isFile] and [readFileSync] in their synchronous form (no callback).
    They read the module store, the stage and the npm metadata only. *)
Definition isFile_of (tms : gmap string ModuleEntry) (metas : gset string)
    (st : Stage) (p : string) : bool :=
  match st with
  | Transpilation => bool_decide (is_Some (tms !! p)) || bool_decide (p ∈ metas)
  | Evaluation => bool_decide (is_Some (tms !! p))
  end.

Definition readFileSync_of (tms : gmap string ModuleEntry) (p : string)
  : option string :=
  (fun e => code (entry_module e)) <$> tms !! p.

Definition isFile (m : Manager) : string -> bool :=
  isFile_of (transpiledModules m) (combinedMetas m) (stage m).

Definition readFileSync (m : Manager) : string -> option string :=
  readFileSync_of (transpiledModules m).

Definition getAliasedDependencyPath (p currentPath : string) : M string :=
  if negb (Js.looks_like_dependency p) then ret p
  else if negb (Js.startsWith currentPath "/node_modules") then ret p
  else
    let dependencyName := getDependencyName p in
    let previousDependencyName :=
      getDependencyName (Js.replace currentPath "/node_modules/" "") in
    let* m := get in
    match manifest m with
    | None => throw (TypeError "Cannot read property 'dependencyAliases' of undefined")
    | Some mf =>
        match dependencyAliases mf !! previousDependencyName
              ≫= (fun a => a !! dependencyName) with
        | Some aliasedDependencyName =>
            if Js.truthy aliasedDependencyName
            then ret (Js.replace p dependencyName aliasedDependencyName)
            else ret p
        | None => ret p
        end
    end.

Definition getPresetAliasedPath (p : string) : string :=
  let a := getAliasedPath p in
  Js.replaceUpTo (S (String.length a)) "{{sandboxRoot}}" a.

Definition getModuleDirectories (m : Manager) : list string :=
  let usable (c : option CompilerConfig) :=
    match c with Some c => negb (generated c) | None => false end in
  let baseTSCompilerConfig :=
    if usable (typescript (configurations m)) then typescript (configurations m)
    else if usable (jsconfig (configurations m)) then jsconfig (configurations m)
    else None in
  let truthy_opt (o : option string) : list string :=
    match o with Some s => if Js.truthy s then [s] else [] | None => [] end in
  ["node_modules"]
    ++ truthy_opt (baseTSCompilerConfig ≫= baseUrl)
    ++ truthy_opt (envVariables m !! "NODE_PATH").

Definition resolveOpts (m : Manager) (currentPath : string)
    (defaultExtensions : list string) : ResolveOpts :=
  mkResolveOpts currentPath ((fun ext => "." +:+ ext) <$> defaultExtensions)
                (isFile m) (readFileSync m) (getModuleDirectories m).

(** [this.cachedPaths[dirredPath][path]] *)
Definition cachedPath_of (m : Manager) (dirredPath p : string) : option string :=
  cachedPaths m !! dirredPath ≫= (fun d => d !! p).

(** [this.cachedPaths[dirredPath][path] = v] *)
Definition writeCache (dirredPath p v : string) : M unit :=
  modify (set_cachedPaths (alter (fun d => <[p := v]> d) dirredPath)).

Definition ensureCacheDir (dirredPath : string) : M unit :=
  modify (set_cachedPaths (fun cp =>
    match cp !! dirredPath with
    | Some _ => cp
    | None => <[dirredPath := ∅]> cp
    end)).

(** The [catch] block shared by both resolvers: purge the cache entry, then
    classify the failure. *)
Definition resolutionFailed {A} (shimmedPath currentPath dirredPath p : string)
  : M A :=
  let* m0 := get in
  (match cachedPath_of m0 dirredPath p with
   | Some v =>
       if Js.truthy v
       then modify (set_cachedPaths (alter (delete p) dirredPath))
       else ret tt
   | None => ret tt
   end) >>
  let connectedPath :=
    if decide (Js.indexOf shimmedPath "/node_modules" = Some 0) then shimmedPath
    else if Js.looks_like_dependency shimmedPath
         then join "/node_modules" shimmedPath
         else join (dirname currentPath) shimmedPath in
  let isDependency := Js.includes connectedPath "/node_modules/" in
  let connectedPath := Js.replace connectedPath "/node_modules/" "" in
  if negb isDependency
  then throw (ModuleNotFoundError shimmedPath false currentPath)
  else
    let dependencyName := getDependencyName connectedPath in
    let* m := get in
    match manifest m with
    | None => throw (TypeError "Cannot read property 'dependencies' of undefined")
    | Some mf =>
        if existsb (fun d => String.eqb (dep_name d) dependencyName)
                   (dependencies mf)
           || bool_decide (is_Some (dependencyDependencies mf !! dependencyName))
        then throw (ModuleNotFoundError connectedPath true currentPath)
        else throw (DependencyNotFoundError connectedPath currentPath)
    end.

(** [coreLibraries[aliasedPath] || aliasedPath] after both aliasing steps. *)
Definition shimmedPathOf (p currentPath : string) : M string :=
  let presetAliasedPath := getPresetAliasedPath p in
  let* aliasedPath := getAliasedDependencyPath presetAliasedPath currentPath in
  ret (Js.or_else (coreLibraries !! aliasedPath) aliasedPath).

Definition in_NODE_LIBS (s : string) : bool :=
  existsb (String.eqb s) NODE_LIBS.

(** [this.transpiledModules[resolvedPath].module] *)
Definition storedModule (resolvedPath : string) : M SourceModule :=
  let* m := get in
  match transpiledModules m !! resolvedPath with
  | Some e => ret (entry_module e)
  | None => throw (TypeError "Cannot read property 'module' of undefined")
  end.

(** [cachedPath && this.transpiledModules[cachedPath]] *)
Definition cacheHit (m : Manager) (cachedPath : option string) : option string :=
  match cachedPath with
  | Some c =>
      if Js.truthy c && bool_decide (is_Some (transpiledModules m !! c))
      then Some c else None
  | None => None
  end.

(** The value of a call that resolved to [resolvedPath]:
    the empty shim for the sentinel, the stored module otherwise. *)
Definition moduleAt (currentPath p resolvedPath : string) : M SourceModule :=
  if String.eqb resolvedPath EMPTY_SENTINEL
  then ret (getShimmedModuleFromPath currentPath p)
  else storedModule resolvedPath.

(** The [try] block of [resolveModule]: it returns from the method with the
    shim ([inl]) or leaves the resolved path to the code after it ([inr]). *)
Definition resolveAttempt (shimmedPath p currentPath : string)
    (defaultExtensions : list string) (dirredPath : string)
  : M (SourceModule + string) :=
  emit (EvResolve shimmedPath currentPath) >>
  let* m := get in
  match browserResolve shimmedPath
          (resolveOpts m currentPath defaultExtensions) with
  | None => throw (Foreign "Cannot find module")
  | Some resolvedPath =>
      writeCache dirredPath p resolvedPath >>
      if String.eqb resolvedPath EMPTY_SENTINEL
      then ret (inl (getShimmedModuleFromPath currentPath p))
      else
        let* m := get in
        if bool_decide (is_Some (transpiledModules m !! resolvedPath))
        then ret (inr resolvedPath)
        else throw (JsError ("Could not find '" +:+ resolvedPath
                             +:+ "' in local files."))
  end.

(** [resolveModule] when the cache does not answer. *)
Definition resolveFresh (p currentPath : string)
    (defaultExtensions : list string) (dirredPath : string) : M SourceModule :=
  let* shimmedPath := shimmedPathOf p currentPath in
  if in_NODE_LIBS shimmedPath
  then writeCache dirredPath p shimmedPath >>
       ret (getShimmedModuleFromPath currentPath p)
  else
    let* r :=
      try_catch
        (resolveAttempt shimmedPath p currentPath defaultExtensions dirredPath)
        (* MAKE SURE TO SYNC THIS WITH ASYNC VERSION *)
        (fun _ => resolutionFailed shimmedPath currentPath dirredPath p) in
    match r with
    | inl module => ret module
    | inr resolvedPath => moduleAt currentPath p resolvedPath
    end.

(* ALWAYS KEEP THIS METHOD IN SYNC WITH ASYNC VERSION *)
Definition resolveModule (p currentPath : string)
    (defaultExtensions : list string) : M SourceModule :=
  let dirredPath := dirname currentPath in
  ensureCacheDir dirredPath >>
  let* m := get in
  let cachedPath := cachedPath_of m dirredPath p in
  match cacheHit m cachedPath with
  | Some resolvedPath => moduleAt currentPath p resolvedPath
  | None => resolveFresh p currentPath defaultExtensions dirredPath
  end.

(** [if (cachedPath)] *)
Definition truthyCached (cachedPath : option string) : option string :=
  match cachedPath with
  | Some c => if Js.truthy c then Some c else None
  | None => None
  end.

(** The [try] block of [resolveModuleAsync] with the callback it hands to
    browser-resolve; its value is what [promiseResolve] receives. *)
Definition resolveAttemptAsync (shimmedPath p currentPath : string)
    (defaultExtensions : list string) (dirredPath : string) : M SourceModule :=
  emit (EvResolve shimmedPath currentPath) >>
  let* m := get in
  match browserResolve shimmedPath
          (resolveOpts m currentPath defaultExtensions) with
  | None => throw (Foreign "Cannot find module")
  | Some foundPath =>
      writeCache dirredPath p foundPath >>
      if String.eqb foundPath EMPTY_SENTINEL
      then ret (getShimmedModuleFromPath currentPath p)
      else
        let* m := get in
        if bool_decide (is_Some (transpiledModules m !! foundPath))
        then storedModule foundPath
        else
          (* readFileSync(foundPath, cb) finds nothing and hands its ENOENT
             error to [cb], which stores it as the code *)
          addModule (mkModule foundPath
                       ("Error: Could not find " +:+ foundPath)
                       None false None) >>
          storedModule foundPath
  end.

(** [resolveModuleAsync] when the cache does not answer.  This is for a
    manager without a host-side file resolver: browser-resolve then invokes
    its callback before returning, so the promise is settled by the first
    [promiseResolve] or by the first exception that escapes the executor. *)
Definition resolveFreshAsync (p currentPath : string)
    (defaultExtensions : list string) (dirredPath : string) : M SourceModule :=
  let* shimmedPath := shimmedPathOf p currentPath in
  if in_NODE_LIBS shimmedPath
  then writeCache dirredPath p shimmedPath >>
       ret (getShimmedModuleFromPath currentPath p)
  else
    try_catch
      (resolveAttemptAsync shimmedPath p currentPath defaultExtensions
                           dirredPath)
      (fun _ => resolutionFailed shimmedPath currentPath dirredPath p).

(* ALWAYS KEEP THIS METHOD IN SYNC WITH SYNC VERSION *)
(** The result is the value the returned promise settles to. *)
Definition resolveModuleAsync (p currentPath : string)
    (defaultExtensions : list string) : M SourceModule :=
  let dirredPath := dirname currentPath in
  ensureCacheDir dirredPath >>
  let* m := get in
  let cachedPath := cachedPath_of m dirredPath p in
  match truthyCached cachedPath with
  | Some resolvedPath => storedModule resolvedPath
  | None => resolveFreshAsync p currentPath defaultExtensions dirredPath
  end.

(** Modelled from the spec: the fields [type], [isDependency] and [path] of
    the error classes, which are not among the sources.  Only
    [ModuleNotFoundError] carries [isDependency] and has the type
    ['module-not-found']. *)
Definition exn_is_dependency_miss (e : Exn) : option string :=
  match e with
  | ModuleNotFoundError p true _ => Some p
  | _ => None
  end.

Definition resolveTranspiledModule (p currentPath : string)
    (ignored : option (list string)) (async : bool) : M TMRef :=
  if Js.startsWith p "webpack:"
  then throw (JsError "Cannot resolve webpack path")
  else
    let '(queryPath, modulePath) := splitQueryFromPath p in
    let exts := default ignoredExtensions ignored in
    let* module :=
      (if async then resolveModuleAsync modulePath currentPath exts
       else resolveModule modulePath currentPath exts) in
    getTranspiledModule module queryPath.

Definition downloadDependency (p : string) (currentTModule : TMRef)
    (q : string) (ignored : option (list string)) : M TMRef :=
  let exts := default ignoredExtensions ignored in
  let* module :=
    foreign_call (EvFetchModule p) (fetchModule p currentTModule exts) in
  getTranspiledModule module q.

Definition updateModule (module : SourceModule) : M (list TMRef) :=
  let* m := get in
  match transpiledModules m !! path module with
  | None => throw (TypeError "Cannot set property 'module' of undefined")
  | Some _ =>
      modify (set_transpiledModules
                (alter (fun e => mkEntry module (tModules e)) (path module))) >>
      let* m := get in
      mapM (fun r => foreign (EvUpdate r) (tm_update r module) >> ret r)
           (getTranspiledModulesByModule module m)
  end.

Definition resolveTranspiledModuleAsync (p : string)
    (currentTModule : option TMRef) (ignored : option (list string))
  : M TMRef :=
  let* tModule :=
    match currentTModule with
    | Some r => ret r
    | None =>
        let* m := get in
        match modules m !! "/package.json" with
        | Some module => getTranspiledModule module ""
        | None => throw (TypeError "Cannot read property 'path' of undefined")
        end
    end in
  try_catch
    (let* m := get in
     resolveTranspiledModule p (path (tm_module (deref m tModule))) ignored false)
    (fun e =>
       match exn_is_dependency_miss e with
       | Some ep =>
           let '(queryPath, _) := splitQueryFromPath p in
           downloadDependency ep tModule queryPath ignored
       | None => throw e
       end).

Definition setHmrStatus (status : HMRStatus) : M unit :=
  emit (EvHmrStatus status) >> modify (set_hmrStatus (fun _ => status)).

Definition markHardReload : M unit :=
  setHmrStatus Fail >> modify (set_hardReload (fun _ => true)).

(** [tm.compilation = null] *)
Definition clearCompilation (r : TMRef) : M unit :=
  modify (fun m => set_heap (<[r := let t := deref m r in
    mkTM (tm_module t) (query t) (hash t) (source t) None (errors t)
         (hasMissingDependencies t) (isEntry t) (isTestFile t) (hmrDirty t)]>) m).

Definition evaluateTranspiledModule (r : TMRef) (initiator : option TMRef)
    (force testGlobals : bool) : M string :=
  let* m := get in
  (if force && bool_decide (is_Some (compilation (deref m r)))
   then clearCompilation r else ret tt) >>
  foreign_call (EvEvaluate r) (tm_evaluate r force testGlobals initiator).

Definition evaluateModule (module : SourceModule) (force testGlobals : bool)
  : M string :=
  let* m := get in
  if hardReload m && negb (isFirstLoad m)
  then
    (* Do a hard reload *)
    emit EvReload >> ret "{}"
  else
    (* Evaluate the *changed* HMR modules first *)
    forEach (fun r => foreign_call (EvEvaluate r) (tm_evaluate r false false None)
                      >> ret tt)
            (filter (fun r => hmrDirty (deref m r) = true)
                    (getTranspiledModules m)) >>
    let* transpiledModule := getTranspiledModule module "" in
    let* m := get in
    (if force && bool_decide (is_Some (compilation (deref m transpiledModule)))
     then clearCompilation transpiledModule else ret tt) >>
    try_finally
      (let* exports :=
         evaluateTranspiledModule transpiledModule None force testGlobals in
       setHmrStatus Idle >>
       ret exports)
      (* Run post evaluate *)
      (let* m := get in
       forEach (fun r => foreign (EvPostEvaluate r) (tm_postEvaluate r))
               (getTranspiledModules m)).

(** lodash [uniq]: first occurrences, in order. *)
Fixpoint uniq_from (seen l : list TMRef) : list TMRef :=
  match l with
  | [] => []
  | x :: l' =>
      if bool_decide (x ∈ seen) then uniq_from seen l'
      else x :: uniq_from (x :: seen) l'
  end.

Definition uniq (l : list TMRef) : list TMRef := uniq_from [] l.

(** The classification made by the first loop of [updateData]; the loop
    reads [transpiledModules] only, which it does not change. *)
Definition isAdded (m : Manager) (kv : string * SourceModule) : bool :=
  bool_decide (transpiledModules m !! kv.1 = None).

Definition isUpdated (m : Manager) (kv : string * SourceModule) : bool :=
  match transpiledModules m !! kv.1 with
  | Some mirrorModule =>
      negb (String.eqb (code (entry_module mirrorModule)) (code kv.2))
  | None => false
  end.

Definition addedModules (m : Manager) (newModules : gmap string SourceModule)
  : list SourceModule :=
  (filter (fun kv => isAdded m kv = true) (map_to_list newModules)).*2.

Definition updatedModules (m : Manager) (newModules : gmap string SourceModule)
  : list SourceModule :=
  (filter (fun kv => isUpdated m kv = true) (map_to_list newModules)).*2.

(** The guard of the deletion loop. *)
Definition isDeleted (newModules : gmap string SourceModule) (sm : SourceModule)
  : bool :=
  negb (Js.startsWith (path sm) "/node_modules")
  && negb (String.eqb (path sm) "/var/task/node_modules/browser-resolve/empty.js")
  && bool_decide (newModules !! path sm = None)
  && bool_decide (parent sm = None).

(** The deletion loop of [updateData], over the modules the store held. *)
Definition updateData_delete (newModules : gmap string SourceModule)
    (stored : list SourceModule) : M unit :=
  forEach (fun sm => if isDeleted newModules sm then removeModule sm else ret tt)
          stored.

(** The transpiled modules with errors or missing dependencies; the latter
    are reset while they are collected. *)
Definition modulesWithErrors : M (list TMRef) :=
  let* m := get in
  filterM (fun r =>
    let* m := get in
    (if hasMissingDependencies (deref m r)
     then foreign (EvResetTranspilation r) (tm_resetTranspilation r)
     else ret tt) >>
    let* m := get in
    ret (negb (Nat.eqb (length (errors (deref m r))) 0)
         || hasMissingDependencies (deref m r)))
    (getTranspiledModules m).

(** Additions, updates and the selection of what to retranspile.  The
    input object is taken to hold distinct [Module] objects under distinct
    keys, so [uniq] over the concatenation of added and updated modules
    (built from disjoint keys) drops nothing. *)
Definition updateData_apply (added updated : list SourceModule)
  : M (list TMRef) :=
  forEach (fun sm => addTranspiledModule sm "" >> ret tt) added >>
  let modulesToUpdate := added ++ updated in
  let* tModulesToUpdate := mapM updateModule modulesToUpdate in
  let* m := get in
  (match modulesToUpdate, sandbox (configurations m) with
   | _ :: _, Some sb => modify (set_hardReload (fun _ => hardReloadOnChange sb))
   | _, _ => ret tt
   end) >>
  let* modulesWithWErrors := modulesWithErrors in
  let flattenedTModulesToUpdate := concat tModulesToUpdate ++ modulesWithWErrors in
  ret (uniq flattenedTModulesToUpdate).

(** [updateData] up to the retranspile pass. *)
Definition updateData_diff (newModules : gmap string SourceModule)
  : M (list TMRef) :=
  modify (set_transpileJobs (fun _ => ∅)) >>
  modify (set_hardReload (fun _ => false)) >>
  modify (set_isFirstLoad (fun _ => false)) >>
  modify (set_modules (fun _ => newModules)) >>
  let* m := get in
  let added := addedModules m newModules in
  let updated := updatedModules m newModules in
  (* File structure changed, reset cached paths *)
  (match added ++ updated with
   | [] => ret tt
   | _ :: _ => modify (set_cachedPaths (fun _ => ∅))
   end) >>
  updateData_delete newModules (getModules m) >>
  updateData_apply added updated.

Definition retranspileStep (r : TMRef) : M (option TMRef) :=
  let* m := get in
  if tm_shouldTranspile r m
  then foreign_call (EvTranspile r) (tm_transpile r) >> ret (Some r)
  else ret None.

(** The rest of [updateData].  Test files are reset but not transpiled; the
    others are transpiled when [shouldTranspile] says so and yield [false]
    (here [None]) otherwise.  [filter(Boolean)] is applied to the promises,
    which are all truthy, so the [false] entries stay in the result.

    Modelled from the spec: [TranspiledModule.transpile], not among the
    sources, resolves to the transpiled module itself.  The jobs are run to
    completion one after another; their interleaving at suspension points is
    not modelled. *)
Definition updateData_retranspile (allModulesToUpdate : list TMRef)
  : M (list (option TMRef)) :=
  let* m := get in
  let transpiledModulesToUpdate :=
    filter (fun r => isTestFile (deref m r) = false) allModulesToUpdate in
  (* Reset test files, but don't transpile. *)
  forEach (fun r => foreign (EvResetTranspilation r) (tm_resetTranspilation r))
          (filter (fun r => isTestFile (deref m r) = true) allModulesToUpdate) >>
  mapM retranspileStep transpiledModulesToUpdate.

Definition updateData (newModules : gmap string SourceModule)
  : M (list (option TMRef)) :=
  let* allModulesToUpdate := updateData_diff newModules in
  updateData_retranspile allModulesToUpdate.

Definition getDependencyQuery (m : Manager) : string :=
  match manifest m with
  | None => ""
  | Some mf =>
      dependenciesToQuery
        (fold_left (fun acc d => <[dep_name d := dep_version d]> acc)
                   (dependencies mf) ∅)
  end.

(** The persisted record. *)
Record SerializedCache := mkCache {
  c_transpiledModules : gmap string SerializedTranspiledModule;
  c_cachedPaths : gmap string (gmap string string);
  c_version : string;
  c_timestamp : nat;
  c_configurations : Configurations;
  c_entry : option string;
  (** absent in a record written without it *)
  c_meta : option (gmap string (list string));
  c_dependenciesQuery : string;
}.

(** [path.endsWith('.js') && requires == null]: the module still needs
    transpilation. *)
Definition needsTranspilation (sm : SourceModule) : bool :=
  Js.endsWith (path sm) ".js" && bool_decide (requires sm = None).

(** The condition under which [serialize] saves a transpiled module. *)
Definition notPrecomputed (mf : Manifest) (tm : TranspiledModule) : bool :=
  bool_decide (contents mf !! path (tm_module tm) = None)
  || needsTranspilation (tm_module tm)
  || downloaded (tm_module tm).

(** All [(path, query)] slots of the store with the object they hold. *)
Definition allSlots (m : Manager) : list TMRef :=
  concat ((fun e => (map_to_list (tModules e)).*2)
            <$> (map_to_list (transpiledModules m)).*2).

(** An object filled by assignments [acc[k] = v] in the order of [l]. *)
Definition recordOf {V} (l : list (string * V)) (acc : gmap string V)
  : gmap string V :=
  fold_left (fun acc kv => <[kv.1 := kv.2]> acc) l acc.

(** The body of the double loop of [serialize] for one transpiled module:
    the entries it adds to [serializedTModules]. *)
Definition serializeSlot (optimizeForSize : bool) (r : TMRef)
  : M (list (string * SerializedTranspiledModule)) :=
  let* m := get in
  match manifest m with
  | None => throw (TypeError "Cannot read property 'contents' of undefined")
  | Some mf =>
      if notPrecomputed mf (deref m r)
      then
        (* Only save modules that are not precomputed *)
        emit (EvSerialize r) >>
        ret [(getId (deref m r), tm_serialize optimizeForSize r m)]
      else ret []
  end.

Definition serialize (entryPath : option string) (optimizeForSize : bool)
    (timestamp : nat) : M SerializedCache :=
  let* m0 := get in
  let* saved := mapM (serializeSlot optimizeForSize) (allSlots m0) in
  let serializedTModules := recordOf (concat saved) ∅ in
  let* m := get in
  let dependenciesQuery := getDependencyQuery m in
  let meta :=
    fold_left (fun (acc : gmap string (list string)) p =>
                 let dir := dirname (Js.replace p "/node_modules" "") in
                 <[dir := default [] (acc !! dir) ++ [basename p]]> acc)
              (elements (combinedMetas m)) ∅ in
  ret (mkCache serializedTModules (cachedPaths m) SCRIPT_VERSION timestamp
               (configurations m) entryPath (Some meta) dependenciesQuery).

(** [clearCache] swallows whatever [clearIndexedDBCache] raises. *)
Definition clearCache : M unit := emit EvClearIndexedDBCache.

(** The body of the [try] in [load], for a truthy [data].  A
    [TranspiledModule.load] that fails does so for that module alone (its
    promise is not awaited), so the collaborator has no failure outcome. *)
Definition load_try (data : SerializedCache) : M unit :=
  clearCache >>
  let* m := get in
  (* Only use the cache if the cached version was cached with the same
     version of the compiler and dependencies haven't changed *)
  if String.eqb (c_version data) SCRIPT_VERSION
     && String.eqb (c_dependenciesQuery data) (getDependencyQuery m)
  then
    let* meta :=
      match c_meta data with
      | Some meta => ret meta
      | None => throw (TypeError "Cannot convert undefined or null to object")
      end in
    let newCombinedMetas : gset string :=
      list_to_set
        (concat ((fun kv : string * list string => (fun file => "/node_modules" +:+ kv.1 +:+ "/" +:+ file)
                              <$> kv.2)
                   <$> map_to_list meta)) in
    modify (set_combinedMetas (fun _ => newCombinedMetas)) >>
    modify (set_cachedPaths (fun _ => c_cachedPaths data)) >>
    modify (set_configurations (fun _ => c_configurations data)) >>
    (* First create tModules for all the saved modules, so we have references *)
    let* created :=
      mapM (fun kv : string * SerializedTranspiledModule =>
              let* r := addTranspiledModule (s_module kv.2) (s_query kv.2) in
              ret (kv.1, r))
           (map_to_list (c_transpiledModules data)) in
    let tModules : gmap string TMRef := list_to_map created in
    forEach (fun kv : string * TMRef =>
               match c_transpiledModules data !! kv.1 with
               | Some sTModule =>
                   foreign (EvLoad kv.2) (tm_load kv.2 sTModule tModules)
               | None => ret tt
               end)
            (map_to_list tModules)
  else ret tt.

Definition load (data : option SerializedCache) : M unit :=
  try_catch
    (match data with
     | Some d => load_try d
     | None => ret tt
     end)
    (fun _ => ret tt) >>
  clearCache.

(** ** Notions used in the statements *)

(** [c] keeps [P] true of the manager, whatever its outcome. *)
Definition preserves {A} (P : Manager -> Prop) (c : M A) : Prop :=
  forall w w' o, c w = (w', o) -> P (mgr w) -> P (mgr w').

(** The module set changed: [updateData] found a module to add, to update or
    to delete. *)
Definition moduleSetChanged (m : Manager) (newModules : gmap string SourceModule)
  : bool :=
  match addedModules m newModules ++ updatedModules m newModules with
  | [] => existsb (isDeleted newModules) (getModules m)
  | _ :: _ => true
  end.

(** The [TranspiledModule] methods called while diffing do not write the
    resolver cache. *)
Definition leavesCacheAlone : Prop :=
  (forall r sm m, cachedPaths (tm_update r sm m) = cachedPaths m) /\
  (forall r m, cachedPaths (tm_dispose r m) = cachedPaths m) /\
  (forall r m, cachedPaths (tm_resetTranspilation r m) = cachedPaths m).

(** The entries one transpiled module contributes. *)
Definition savedEntries (optimizeForSize : bool) (mf : Manifest) (m : Manager)
    (r : TMRef) : list (string * SerializedTranspiledModule) :=
  if notPrecomputed mf (deref m r)
  then [(getId (deref m r), tm_serialize optimizeForSize r m)]
  else [].

(** The error prescribed for a failed resolution of [shimmedPath] (the
    request after aliasing and shimming) from [currentPath]: the path is
    connected to [/node_modules] or to the directory of [currentPath]; under
    [/node_modules/] the manifest decides between a missing file of a known
    dependency and an unknown dependency. *)
Definition connectedPathOf (shimmedPath currentPath : string) : string :=
  if Js.startsWith shimmedPath "/node_modules" then shimmedPath
  else if Js.looks_like_dependency shimmedPath
       then join "/node_modules" shimmedPath
       else join (dirname currentPath) shimmedPath.

Definition knownToManifest (mf : Manifest) (name : string) : Prop :=
  (exists d, d ∈ dependencies mf /\ dep_name d = name) \/
  is_Some (dependencyDependencies mf !! name).

Inductive ResolutionError (mf : Manifest) (shimmedPath currentPath : string)
  : Exn -> Prop :=
| KnownDependencyFile rest :
    Js.includes (connectedPathOf shimmedPath currentPath) "/node_modules/" = true ->
    rest = Js.replace (connectedPathOf shimmedPath currentPath) "/node_modules/" "" ->
    knownToManifest mf (getDependencyName rest) ->
    ResolutionError mf shimmedPath currentPath
                    (ModuleNotFoundError rest true currentPath)
| UnknownDependency rest :
    Js.includes (connectedPathOf shimmedPath currentPath) "/node_modules/" = true ->
    rest = Js.replace (connectedPathOf shimmedPath currentPath) "/node_modules/" "" ->
    ~ knownToManifest mf (getDependencyName rest) ->
    ResolutionError mf shimmedPath currentPath
                    (DependencyNotFoundError rest currentPath)
| LocalFile :
    Js.includes (connectedPathOf shimmedPath currentPath) "/node_modules/" = false ->
    ResolutionError mf shimmedPath currentPath
                    (ModuleNotFoundError shimmedPath false currentPath).

(** The state after [if (this.cachedPaths[dirredPath] === undefined)
    this.cachedPaths[dirredPath] = {}]. *)
Definition ensured (dirredPath : string) (w : World) : World :=
  (ensureCacheDir dirredPath w).1.

(** The resolver cache of [m] is [X]. *)
Definition cacheIs (X : gmap string (gmap string string)) (m : Manager) : Prop :=
  cachedPaths m = X.

(** [resetTranspilation] and [transpile] do not touch the [isTestFile]
    flag of any transpiled module. *)
Definition keepsTestFlags : Prop :=
  (forall r r' m,
     isTestFile (deref (tm_resetTranspilation r m) r') = isTestFile (deref m r'))
  /\
  (forall r r' m,
     isTestFile (deref (tm_transpile r m).1 r') = isTestFile (deref m r')).

(** Every path of the module store is absolute. *)
Definition absolutePaths (m : Manager) : Prop :=
  map_Forall (fun k (_ : ModuleEntry) => Js.startsWith k "/" = true)
             (transpiledModules m).

(** Precomputed in the words of the specification: the manifest provides
    the content for the module path, the module did not require
    transpilation, and it was not downloaded.  A module of the manifest did
    not require transpilation when the packager transpiled it already, and
    then it carries the [requires] the packager supplied ([setManifest]
    sets [requires] on exactly those modules). *)
Definition precomputedBySpec (mf : Manifest) (tm : TranspiledModule) : bool :=
  bool_decide (is_Some (contents mf !! path (tm_module tm)))
  && bool_decide (is_Some (requires (tm_module tm)))
  && negb (downloaded (tm_module tm)).

(** The transpiled modules the persisted record does without: the manifest
    provides the content for the module path, the module was not
    downloaded, and it carries its [requires] or is no [.js] file. *)
Definition leftOut (mf : Manifest) (tm : TranspiledModule) : bool :=
  bool_decide (is_Some (contents mf !! path (tm_module tm)))
  && negb (downloaded (tm_module tm))
  && (bool_decide (is_Some (requires (tm_module tm)))
      || negb (Js.endsWith (path (tm_module tm)) ".js")).

End Manager.

(** ** A concrete set of collaborators

    Small stand-ins used to run the class on explicit inputs: POSIX-style
    path helpers, a resolver that probes [isFile] the way a Node resolver
    does, and transpiled-module methods that only move the flags the manager
    looks at. *)

Module Sample.

Definition dirnameImpl (s : string) : string :=
  match Js.lastIndexFrom "/" s 0 with
  | None => "."
  | Some 0 => "/"
  | Some i => String.substring 0 i s
  end.

Definition basenameImpl (s : string) : string :=
  match Js.lastIndexFrom "/" s 0 with
  | None => s
  | Some i => String.substring (S i) (String.length s - S i) s
  end.

Definition stripLead (s : string) : string :=
  if String.prefix "./" s then String.substring 2 (String.length s - 2) s
  else if String.prefix "/" s then String.substring 1 (String.length s - 1) s
  else s.

Definition joinImpl (a b : string) : string :=
  if Js.endsWith a "/" then a +:+ stripLead b else a +:+ "/" +:+ stripLead b.

(** First path segment, or the first two for a scoped package. *)
Definition segment (s : string) : string :=
  match Js.indexOf s "/" with
  | Some i => String.substring 0 i s
  | None => s
  end.

Definition getDependencyNameImpl (s : string) : string :=
  let first := segment s in
  if String.prefix "@" s
  then
    let rest := String.substring (S (String.length first))
                  (String.length s - S (String.length first)) s in
    first +:+ "/" +:+ segment rest
  else first.

Definition splitQueryFromPathImpl (s : string) : string * string :=
  match Js.lastIndexFrom "!" s 0 with
  | Some i =>
      (String.substring 0 i s,
       String.substring (S i) (String.length s - S i) s)
  | None => ("", s)
  end.

(** A package whose [browser] field switches it off resolves to the empty
    sentinel; otherwise the candidate files are probed in order. *)
Definition browserResolveImpl (request : string) (o : ResolveOpts)
  : option string :=
  if String.eqb request "electron" then Some "//empty.js"
  else
    let base :=
      if String.prefix "." request || String.prefix "/" request
      then joinImpl (dirnameImpl (filename o)) request
      else "/node_modules/" +:+ request in
    head (filter (fun c => opt_isFile o c = true)
            ([base] ++ ((fun e => base +:+ e) <$> extensions o)
              ++ [joinImpl base "index.js"])).

Definition dependenciesToQueryImpl (deps : gmap string string) : string :=
  fold_right (fun (kv : string * string) acc =>
                kv.1 +:+ "@" +:+ kv.2 +:+ "+" +:+ acc)
             "" (map_to_list deps).

Definition hashOfImpl (p q : string) : string := p +:+ ":" +:+ q.

Definition getIdImpl (tm : TranspiledModule) : string :=
  path (tm_module tm) +:+ ":" +:+ query tm.

Definition onTM (f : TranspiledModule -> TranspiledModule) (r : TMRef)
    (m : Manager) : Manager :=
  set_heap (alter f r) m.

Definition fetchModuleImpl (p : string) (_ : TMRef) (_ : list string)
    (m : Manager) : Manager * Outcome SourceModule :=
  let sm := mkModule ("/node_modules/" +:+ p +:+ "/index.js")
                     "module.exports = {}" None true None in
  (set_transpiledModules
     (fun tms => match tms !! path sm with
                 | Some _ => tms
                 | None => <[path sm := mkEntry sm ∅]> tms
                 end) m,
   Return sm).

Definition tm_updateImpl (r : TMRef) (sm : SourceModule) : Manager -> Manager :=
  onTM (fun t => mkTM sm (query t) (hash t) None None (errors t)
                      (hasMissingDependencies t) (isEntry t) (isTestFile t)
                      true) r.

Definition tm_resetTranspilationImpl (r : TMRef) : Manager -> Manager :=
  onTM (fun t => mkTM (tm_module t) (query t) (hash t) None (compilation t)
                      [] false (isEntry t) (isTestFile t) (hmrDirty t)) r.

Definition tm_shouldTranspileImpl (r : TMRef) (m : Manager) : bool :=
  match heap m !! r with
  | Some t => bool_decide (source t = None)
  | None => false
  end.

Definition tm_transpileImpl (r : TMRef) (m : Manager) : Manager * Outcome unit :=
  (onTM (fun t => mkTM (tm_module t) (query t) (hash t)
                       (Some (code (tm_module t))) (compilation t) (errors t)
                       (hasMissingDependencies t) (isEntry t) (isTestFile t)
                       (hmrDirty t)) r m,
   Return tt).

Definition tm_evaluateImpl (r : TMRef) (_ _ : bool) (_ : option TMRef)
    (m : Manager) : Manager * Outcome string :=
  match heap m !! r with
  | Some t =>
      (onTM (fun t => mkTM (tm_module t) (query t) (hash t) (source t)
                           (Some (code (tm_module t))) (errors t)
                           (hasMissingDependencies t) (isEntry t)
                           (isTestFile t) false) r m,
       Return (code (tm_module t)))
  | None => (m, Throw (Foreign "not transpiled"))
  end.

Definition tm_serializeImpl (_ : bool) (r : TMRef) (m : Manager)
  : SerializedTranspiledModule :=
  match heap m !! r with
  | Some t => mkSerialized (tm_module t) (query t) (default "" (source t))
  | None => mkSerialized (mkModule "" "" None false None) "" ""
  end.

Definition tm_loadImpl (r : TMRef) (s : SerializedTranspiledModule)
    (_ : gmap string TMRef) : Manager -> Manager :=
  onTM (fun t => mkTM (tm_module t) (query t) (hash t) (Some (s_payload s))
                      (compilation t) (errors t) (hasMissingDependencies t)
                      (isEntry t) (isTestFile t) (hmrDirty t)) r.

Definition collaborators : Collaborators :=
  {| dirname := dirnameImpl;
     join := joinImpl;
     basename := basenameImpl;
     getDependencyName := getDependencyNameImpl;
     coreLibraries := ∅;
     getAliasedPath := fun p => p;
     ignoredExtensions := ["js"; "jsx"; "json"];
     browserResolve := browserResolveImpl;
     splitQueryFromPath := splitQueryFromPathImpl;
     SCRIPT_VERSION := "v1";
     dependenciesToQuery := dependenciesToQueryImpl;
     hashOf := hashOfImpl;
     getId := getIdImpl;
     fetchModule := fetchModuleImpl;
     tm_update := tm_updateImpl;
     tm_dispose := fun _ m => m;
     tm_resetTranspilation := tm_resetTranspilationImpl;
     tm_shouldTranspile := tm_shouldTranspileImpl;
     tm_transpile := tm_transpileImpl;
     tm_evaluate := tm_evaluateImpl;
     tm_postEvaluate := fun _ m => m;
     tm_serialize := tm_serializeImpl;
     tm_load := tm_loadImpl |}.

Definition emptyManifest : Manifest := mkManifest ∅ [] ∅ ∅.

(** The manager right after construction over [ms] and [setManifest(mf)]
    with content-free [mf]. *)
Definition fresh (ms : list SourceModule) (mf : Manifest) : Manager :=
  mkManager (list_to_map ((fun sm => (path sm, mkEntry sm ∅)) <$> ms))
            ∅ ∅ 0 ∅ (list_to_map ((fun sm => (path sm, sm)) <$> ms))
            (Some mf) false true Idle ∅ ∅
            (mkConfigurations None None None) Transpilation ∅.

Definition src (p c : string) : SourceModule := mkModule p c None false None.

Definition run {A} (c : M A) (m : Manager) : World * Outcome A :=
  c (mkWorld m []).

End Sample.

(** ** The rest of the class *)

(** Plain objects used as maps.  [o[k]] finds the properties of [o] itself
    and, under the names below, the members every object inherits from
    [Object.prototype]; [o['__proto__'] = v] sets no property of [o].  The
    finite maps of this development hold the properties of the object
    itself: they read and write as the object does at every key that is
    plain. *)
Module JsObject.

Definition PROTOTYPE_MEMBERS : list string :=
  ["constructor"; "__defineGetter__"; "__defineSetter__"; "hasOwnProperty";
   "__lookupGetter__"; "__lookupSetter__"; "isPrototypeOf";
   "propertyIsEnumerable"; "toString"; "valueOf"; "__proto__";
   "toLocaleString"].

Definition inherited (k : string) : bool :=
  existsb (String.eqb k) PROTOTYPE_MEMBERS.

Definition plainKey (k : string) : Prop := inherited k = false.

End JsObject.

Module JsText.

(** [s.split(sep)] for a separator of one character. *)
Fixpoint split (sep : ascii) (s : string) : list string :=
  match s with
  | EmptyString => [EmptyString]
  | String c s' =>
      if Ascii.eqb c sep then EmptyString :: split sep s'
      else match split sep s' with
           | x :: xs => String c x :: xs
           | [] => [String c EmptyString]
           end
  end.

(** [l.join(sep)] *)
Fixpoint join (sep : string) (l : list string) : string :=
  match l with
  | [] => EmptyString
  | [x] => x
  | x :: l' => x +:+ sep +:+ join sep l'
  end.

(** [c] does not occur in [s]. *)
Fixpoint lacks (c : ascii) (s : string) : bool :=
  match s with
  | EmptyString => true
  | String d s' => negb (Ascii.eqb d c) && lacks c s'
  end.

End JsText.

Definition set_envVariables f (m : Manager) : Manager :=
  mkManager (transpiledModules m) (transpiledModulesByHash m) (heap m)
    (nextRef m) (f (envVariables m)) (modules m) (manifest m) (hardReload m)
    (isFirstLoad m) (hmrStatus m) (transpileJobs m) (cachedPaths m)
    (configurations m) (stage m) (combinedMetas m).

Definition set_manifest f (m : Manager) : Manager :=
  mkManager (transpiledModules m) (transpiledModulesByHash m) (heap m)
    (nextRef m) (envVariables m) (modules m) (f (manifest m)) (hardReload m)
    (isFirstLoad m) (hmrStatus m) (transpileJobs m) (cachedPaths m)
    (configurations m) (stage m) (combinedMetas m).

(** The imports of the methods below: the preset's [hasDotEnv], the Babel
    check [shouldTranspile], and the JSON round trip that drops the
    [browser] field of a [package.json] ([None] when [JSON.parse] rejects the
    text). *)
Class MoreCollaborators := {
  hasDotEnv : bool;
  shouldTranspile : string -> string -> bool;
  withoutBrowserField : string -> option string;
}.

Section ManagerRest.
Context `{C : Collaborators} `{D : MoreCollaborators}.

(** The constructor, for [options.hasFileResolver = false]: the fields it
    initialises and the modules it adds.  ([manifest] is assigned by
    [setManifest] only; the npm metadata belong to the fetcher's module and
    are what they were.) *)
Definition blankManager (ms : gmap string SourceModule) (metas : gset string)
  : Manager :=
  mkManager ∅ ∅ ∅ 0 ∅ ms None false true Idle ∅ ∅
            (mkConfigurations None None None) Transpilation metas.

Definition construct (ms : gmap string SourceModule) : M unit :=
  modify (fun m => blankManager ms (combinedMetas m)) >>
  forEach addModule (map_to_list ms).*2.

(* For these dependencies we don't want to follow along with the `browser` field *)
Definition SKIPPED_BROWSER_FIELD_DEPENDENCIES : list string :=
  (fun next => "/node_modules/" +:+ next +:+ "/package.json")
    <$> ["babel-core"; "@babel/core"].

(** The module [setManifest] builds for one entry of [manifest.contents]. *)
Definition manifestModule (p : string) (entry : string * list string)
  : M SourceModule :=
  let* code :=
    (if bool_decide (p ∈ SKIPPED_BROWSER_FIELD_DEPENDENCIES)
     then match withoutBrowserField entry.1 with
          | Some stripped => ret stripped
          | None => throw (JsError "SyntaxError: Unexpected token in JSON")
          end
     else ret entry.1) in
  (* Check if module syntax, only transpile when that's NOT the case *)
  ret (mkModule p code
                (if shouldTranspile code p then None else Some entry.2)
                false None).

Definition setManifest (manifest : option Manifest) : M unit :=
  let mf := default (mkManifest ∅ [] ∅ ∅) manifest in
  modify (set_manifest (fun _ => Some mf)) >>
  forEach (fun kv : string * (string * list string) =>
             let* module := manifestModule kv.1 kv.2 in
             addModule module)
          (map_to_list (contents mf)).

Definition moveModule (module : SourceModule) (newPath : string) : M unit :=
  removeModule module >>
  addModule (mkModule newPath (code module) (requires module)
                      (downloaded module) (parent module)).

(** One line of [/.env]: [const [name, ...val] = envLine.split('=')] and
    [this.envVariables[name] = val.join('=')].  The assignment of a string
    to [__proto__] is taken by the setter every object inherits, which
    ignores it: no variable is bound. *)
Definition setEnvironmentLine (envLine : string) : M unit :=
  match JsText.split "="%char envLine with
  | name :: val =>
      if String.eqb name "__proto__" then ret tt
      else
        modify
          (set_envVariables (fun env => <[name := JsText.join "=" val]> env))
  | [] => ret tt
  end.

(** [envCode] is a string, so nothing in the [try] block can throw. *)
Definition setEnvironmentVariables : M unit :=
  let* m := get in
  match transpiledModules m !! "/.env" with
  | Some e =>
      if hasDotEnv
      then
        let envCode := code (entry_module e) in
        modify (set_envVariables (fun _ => ∅)) >>
        forEach setEnvironmentLine (JsText.split "010"%char envCode)
      else ret tt
  | None => ret tt
  end.

Definition resolveTranspiledModulesInDirectory (p currentPath : string)
  : M (list TMRef) :=
  let '(queryPath, modulePath) := splitQueryFromPath p in
  let joinedPath := join (dirname currentPath) modulePath in
  let* m0 := get in
  mapM (fun k =>
          let* m := get in
          match transpiledModules m !! k with
          | Some e => getTranspiledModule (entry_module e) queryPath
          | None => throw (TypeError "Cannot read property 'module' of undefined")
          end)
       (filter (fun k => Js.startsWith k joinedPath = true)
               (map_to_list (transpiledModules m0)).*1).

End ManagerRest.

(** ** Notions used in the further statements *)

Section MoreNotions.
Context `{C : Collaborators} `{D : MoreCollaborators}.

(** The module stored under [p]. *)
Definition moduleOf (m : Manager) (p : string) : option SourceModule :=
  entry_module <$> transpiledModules m !! p.

(** The reference registered for [(p, q)]. *)
Definition slot (m : Manager) (p q : string) : option TMRef :=
  transpiledModules m !! p ≫= (fun e => tModules e !! q).

(** The store after [addModule]. *)
Definition withModule (sm : SourceModule) (tms : gmap string ModuleEntry)
  : gmap string ModuleEntry :=
  match tms !! path sm with
  | Some _ => tms
  | None => <[path sm := mkEntry sm ∅]> tms
  end.

(** The store after [addModule] of each module of [l] in turn. *)
Definition withModules (l : list SourceModule) (tms : gmap string ModuleEntry)
  : gmap string ModuleEntry :=
  fold_left (fun acc sm => withModule sm acc) l tms.



(** The [meta] record [serialize] writes for the npm metadata [cm], and the
    metadata [load] rebuilds from such a record. *)
Definition metaOf (cm : gset string) : gmap string (list string) :=
  fold_left (fun (acc : gmap string (list string)) p =>
               let dir := dirname (Js.replace p "/node_modules" "") in
               <[dir := default [] (acc !! dir) ++ [basename p]]> acc)
            (elements cm) ∅.

Definition metasOf (meta : gmap string (list string)) : gset string :=
  list_to_set
    (concat ((fun kv : string * list string =>
                (fun file => "/node_modules" +:+ kv.1 +:+ "/" +:+ file) <$> kv.2)
               <$> map_to_list meta)).

(** Every path of [cm] is [/node_modules], the directory of what follows
    [/node_modules], a slash and the base name. *)
Definition metaPathsSplit (cm : gset string) : Prop :=
  forall p, p ∈ cm ->
    "/node_modules" +:+ dirname (Js.replace p "/node_modules" "") +:+ "/"
      +:+ basename p = p.

(** [TranspiledModule.load] leaves the resolver cache, the configurations
    and the npm metadata alone. *)
Definition loadIsLocal : Prop :=
  forall r s tms m,
    cachedPaths (tm_load r s tms m) = cachedPaths m /\
    configurations (tm_load r s tms m) = configurations m /\
    combinedMetas (tm_load r s tms m) = combinedMetas m.

(** The hard-reload flag, the first-load flag and the configurations. *)
Definition flagsAre (h f : bool) (c : Configurations) (m : Manager) : Prop :=
  hardReload m = h /\ isFirstLoad m = f /\ configurations m = c.

(** The [TranspiledModule] methods [updateData] calls leave these three
    fields of the manager alone. *)
Definition keepFlags : Prop :=
  forall h f c m, flagsAre h f c m ->
    (forall r sm, flagsAre h f c (tm_update r sm m)) /\
    (forall r, flagsAre h f c (tm_dispose r m)) /\
    (forall r, flagsAre h f c (tm_resetTranspilation r m)) /\
    (forall r, flagsAre h f c (tm_transpile r m).1).

(** [updateData] found a module to add or to update, and the sandbox
    configuration asks for a hard reload on change. *)
Definition reloadDue (m : Manager) (newModules : gmap string SourceModule)
  : bool :=
  match addedModules m newModules ++ updatedModules m newModules,
        sandbox (configurations m) with
  | _ :: _, Some sb => hardReloadOnChange sb
  | _, _ => false
  end.

(** Every key that resolving [p] from [currentPath] looks up in a plain
    object is plain: the directory and the request in the resolver cache,
    the cached path in the module store, the two dependency names in the
    aliases of the manifest, the aliased path in the core libraries, the
    name of the dependency in the manifest when the resolution fails, and
    what the resolver answers in the module store.  The resolver itself
    looks at the files through [isFile] and [readFileSync], which read
    plain objects too: its answer depends on them at plain keys only. *)
Definition plainLookups (p currentPath : string) (exts : list string)
    (w : World) : Prop :=
  JsObject.plainKey (dirname currentPath) /\
  JsObject.plainKey p /\
  (forall c, cachedPath_of (mgr w) (dirname currentPath) p = Some c ->
             JsObject.plainKey c) /\
  JsObject.plainKey (getDependencyName (getPresetAliasedPath p)) /\
  JsObject.plainKey
    (getDependencyName (Js.replace currentPath "/node_modules/" "")) /\
  (forall a,
     (getAliasedDependencyPath (getPresetAliasedPath p) currentPath w).2
     = Return a ->
     JsObject.plainKey a) /\
  (forall shimmed,
     (shimmedPathOf p currentPath w).2 = Return shimmed ->
     JsObject.plainKey
       (getDependencyName
          (Js.replace (connectedPathOf shimmed currentPath)
                      "/node_modules/" "")) /\
     (forall v,
        browserResolve shimmed (resolveOpts (mgr w) currentPath exts) = Some v ->
        JsObject.plainKey v) /\
     (forall o,
        filename o = currentPath ->
        extensions o = extensions (resolveOpts (mgr w) currentPath exts) ->
        moduleDirectory o = getModuleDirectories (mgr w) ->
        (forall k, JsObject.plainKey k ->
                   opt_isFile o k = isFile (mgr w) k /\
                   opt_readFileSync o k = readFileSync (mgr w) k) ->
        browserResolve shimmed o
        = browserResolve shimmed (resolveOpts (mgr w) currentPath exts))).

(** [updateData] has no hard-reload setting to read: it found nothing to
    add or to update, or there is no sandbox configuration. *)
Definition reloadNotAsked (m : Manager) (newModules : gmap string SourceModule)
  : Prop :=
  addedModules m newModules ++ updatedModules m newModules = [] \/
  sandbox (configurations m) = None.

(** Every key of the object is plain. *)
Definition plainlyKeyed {V} (o : gmap string V) : Prop :=
  map_Forall (fun k (_ : V) => JsObject.plainKey k) o.

(** The modules of the store, by path. *)
Definition mods (m : Manager) : gmap string SourceModule :=
  entry_module <$> transpiledModules m.

(** Every module of the store is filed under its own path. *)
Definition storeKeyed (m : Manager) : Prop :=
  map_Forall (fun k e => path (entry_module e) = k) (transpiledModules m).

(** The [TranspiledModule] methods called while diffing do not change which
    modules the store holds. *)
Definition keepModules : Prop :=
  (forall r sm m, mods (tm_update r sm m) = mods m) /\
  (forall r m, mods (tm_dispose r m) = mods m) /\
  (forall r m, mods (tm_resetTranspilation r m) = mods m).

(** Stored modules after the deletion loop of [updateData], and after its
    additions and updates. *)
Definition delAll (newModules : gmap string SourceModule)
    (l : list SourceModule) (acc : gmap string SourceModule)
  : gmap string SourceModule :=
  fold_left (fun acc sm => if isDeleted newModules sm
                           then delete (path sm) acc else acc) l acc.

Definition insAll (l : list SourceModule) (acc : gmap string SourceModule)
  : gmap string SourceModule :=
  fold_left (fun acc sm => <[path sm := sm]> acc) l acc.

(** [c] appends to the trace only, and only events that satisfy [Q]. *)
Definition emits {A} (Q : Event -> Prop) (c : M A) : Prop :=
  forall w w' o, c w = (w', o) ->
    exists evs, trace w' = trace w ++ evs /\ Forall Q evs.

(** [m'] is [m] but for the resolver cache. *)
Definition sameButCache (m m' : Manager) : Prop :=
  set_cachedPaths (fun _ => ∅) m' = set_cachedPaths (fun _ => ∅) m.




(** The manager after [addTranspiledModule sm q]. *)
Definition registered (sm : SourceModule) (q : string) (m : Manager) : Manager :=
  set_transpiledModulesByHash (fun h => <[hashOf (path sm) q := nextRef m]> h)
    (set_transpiledModules
       (fun tms => alter (fun e => mkEntry sm (<[q := nextRef m]> (tModules e)))
                         (path sm) (withModule sm tms))
       (set_heap (fun h => <[nextRef m := newTranspiledModule sm q]> h)
          (set_nextRef S m))).

(** The manager after [removeTranspiledModule r]. *)
Definition unregistered (r : TMRef) (m : Manager) : Manager :=
  let tm := deref m r in
  set_transpiledModules
    (alter (fun e => mkEntry (entry_module e) (delete (query tm) (tModules e)))
           (path (tm_module tm)))
    (set_transpiledModulesByHash (delete (hash tm)) m).

(** No transpiled module of the hash registry belongs to [p]. *)
Definition forgotten (p : string) (m : Manager) : Prop :=
  forall h r, transpiledModulesByHash m !! h = Some r ->
              path (tm_module (deref m r)) <> p.

(** No other registration of [m] has the hash of [(p, q)]. *)
Definition hashSeparates (m : Manager) (p q : string) : Prop :=
  forall p' q', is_Some (slot m p' q') -> hashOf p' q' = hashOf p q ->
                p' = p /\ q' = q.

(** The two registries agree: a transpiled module registered for
    [(p, q)] is an allocated object with that path and query, found under
    its hash; and every hash of the hash registry belongs to a transpiled
    module registered for some [(p, q)]. *)
Definition registryConsistent (m : Manager) : Prop :=
  (forall p q r, slot m p q = Some r ->
     r < nextRef m /\
     path (tm_module (deref m r)) = p /\
     query (deref m r) = q /\
     hash (deref m r) = hashOf p q /\
     transpiledModulesByHash m !! hashOf p q = Some r) /\
  (forall h r, transpiledModulesByHash m !! h = Some r ->
     exists p q, slot m p q = Some r /\ h = hashOf p q).

(** [dispose] keeps the registries and the cache, and the path, query and
    hash of every transpiled module. *)
Definition disposeIsLocal : Prop :=
  forall r m,
    transpiledModules (tm_dispose r m) = transpiledModules m /\
    transpiledModulesByHash (tm_dispose r m) = transpiledModulesByHash m /\
    nextRef (tm_dispose r m) = nextRef m /\
    cachedPaths (tm_dispose r m) = cachedPaths m /\
    forall r', path (tm_module (deref (tm_dispose r m) r'))
                 = path (tm_module (deref m r')) /\
               query (deref (tm_dispose r m) r') = query (deref m r') /\
               hash (deref (tm_dispose r m) r') = hash (deref m r').

End MoreNotions.

(** ** The children of a directory in the file tree

    [DirectoryChildren] lists the directories and the modules of one
    directory.  What it renders for an entry is left to [DirectoryEntry] and
    [ModuleEntry]; the embedding is the selection and the order. *)

Module FileTree.

Record Directory := mkDirectory {
  d_id : string;
  d_title : string;
  d_directoryShortid : option string;
  d_shortid : string;
}.

Record File := mkFile {
  f_title : string;
  f_directoryShortid : option string;
  f_shortid : string;
}.

(** lodash [sortBy(l, key)] for string keys: ascending, and stable.  An
    element goes in front of the first one whose key is not smaller. *)
Fixpoint insertBy {A} (key : A -> string) (x : A) (l : list A) : list A :=
  match l with
  | [] => [x]
  | y :: l' =>
      if String.leb (key x) (key y) then x :: y :: l'
      else y :: insertBy key x l'
  end.

Definition sortBy {A} (key : A -> string) (l : list A) : list A :=
  foldr (insertBy key) [] l.

(** [parentShortid] is [None] for the root, whose entries have a [null]
    [directoryShortid]. *)
Definition childDirectories (HIDDEN_DIRECTORIES : list string)
    (parentShortid : option string) (directories : list Directory)
  : list Directory :=
  filter (fun x => ~ (d_directoryShortid x = None /\
                      d_title x ∈ HIDDEN_DIRECTORIES))
         (filter (fun x => d_directoryShortid x = parentShortid)
                 (sortBy d_title directories)).

Definition childModules (parentShortid : option string) (modules : list File)
  : list File :=
  sortBy f_title (filter (fun x => f_directoryShortid x = parentShortid) modules).

(** Ascending by title. *)
Definition byTitle {A} (title : A -> string) (a b : A) : Prop :=
  String.leb (title a) (title b) = true.

End FileTree.

(** Stand-ins for the further imports. *)
Module Sample2.

Definition shouldTranspileImpl (code _ : string) : bool :=
  Js.includes code "import " || Js.includes code "export ".

Definition collaborators : MoreCollaborators :=
  {| hasDotEnv := true;
     shouldTranspile := shouldTranspileImpl;
     withoutBrowserField := fun s => Some s |}.

End Sample2.

(** ** Concrete inputs *)

Section Inputs.
#[local] Existing Instance Sample.collaborators.

Definition indexModule : SourceModule :=
  Sample.src "/index.js" "module.exports = require('./dep') + 1".
Definition depModule : SourceModule :=
  Sample.src "/dep.js" "module.exports = 41".

(** A manager over two files, with an empty manifest. *)
Definition m0 : Manager := Sample.fresh [indexModule; depModule] Sample.emptyManifest.

Definition shimFor (request : string) : SourceModule :=
  mkModule ("/" +:+ request) "// empty" (Some []) false None.

(** [m0] after one asynchronous resolution of ['fs'] from [/index.js]. *)
Definition afterFs : World :=
  (Sample.run (resolveModuleAsync "fs" "/index.js" ["js"]) m0).1.

(** [m0] with a transpiled module for [/index.js] (reference 0). *)
Definition withIndexTM (m : Manager) : World :=
  (Sample.run (getTranspiledModule indexModule "") m).1.

(** The same manager when the manifest lists [lodash]. *)
Definition m0_lodash : Manager :=
  Sample.fresh [indexModule; depModule]
               (mkManifest ∅ [mkDep "lodash" "4.17.21"] ∅ ∅).

(** Where the synchronous resolution of ['lodash'] leaves that manager. *)
Definition lodashMissing : World :=
  (resolveTranspiledModule "lodash" "/index.js" None false
                           (withIndexTM m0_lodash)).1.

Definition staleCache : SerializedCache :=
  mkCache ∅ {["/" := {["./dep" := "/dep.js"]}]} "v0" 0
          (mkConfigurations None None None) (Some "/index.js") (Some ∅) "".

(** [m0] once [updateData] has run and a hard reload has been marked. *)
Definition reloadPending : World :=
  mkWorld (set_hardReload (fun _ => true) (set_isFirstLoad (fun _ => false) m0))
          [].

(** [m0] with [./dep] resolved from [/index.js], hence cached. *)
Definition afterDep : World :=
  (Sample.run (resolveModule "./dep" "/index.js" ["js"]) m0).1.

Definition editedModules : gmap string SourceModule :=
  <["/dep.js" := Sample.src "/dep.js" "module.exports = 100"]> (modules m0).

(** Where the diff of [updateData editedModules] leaves that manager. *)
Definition afterEdit : World := (updateData_diff editedModules afterDep).1.

Definition reactModule : SourceModule :=
  mkModule "/node_modules/react/index.js" "module.exports = {}" (Some [])
           false None.

Definition reactManifest : Manifest :=
  mkManifest {["/node_modules/react/index.js" := ("module.exports = {}", [])]}
             [mkDep "react" "17.0.0"] ∅ ∅.

(** A manager holding a project file and a precomputed file of the
    manifest, each with a transpiled module. *)
Definition withReact : World :=
  (Sample.run (getTranspiledModule indexModule "" >>
               getTranspiledModule reactModule "")
              (Sample.fresh [indexModule; reactModule] reactManifest)).1.

(** A manifest with an ES module that the packager left untranspiled: it
    comes without [requires]. *)
Definition esmModule : SourceModule :=
  mkModule "/node_modules/esm/index.mjs" "export default 1" None false None.

Definition esmManifest : Manifest :=
  mkManifest {["/node_modules/esm/index.mjs" := ("export default 1", [])]}
             [mkDep "esm" "1.0.0"] ∅ ∅.

(** A manager holding a project file and that module, each with a
    transpiled module. *)
Definition withEsm : World :=
  (Sample.run (getTranspiledModule indexModule "" >>
               getTranspiledModule esmModule "")
              (Sample.fresh [indexModule; esmModule] esmManifest)).1.

Definition testModule : SourceModule :=
  Sample.src "/index.test.js" "test('adds', () => {})".

Definition markTestFile (r : TMRef) : M unit :=
  modify (Sample.onTM (fun t =>
    mkTM (tm_module t) (query t) (hash t) (source t) (compilation t)
         (errors t) (hasMissingDependencies t) (isEntry t) true (hmrDirty t)) r).

(** A manager with a transpiled module for [/index.js] (reference 0) and one
    for the test file (reference 1), flagged as such. *)
Definition withTest : World :=
  (Sample.run (getTranspiledModule indexModule "" >>
               getTranspiledModule testModule "" >>
               markTestFile 1)
              (Sample.fresh [indexModule; testModule] Sample.emptyManifest)).1.

Definition bothEdited : gmap string SourceModule :=
  {[ "/index.js" := Sample.src "/index.js" "module.exports = 1";
     "/index.test.js" := Sample.src "/index.test.js" "test('subtracts', () => {})" ]}.

(** Where [updateData bothEdited] leaves the manager with the test file. *)
Definition afterBothEdited : World := (updateData bothEdited withTest).1.

(** Collaborators whose [transpile] resolves the module's one request,
    [./dep], through the manager, as a transpiler does for each dependency. *)
Definition resolvingTranspile (r : TMRef) (m : Manager)
  : Manager * Outcome unit :=
  let tm := deref m r in
  let '(w', o) :=
    resolveModule "./dep" (path (tm_module tm)) ["js"] (mkWorld m []) in
  match o with
  | Return _ => Sample.tm_transpileImpl r (mgr w')
  | Throw e => (mgr w', Throw e)
  end.

Definition resolvingCollaborators : Collaborators :=
  {| dirname := Sample.dirnameImpl;
     join := Sample.joinImpl;
     basename := Sample.basenameImpl;
     getDependencyName := Sample.getDependencyNameImpl;
     coreLibraries := ∅;
     getAliasedPath := fun p => p;
     ignoredExtensions := ["js"; "jsx"; "json"];
     browserResolve := Sample.browserResolveImpl;
     splitQueryFromPath := Sample.splitQueryFromPathImpl;
     SCRIPT_VERSION := "v1";
     dependenciesToQuery := Sample.dependenciesToQueryImpl;
     hashOf := Sample.hashOfImpl;
     getId := Sample.getIdImpl;
     fetchModule := Sample.fetchModuleImpl;
     tm_update := Sample.tm_updateImpl;
     tm_dispose := fun _ m => m;
     tm_resetTranspilation := Sample.tm_resetTranspilationImpl;
     tm_shouldTranspile := Sample.tm_shouldTranspileImpl;
     tm_transpile := resolvingTranspile;
     tm_evaluate := Sample.tm_evaluateImpl;
     tm_postEvaluate := fun _ m => m;
     tm_serialize := Sample.tm_serializeImpl;
     tm_load := Sample.tm_loadImpl |}.

Definition indexEdited : gmap string SourceModule :=
  <["/index.js" := Sample.src "/index.js" "module.exports = require('./dep')"]>
    (modules m0).

(** [m0] knowing, from the npm metadata, of a file of [lodash] that has not
    been fetched into the store. *)
Definition withLodashMeta : World :=
  mkWorld (set_combinedMetas (fun _ => {["/node_modules/lodash/index.js"]}) m0)
          [].

End Inputs.

(** ** More concrete inputs *)

Section MoreInputs.
#[local] Existing Instance Sample.collaborators.
#[local] Existing Instance Sample2.collaborators.

(** Where the failed synchronous resolution of ['lodash'] leaves [m0]. *)
Definition lodashUnknown : World :=
  (resolveModule "lodash" "/index.js" ["js"] (mkWorld m0 [])).1.

(** The value a run returned, [d] if it threw. *)
Definition returned {A} (d : A) (r : World * Outcome A) : A :=
  match r.2 with
  | Return a => a
  | Throw _ => d
  end.

(** A sandbox with an [/.env] file of two lines, the second with a value
    that holds an equals sign. *)
Definition envBindings : list (string * string) :=
  [("NODE_PATH", "src"); ("API", "a=b")].

Definition envModule : SourceModule :=
  Sample.src "/.env"
    (JsText.join (String "010"%char EmptyString)
                 ((fun kv => kv.1 +:+ "=" +:+ kv.2) <$> envBindings)).

Definition envStore : World :=
  mkWorld (Sample.fresh [indexModule; envModule] Sample.emptyManifest) [].

(** The same with a line for [__proto__] in between. *)
Definition protoBindings : list (string * string) :=
  [("NODE_PATH", "src"); ("__proto__", "p"); ("API", "a=b")].

Definition protoEnvModule : SourceModule :=
  Sample.src "/.env"
    (JsText.join (String "010"%char EmptyString)
                 ((fun kv => kv.1 +:+ "=" +:+ kv.2) <$> protoBindings)).

Definition protoEnvStore : World :=
  mkWorld (Sample.fresh [indexModule; protoEnvModule] Sample.emptyManifest) [].

(** The two files of [m0], as handed to the constructor, and the manager it
    builds from them. *)
Definition twoFiles : gmap string SourceModule :=
  {[ "/index.js" := indexModule; "/dep.js" := depModule ]}.

Definition storeA : World := (construct twoFiles (mkWorld m0 [])).1.

(** ... with a transpiled module for [/index.js]. *)
Definition storeB : World :=
  mkWorld (registered indexModule "" (mgr storeA)) (trace storeA).

(** Where moving [/index.js] to a free path, and onto [/dep.js], leaves
    it. *)
Definition storeMoved : World := (moveModule indexModule "/main.js" storeB).1.

Definition storeOnto : World := (moveModule indexModule "/dep.js" storeB).1.

(** [m0] before its manifest is set, and after [setManifest] with the
    manifest of [react]. *)
Definition withManifest : World :=
  (setManifest (Some reactManifest) (mkWorld m0 [])).1.

(** [m0] in a sandbox configured to reload the page on every change, with
    a hard reload marked; and where [updateData], with [/dep.js] edited and
    with nothing edited, leaves it. *)
Definition hardReloadSandbox : World :=
  (markHardReload
     (mkWorld (set_configurations
                 (fun _ => mkConfigurations None None
                                            (Some (mkSandboxConfig true))) m0)
              [])).1.

Definition afterHardEdit : World :=
  (updateData editedModules hardReloadSandbox).1.

Definition afterNoEdit : World :=
  (updateData (modules m0) hardReloadSandbox).1.

(** [m0] in its first load with a hard reload marked, and where
    [evaluateModule] of [/index.js] leaves it. *)
Definition firstLoadMarked : World := (markHardReload (mkWorld m0 [])).1.

Definition firstLoadEvaluated : World :=
  (evaluateModule indexModule false false firstLoadMarked).1.



(** A record of the current version, written without [meta]. *)
Definition depCacheWithoutMeta : SerializedCache :=
  mkCache {["/dep.js:" := mkSerialized depModule "" "module.exports = 41"]}
          {["/" := {["./dep" := "/dep.js"]}]} "v1" 0
          (mkConfigurations None None None) None None "".

(** What [serialize] returns in a manager with npm metadata. *)
Definition lodashSaved : SerializedCache :=
  returned (mkCache ∅ ∅ "" 0 (mkConfigurations None None None) None None "")
           (serialize None true 0 withLodashMeta).

Definition lodashLoaded : World := (load (Some lodashSaved) (mkWorld m0 [])).1.

End MoreInputs.

(** ** Properties *)

Section Properties.
Context `{C : Collaborators}.

(** C9. A request that starts with [webpack:] makes [resolveTranspiledModule],
    in its synchronous and in its asynchronous form, throw
    [Error('Cannot resolve webpack path')] at once: the manager (cache
    included) is as before and no collaborator has been called. *)
Theorem resolveTranspiledModule_webpack_throws
    (p currentPath : string) (ignored : option (list string)) (async : bool)
    (w : World) :
  Js.startsWith p "webpack:" = true ->
  resolveTranspiledModule p currentPath ignored async w
  = (w, Throw (JsError "Cannot resolve webpack path")).
Proof.
  intros Hweb. unfold resolveTranspiledModule. rewrite Hweb. reflexivity.
Qed.

(** C8 (as amended). When a hard reload is pending and this is not the first
    load, [evaluateModule] reloads the host page and returns the empty
    object; no transpiled module is evaluated and the manager is untouched. *)
Theorem evaluateModule_hard_reload
    (module : SourceModule) (force testGlobals : bool) (w : World) :
  hardReload (mgr w) = true ->
  isFirstLoad (mgr w) = false ->
  evaluateModule module force testGlobals w
  = (mkWorld (mgr w) (trace w ++ [EvReload]), Return "{}").
Proof.
  intros Hhard Hfirst. unfold evaluateModule, bind, get. cbn.
  rewrite Hhard, Hfirst. reflexivity.
Qed.

(** C3 (as amended). [resolveTranspiledModuleAsync] resolves synchronously
    from the path of the current transpiled module.  A value is passed on; a
    [ModuleNotFoundError] with [isDependency = true] is answered by
    [downloadDependency] for the missing path and the query of the request;
    every other error, [DependencyNotFoundError] included, reaches the
    caller unchanged. *)
Theorem resolveTranspiledModuleAsync_recovery
    (p : string) (tModule : TMRef) (ignored : option (list string))
    (w w' : World) (o : Outcome TMRef) :
  resolveTranspiledModule p (path (tm_module (deref (mgr w) tModule)))
                          ignored false w = (w', o) ->
  resolveTranspiledModuleAsync p (Some tModule) ignored w
  = match o with
    | Return r => (w', Return r)
    | Throw (ModuleNotFoundError ep true _) =>
        downloadDependency ep tModule (splitQueryFromPath p).1 ignored w'
    | Throw e => (w', Throw e)
    end.
Proof.
  intros Hres.
  unfold resolveTranspiledModuleAsync, try_catch, bind, ret, get. cbn.
  rewrite Hres.
  destruct o as [r | e]; [reflexivity |].
  destruct e as [ep [] cp | ep cp | msg | msg | msg]; cbn; try reflexivity.
  destruct (splitQueryFromPath p); reflexivity.
Qed.

(** [load] cannot fail, whatever the record: its body runs under a
    [catch] that only logs. *)
Lemma load_never_throws (data : option SerializedCache) (w : World) :
  exists w', load data w = (w', Return tt).
Proof.
  unfold load, bind, try_catch, clearCache, emit, ret.
  destruct data as [d |]; [| eauto].
  destruct (load_try d w) as [w1 [[] | e]]; eauto.
Qed.

(** C4. [load] restores only when [data.version] is [SCRIPT_VERSION] and
    [data.dependenciesQuery] is the manager's current dependency query.  If
    either differs, the manager (both registries of transpiled modules, the
    cache, the configurations) is exactly as before, the only effect is the
    two [clearCache] calls, and the call completes normally. *)
Theorem load_discards_mismatch (d : SerializedCache) (w : World) :
  c_version d <> SCRIPT_VERSION \/
  c_dependenciesQuery d <> getDependencyQuery (mgr w) ->
  load (Some d) w
  = (mkWorld (mgr w)
             (trace w ++ [EvClearIndexedDBCache; EvClearIndexedDBCache]),
     Return tt).
Proof.
  intros Hmis.
  assert (Hcond : String.eqb (c_version d) SCRIPT_VERSION
                  && String.eqb (c_dependenciesQuery d)
                                (getDependencyQuery (mgr w)) = false).
  { apply andb_false_iff.
    destruct Hmis as [H | H]; [left | right]; by apply String.eqb_neq. }
  unfold load, load_try, bind, try_catch, clearCache, emit, get, ret. cbn.
  rewrite Hcond. cbn. by rewrite <- app_assoc.
Qed.

(** *** Reasoning about monadic code *)

Lemma bind_inv {A B} (c : M A) (k : A -> M B) w w' o :
  bind c k w = (w', o) ->
  exists w1 o1,
    c w = (w1, o1) /\
    match o1 with
    | Return a => k a w1 = (w', o)
    | Throw e => w1 = w' /\ o = Throw e
    end.
Proof.
  unfold bind. destruct (c w) as [w1 [a | e]]; intros H.
  - exists w1, (Return a). done.
  - injection H as <- <-. exists w1, (Throw e). done.
Qed.

Lemma try_catch_inv {A} (c : M A) (h : Exn -> M A) w w' o :
  try_catch c h w = (w', o) ->
  exists w1 o1,
    c w = (w1, o1) /\
    match o1 with
    | Return a => w1 = w' /\ o = Return a
    | Throw e => h e w1 = (w', o)
    end.
Proof.
  unfold try_catch. destruct (c w) as [w1 [a | e]]; intros H.
  - injection H as <- <-. exists w1, (Return a). done.
  - exists w1, (Throw e). done.
Qed.

Lemma bind_Return_inv {A B} (c : M A) (k : A -> M B) w w' b :
  bind c k w = (w', Return b) ->
  exists w1 a, c w = (w1, Return a) /\ k a w1 = (w', Return b).
Proof.
  unfold bind. destruct (c w) as [w1 [a | e]]; [eauto | discriminate].
Qed.

Lemma preserves_ret {A} P (a : A) : preserves P (ret a).
Proof. intros w w' o [= <- _] HP. done. Qed.

Lemma preserves_throw {A} P e : preserves P (@throw A e).
Proof. intros w w' o [= <- _] HP. done. Qed.

Lemma preserves_get P : preserves P get.
Proof. intros w w' o [= <- _] HP. done. Qed.

Lemma preserves_emit P ev : preserves P (emit ev).
Proof. intros w w' o [= <- _] HP. done. Qed.

Lemma preserves_modify P f :
  (forall m, P m -> P (f m)) -> preserves P (modify f).
Proof. intros Hf w w' o [= <- _] HP. cbn. auto. Qed.

Lemma preserves_foreign P ev f :
  (forall m, P m -> P (f m)) -> preserves P (foreign ev f).
Proof. intros Hf w w' o [= <- _] HP. cbn. auto. Qed.

Lemma preserves_bind {A B} P (c : M A) (k : A -> M B) :
  preserves P c -> (forall a, preserves P (k a)) -> preserves P (bind c k).
Proof.
  intros Hc Hk w w' o Hrun HP. unfold bind in Hrun.
  destruct (c w) as [w1 [a | e]] eqn:Hcw.
  - eapply Hk; [exact Hrun |]. eapply Hc; eauto.
  - injection Hrun as <- _. eapply Hc; eauto.
Qed.

Lemma preserves_forEach {A} P (f : A -> M unit) l :
  (forall x, preserves P (f x)) -> preserves P (forEach f l).
Proof.
  intros Hf. induction l as [| x l IH]; cbn.
  - apply preserves_ret.
  - apply preserves_bind; auto.
Qed.

Lemma preserves_mapM {A B} P (f : A -> M B) l :
  (forall x, preserves P (f x)) -> preserves P (mapM f l).
Proof.
  intros Hf. induction l as [| x l IH]; cbn.
  - apply preserves_ret.
  - apply preserves_bind; [auto |]. intros y.
    apply preserves_bind; [auto |]. intros ys. apply preserves_ret.
Qed.

Lemma preserves_filterM {A} P (f : A -> M bool) l :
  (forall x, preserves P (f x)) -> preserves P (filterM f l).
Proof.
  intros Hf. induction l as [| x l IH]; cbn.
  - apply preserves_ret.
  - apply preserves_bind; [auto |]. intros y.
    apply preserves_bind; [auto |]. intros ys. apply preserves_ret.
Qed.

(** *** The retranspile pass *)

Lemma forEach_foreign_run (ev : TMRef -> Event) (f : TMRef -> Manager -> Manager)
    l w w' o :
  forEach (fun r => foreign (ev r) (f r)) l w = (w', o) ->
  o = Return tt /\ trace w' = trace w ++ (ev <$> l).
Proof.
  revert w. induction l as [| r l IH]; intros w Hrun; cbn in Hrun.
  - injection Hrun as <- <-. by rewrite app_nil_r.
  - unfold bind, foreign in Hrun. cbn in Hrun.
    apply IH in Hrun as [-> ->]. cbn. by rewrite <- app_assoc.
Qed.

Lemma mapM_retranspile_run l w w' res :
  mapM retranspileStep l w = (w', Return res) ->
  trace w' = trace w ++ (EvTranspile <$> omap id res) /\
  (forall r, Some r ∈ res -> r ∈ l).
Proof.
  revert w res. induction l as [| x l IH]; intros w res Hrun; cbn in Hrun.
  - injection Hrun as <- <-. cbn. rewrite app_nil_r. split; [done |].
    intros r Hr. by apply elem_of_nil in Hr.
  - apply bind_Return_inv in Hrun as (w1 & y & Hstep & Hrun).
    apply bind_Return_inv in Hrun as (w2 & ys & Hrest & Hrun).
    injection Hrun as <- <-.
    apply IH in Hrest as [Htr Hin].
    unfold retranspileStep, bind, get, foreign_call, ret in Hstep.
    cbn in Hstep.
    destruct (tm_shouldTranspile x (mgr w)).
    + destruct (tm_transpile x (mgr w)) as [m' [[] | e]]; [| discriminate].
      injection Hstep as <- <-. cbn in Htr. split.
      * cbn. rewrite Htr. by rewrite <- app_assoc.
      * intros r [[= ->] | Hr]%elem_of_cons; [left | right; auto].
    + injection Hstep as <- <-. split.
      * cbn. exact Htr.
      * intros r [[=] | Hr]%elem_of_cons. right; auto.
Qed.

Lemma updateData_retranspile_run allModulesToUpdate w1 w' results :
  updateData_retranspile allModulesToUpdate w1 = (w', Return results) ->
  trace w' =
    trace w1
      ++ (EvResetTranspilation
            <$> filter (fun r => isTestFile (deref (mgr w1) r) = true)
                       allModulesToUpdate)
      ++ (EvTranspile <$> omap id results) /\
  (forall r, Some r ∈ results ->
             r ∈ allModulesToUpdate /\
             isTestFile (deref (mgr w1) r) = false).
Proof.
  intros Hrun. unfold updateData_retranspile in Hrun.
  apply bind_Return_inv in Hrun as (w1' & m & Hget & Hrun).
  injection Hget as <- <-.
  apply bind_Return_inv in Hrun as (w2 & [] & Hreset & Hrun).
  apply forEach_foreign_run in Hreset as [_ Hreset].
  apply (mapM_retranspile_run _ w2 w' results) in Hrun as [Htr Hin].
  split.
  - rewrite Htr, Hreset. by rewrite <- app_assoc.
  - intros r Hr. apply Hin in Hr.
    apply list_elem_of_filter in Hr as [Hflag Hr]. done.
Qed.

(** C10. [updateData] does not retranspile test files.  Of the transpiled
    modules selected for update, those flagged [isTestFile] get exactly a
    [resetTranspilation]; [transpile] is only called on the others, and only
    those can occur in the returned array. *)
Theorem updateData_skips_test_files
    (newModules : gmap string SourceModule) (w w' : World)
    (results : list (option TMRef)) :
  updateData newModules w = (w', Return results) ->
  exists (w1 : World) (allModulesToUpdate : list TMRef),
    updateData_diff newModules w = (w1, Return allModulesToUpdate) /\
    trace w' =
      trace w1
        ++ (EvResetTranspilation
              <$> filter (fun r => isTestFile (deref (mgr w1) r) = true)
                         allModulesToUpdate)
        ++ (EvTranspile <$> omap id results) /\
    (forall r, Some r ∈ results ->
               r ∈ allModulesToUpdate /\
               isTestFile (deref (mgr w1) r) = false).
Proof.
  intros Hrun. unfold updateData in Hrun.
  apply bind_Return_inv in Hrun as (w1 & all & Hdiff & Hrun).
  exists w1, all. split; [exact Hdiff |].
  by apply updateData_retranspile_run.
Qed.

Lemma preserves_foreign_call {A} P ev (f : Manager -> Manager * Outcome A) :
  (forall m, P m -> P (f m).1) -> preserves P (foreign_call ev f).
Proof.
  intros Hf w w' o Hrun HP. unfold foreign_call in Hrun.
  specialize (Hf (mgr w) HP). destruct (f (mgr w)) as [m' o'].
  by injection Hrun as <- _.
Qed.

(** X4. When [resetTranspilation] and [transpile] leave the [isTestFile]
    flags alone, no transpiled module in the array [updateData] returns is a
    test file when the call returns. *)
Lemma updateData_returns_no_test_file
    (newModules : gmap string SourceModule) (w w' : World)
    (results : list (option TMRef)) :
  keepsTestFlags ->
  updateData newModules w = (w', Return results) ->
  forall r, Some r ∈ results -> isTestFile (deref (mgr w') r) = false.
Proof.
  intros [Hreset Htranspile] Hrun r Hr. unfold updateData in Hrun.
  apply bind_Return_inv in Hrun as (w1 & all & Hdiff & Hrun).
  pose proof (updateData_retranspile_run _ _ _ _ Hrun) as [_ Hsel].
  destruct (Hsel r Hr) as [_ Hflag].
  assert (Hkeep : preserves (fun m => isTestFile (deref m r) = false)
                            (updateData_retranspile all)).
  { unfold updateData_retranspile.
    apply preserves_bind; [apply preserves_get |]. intros m.
    apply preserves_bind.
    - apply preserves_forEach. intros r'. apply preserves_foreign.
      intros m' Hm'. by rewrite Hreset.
    - intros _. apply preserves_mapM. intros r'. unfold retranspileStep.
      apply preserves_bind; [apply preserves_get |]. intros m'.
      destruct (tm_shouldTranspile r' m'); [| apply preserves_ret].
      apply preserves_bind; [| intros; apply preserves_ret].
      apply preserves_foreign_call. intros m'' Hm''. by rewrite Htranspile. }
  exact (Hkeep w1 w' _ Hrun Hflag).
Qed.

(** *** The resolver cache across [updateData] *)

Ltac preserves_step :=
  match goal with
  | |- preserves _ (bind _ _) => apply preserves_bind; [| intros ?]
  | |- preserves _ (ret _) => apply preserves_ret
  | |- preserves _ (throw _) => apply preserves_throw
  | |- preserves _ get => apply preserves_get
  | |- preserves _ (emit _) => apply preserves_emit
  | |- preserves _ (modify _) => apply preserves_modify; intros ? ?; cbn
  | |- preserves _ (foreign _ _) => apply preserves_foreign; intros ? ?
  | |- preserves _ (forEach _ _) => apply preserves_forEach; intros ?
  | |- preserves _ (mapM _ _) => apply preserves_mapM; intros ?
  | |- preserves _ (filterM _ _) => apply preserves_filterM; intros ?
  | |- preserves _ (match ?x with _ => _ end) => destruct x
  end.

Section CachedPaths.
Hypothesis Hframe : leavesCacheAlone.

Lemma addTranspiledModule_keeps_cache X sm q :
  preserves (cacheIs X) (addTranspiledModule sm q).
Proof.
  unfold addTranspiledModule, addModule, cacheIs.
  repeat preserves_step; auto.
Qed.

Lemma updateModule_keeps_cache X sm : preserves (cacheIs X) (updateModule sm).
Proof.
  destruct Hframe as (Hupd & _ & _).
  unfold updateModule, cacheIs. repeat preserves_step; auto.
  by rewrite Hupd.
Qed.

Lemma modulesWithErrors_keeps_cache X : preserves (cacheIs X) modulesWithErrors.
Proof.
  destruct Hframe as (_ & _ & Hreset).
  unfold modulesWithErrors, cacheIs. repeat preserves_step; auto.
  by rewrite Hreset.
Qed.

Lemma updateData_apply_keeps_cache X added updated :
  preserves (cacheIs X) (updateData_apply added updated).
Proof.
  unfold updateData_apply.
  apply preserves_bind.
  { apply preserves_forEach. intros sm. apply preserves_bind.
    - apply addTranspiledModule_keeps_cache.
    - intros r. apply preserves_ret. }
  intros _. apply preserves_bind.
  { apply preserves_mapM. intros sm. apply updateModule_keeps_cache. }
  intros tms. apply preserves_bind; [apply preserves_get |]. intros m.
  apply preserves_bind.
  { unfold cacheIs. repeat preserves_step; auto. }
  intros _. apply preserves_bind; [apply modulesWithErrors_keeps_cache |].
  intros errs. apply preserves_ret.
Qed.

Lemma removeTranspiledModule_keeps_cache X r :
  preserves (cacheIs X) (removeTranspiledModule r).
Proof.
  unfold removeTranspiledModule, cacheIs. repeat preserves_step; auto.
Qed.

Lemma removeModule_keeps_empty sm : preserves (cacheIs ∅) (removeModule sm).
Proof.
  destruct Hframe as (_ & Hdisp & _).
  unfold removeModule. apply preserves_bind.
  { apply preserves_modify. intros m _. reflexivity. }
  intros _. apply preserves_bind; [apply preserves_get |]. intros m.
  destruct (transpiledModules m !! path sm); [| apply preserves_throw].
  apply preserves_bind.
  - apply preserves_forEach. intros r. apply preserves_bind.
    + apply preserves_foreign. intros m' Hm'. unfold cacheIs. by rewrite Hdisp.
    + intros _. apply removeTranspiledModule_keeps_cache.
  - intros _. apply preserves_modify. intros m' Hm'. exact Hm'.
Qed.

Lemma removeModule_empties sm w w' :
  removeModule sm w = (w', Return tt) -> cachedPaths (mgr w') = ∅.
Proof.
  (* the first statement of [removeModule] is the reset, so the run from
     [w] is also the run from [w] with an empty cache *)
  intros Hrun.
  eapply (removeModule_keeps_empty sm
            (mkWorld (set_cachedPaths (fun _ => ∅) (mgr w)) (trace w)));
    [exact Hrun | reflexivity].
Qed.

Lemma updateData_delete_keeps_empty newModules stored :
  preserves (cacheIs ∅) (updateData_delete newModules stored).
Proof.
  unfold updateData_delete. apply preserves_forEach. intros sm.
  destruct (isDeleted newModules sm).
  - apply removeModule_keeps_empty.
  - apply preserves_ret.
Qed.

Lemma updateData_delete_nothing newModules stored w :
  existsb (isDeleted newModules) stored = false ->
  updateData_delete newModules stored w = (w, Return tt).
Proof.
  unfold updateData_delete.
  induction stored as [| sm stored IH]; cbn; intros Hnone; [done |].
  apply orb_false_iff in Hnone as [Hsm Hrest].
  rewrite Hsm. unfold bind, ret. cbn. by apply IH.
Qed.

Lemma updateData_delete_empties newModules stored w w' :
  existsb (isDeleted newModules) stored = true ->
  updateData_delete newModules stored w = (w', Return tt) ->
  cachedPaths (mgr w') = ∅.
Proof.
  unfold updateData_delete. revert w.
  induction stored as [| sm stored IH]; cbn; intros w Hsome Hrun; [done |].
  apply bind_Return_inv in Hrun as (w1 & [] & Hsm & Hrun).
  destruct (isDeleted newModules sm) eqn:Hdel.
  - apply removeModule_empties in Hsm.
    eapply (updateData_delete_keeps_empty newModules stored); eauto.
  - injection Hsm as <-. cbn in Hsome. eauto.
Qed.

End CachedPaths.

(** C6 (as amended). Provided the [TranspiledModule] methods [update],
    [dispose] and [resetTranspilation] do not write the resolver cache: when
    the diff of [updateData] is done and the retranspile pass is about to
    start, the cache is empty if a module was added, updated or deleted, and
    is the cache from before the call if nothing changed. *)
Theorem updateData_diff_cachedPaths
    (newModules : gmap string SourceModule) (w w1 : World)
    (allModulesToUpdate : list TMRef) :
  leavesCacheAlone ->
  updateData_diff newModules w = (w1, Return allModulesToUpdate) ->
  cachedPaths (mgr w1)
  = if moduleSetChanged (mgr w) newModules then ∅ else cachedPaths (mgr w).
Proof.
  intros Hframe Hrun. unfold updateData_diff in Hrun.
  do 4 (apply bind_Return_inv in Hrun as (? & [] & [= <-] & Hrun)).
  apply bind_Return_inv in Hrun as (? & m & [= <- <-] & Hrun).
  cbn [mgr trace] in Hrun.
  set (m := set_modules _ _) in Hrun.
  change (addedModules m newModules)
    with (addedModules (mgr w) newModules) in Hrun.
  change (updatedModules m newModules)
    with (updatedModules (mgr w) newModules) in Hrun.
  change (getModules m) with (getModules (mgr w)) in Hrun.
  apply bind_Return_inv in Hrun as (w2 & [] & Hreset & Hrun).
  apply bind_Return_inv in Hrun as (w3 & [] & Hdelete & Hrun).
  unfold moduleSetChanged.
  destruct (addedModules (mgr w) newModules
              ++ updatedModules (mgr w) newModules) as [| sm l] eqn:Hdiff.
  - injection Hreset as <-.
    destruct (existsb (isDeleted newModules) (getModules (mgr w))) eqn:Hdel.
    + apply (updateData_delete_empties Hframe _ _ _ _ Hdel) in Hdelete.
      eapply (updateData_apply_keeps_cache Hframe ∅);
        [exact Hrun | exact Hdelete].
    + rewrite (updateData_delete_nothing _ _ _ Hdel) in Hdelete.
      injection Hdelete as <-.
      eapply (updateData_apply_keeps_cache Hframe (cachedPaths (mgr w)));
        [exact Hrun | reflexivity].
  - injection Hreset as <-.
    eapply (updateData_apply_keeps_cache Hframe ∅); [exact Hrun |].
    eapply (updateData_delete_keeps_empty Hframe newModules);
      [exact Hdelete |].
    reflexivity.
Qed.

(** *** What [serialize] persists *)

Lemma leftOut_not_saved mf tm :
  leftOut mf tm = negb (notPrecomputed mf tm).
Proof.
  unfold leftOut, notPrecomputed, needsTranspilation.
  destruct (contents mf !! path (tm_module tm)) as [c |];
    destruct (requires (tm_module tm));
    destruct (Js.endsWith (path (tm_module tm)) ".js");
    destruct (downloaded (tm_module tm)); reflexivity.
Qed.

Lemma serializeSlots_run optimizeForSize mf l w :
  manifest (mgr w) = Some mf ->
  exists tr,
    mapM (serializeSlot optimizeForSize) l w
    = (mkWorld (mgr w) tr,
       Return (savedEntries optimizeForSize mf (mgr w) <$> l)).
Proof.
  intros Hmf. revert w Hmf.
  induction l as [| r l IH]; intros w Hmf; cbn.
  - exists (trace w). by destruct w.
  - unfold bind at 1. unfold serializeSlot at 1, savedEntries at 1.
    unfold bind, get, emit, ret. cbn. rewrite Hmf.
    destruct (notPrecomputed mf (deref (mgr w) r)).
    + destruct (IH (mkWorld (mgr w) (trace w ++ [EvSerialize r])) Hmf)
        as [tr Htr].
      cbn in Htr. unfold bind in Htr. rewrite Htr. cbn. eauto.
    + destruct (IH w Hmf) as [tr Htr].
      unfold bind in Htr. rewrite Htr. cbn. eauto.
Qed.

Lemma elem_of_concat_fmap {A B} (f : A -> list B) (l : list A) (y : B) :
  y ∈ concat (f <$> l) <-> exists x, x ∈ l /\ y ∈ f x.
Proof.
  induction l as [| a l IH]; cbn.
  - split; [intros H; by apply elem_of_nil in H |].
    intros (x & H & _). by apply elem_of_nil in H.
  - rewrite elem_of_app, IH. split.
    + intros [H | (x & Hx & Hy)].
      * exists a. split; [left | done].
      * exists x. split; [by right | done].
    + intros (x & [-> | Hx]%elem_of_cons & Hy); [by left | right; eauto].
Qed.

Section FoldInsert.
Context {V : Type}.

Lemma record_lookup_absent (l : list (string * V)) (acc : gmap string V) k :
  (forall v, (k, v) ∉ l) -> recordOf l acc !! k = acc !! k.
Proof.
  revert acc. induction l as [| [k0 v0] l IH]; intros acc Hk; [done |].
  change (recordOf ((k0, v0) :: l) acc) with (recordOf l (<[k0 := v0]> acc)).
  rewrite IH.
  - apply lookup_insert_ne. intros ->. apply (Hk v0). left.
  - intros v Hv. apply (Hk v). by right.
Qed.

Lemma record_lookup_present (l : list (string * V)) (acc : gmap string V) k v :
  (forall v', (k, v') ∈ l -> v' = v) -> (k, v) ∈ l ->
  recordOf l acc !! k = Some v.
Proof.
  revert acc. induction l as [| [k0 v0] l IH]; intros acc Hall Hin.
  - by apply elem_of_nil in Hin.
  - change (recordOf ((k0, v0) :: l) acc) with (recordOf l (<[k0 := v0]> acc)).
    destruct (decide (k ∈ l.*1)) as [Hk | Hk].
    + apply list_elem_of_fmap in Hk as ([k' v'] & -> & Hkv). cbn in *.
      assert (v' = v) as -> by (apply Hall; by right).
      apply IH; [| done]. intros v'' Hv''. apply Hall. by right.
    + assert (forall v', (k, v') ∉ l) as Habsent.
      { intros v' Hv'. apply Hk. apply list_elem_of_fmap.
        by exists (k, v'). }
      apply elem_of_cons in Hin as [[= <- <-] | Hin]; [| by apply Habsent in Hin].
      rewrite record_lookup_absent by done. apply lookup_insert_eq.
Qed.

End FoldInsert.

Lemma elem_of_allSlots (m : Manager) (r : TMRef) :
  r ∈ allSlots m <-> exists p q, slot m p q = Some r.
Proof.
  unfold allSlots, slot. rewrite elem_of_concat_fmap. split.
  - intros (e & He & Hr).
    apply list_elem_of_fmap in He as ([p e'] & -> & Hpe).
    apply list_elem_of_fmap in Hr as ([q r'] & -> & Hqr).
    apply elem_of_map_to_list in Hpe. apply elem_of_map_to_list in Hqr.
    exists p, q. cbn in *. by rewrite Hpe.
  - intros (p & q & Hslot).
    destruct (transpiledModules m !! p) as [e |] eqn:He; [| discriminate].
    cbn in Hslot. exists e. split.
    + apply list_elem_of_fmap. exists (p, e). split; [done |].
      by apply elem_of_map_to_list.
    + apply list_elem_of_fmap. exists (q, r). split; [done |].
      by apply elem_of_map_to_list.
Qed.

Lemma record_lookup_from {V} (l : list (string * V)) k v :
  recordOf l ∅ !! k = Some v -> (k, v) ∈ l.
Proof.
  assert (forall acc, recordOf l acc !! k = Some v ->
                      (k, v) ∈ l \/ acc !! k = Some v) as Hgen.
  { induction l as [| [k0 v0] l IH]; intros acc Hk; [by right |].
    change (recordOf ((k0, v0) :: l) acc)
      with (recordOf l (<[k0 := v0]> acc)) in Hk.
    destruct (IH _ Hk) as [Hin | Hacc]; [left; by right |].
    destruct (decide (k0 = k)) as [-> | Hne].
    - rewrite lookup_insert_eq in Hacc. injection Hacc as ->. left. by left.
    - rewrite lookup_insert_ne in Hacc by done. by right. }
  intros Hk. destruct (Hgen _ Hk) as [Hin | Hempty]; [done |].
  by rewrite lookup_empty in Hempty.
Qed.

(** C5 (as amended). [serialize] leaves a registered transpiled module out
    of the persisted [transpiledModules] record exactly when the manifest
    provides the content for its module path, the module was not
    downloaded, and the module carries its [requires] or is no [.js] file;
    every other registered transpiled module is in the record under its id,
    with the value its own [serialize] produced, and the record holds
    nothing else.  (The module paths and the ids are plain keys, and ids
    tell the registered transpiled modules apart.) *)
Theorem serialize_persists_all_but_left_out
    (entryPath : option string) (optimizeForSize : bool) (timestamp : nat)
    (w : World) (mf : Manifest) :
  manifest (mgr w) = Some mf ->
  (forall p q r, slot (mgr w) p q = Some r ->
     JsObject.plainKey (path (tm_module (deref (mgr w) r))) /\
     JsObject.plainKey (getId (deref (mgr w) r))) ->
  (forall p1 q1 r1 p2 q2 r2,
     slot (mgr w) p1 q1 = Some r1 -> slot (mgr w) p2 q2 = Some r2 ->
     getId (deref (mgr w) r1) = getId (deref (mgr w) r2) -> r1 = r2) ->
  exists w' c,
    serialize entryPath optimizeForSize timestamp w = (w', Return c) /\
    mgr w' = mgr w /\
    (forall p q r, slot (mgr w) p q = Some r ->
       c_transpiledModules c !! getId (deref (mgr w) r)
       = if leftOut mf (deref (mgr w) r) then None
         else Some (tm_serialize optimizeForSize r (mgr w))) /\
    (forall id s, c_transpiledModules c !! id = Some s ->
       exists p q r,
         slot (mgr w) p q = Some r /\
         id = getId (deref (mgr w) r) /\
         leftOut mf (deref (mgr w) r) = false /\
         s = tm_serialize optimizeForSize r (mgr w)).
Proof.
  intros Hmf _ Hinj.
  destruct (serializeSlots_run optimizeForSize mf (allSlots (mgr w)) w Hmf)
    as [tr Hsaved].
  unfold serialize, bind, get, ret. cbn. rewrite Hsaved. cbn.
  eexists _, _. split; [reflexivity |]. split; [reflexivity |].
  cbn [c_transpiledModules].
  set (l := concat (savedEntries optimizeForSize mf (mgr w)
                      <$> allSlots (mgr w))).
  assert (Hfrom : forall k v, (k, v) ∈ l ->
            exists p q r', slot (mgr w) p q = Some r' /\
                       notPrecomputed mf (deref (mgr w) r') = true /\
                       k = getId (deref (mgr w) r') /\
                       v = tm_serialize optimizeForSize r' (mgr w)).
  { intros k v Hkv. apply elem_of_concat_fmap in Hkv as (r' & Hr' & Hkv).
    apply elem_of_allSlots in Hr' as (p & q & Hslot).
    unfold savedEntries in Hkv.
    destruct (notPrecomputed mf (deref (mgr w) r')) eqn:Hsave.
    - apply list_elem_of_singleton in Hkv as [= -> ->]. eauto 8.
    - by apply elem_of_nil in Hkv. }
  split.
  - intros p q r Hslot. rewrite leftOut_not_saved.
    destruct (notPrecomputed mf (deref (mgr w) r)) eqn:Hsave; cbn.
    + apply record_lookup_present.
      * intros v' (p' & q' & r' & Hr' & _ & Hid & ->)%Hfrom.
        by rewrite (Hinj _ _ _ _ _ _ Hslot Hr' Hid).
      * apply elem_of_concat_fmap. exists r. split.
        -- apply elem_of_allSlots. eauto.
        -- unfold savedEntries. rewrite Hsave. by left.
    + rewrite record_lookup_absent; [done |].
      intros v (p' & q' & r' & Hr' & Hsave' & Hid & _)%Hfrom.
      rewrite (Hinj _ _ _ _ _ _ Hslot Hr' Hid) in Hsave. congruence.
  - intros id s Hid. apply record_lookup_from in Hid.
    apply Hfrom in Hid as (p & q & r & Hslot & Hsave & -> & ->).
    exists p, q, r. rewrite leftOut_not_saved, Hsave. done.
Qed.

(** *** Resolving twice *)



(** Aliasing and shimming read the manifest and nothing else. *)
Lemma shimmedPathOf_run p cp w :
  exists o,
    shimmedPathOf p cp w = (w, o) /\
    forall w2, manifest (mgr w2) = manifest (mgr w) ->
               shimmedPathOf p cp w2 = (w2, o).
Proof.
  unfold shimmedPathOf, getAliasedDependencyPath, bind, get, ret, throw.
  destruct (negb (Js.looks_like_dependency (getPresetAliasedPath p)));
    [eexists; split; [reflexivity | intros w2 _; reflexivity] |].
  destruct (negb (Js.startsWith cp "/node_modules"));
    [eexists; split; [reflexivity | intros w2 _; reflexivity] |].
  cbn. destruct (manifest (mgr w)) as [mf |] eqn:Hmf.
  - destruct (dependencyAliases mf !! _ ≫= _) as [a |] eqn:Halias.
    + destruct (Js.truthy a) eqn:Ha;
        (eexists; split; [reflexivity |]; intros w2 ->; cbn;
         rewrite Halias, ?Ha; reflexivity).
    + eexists; split; [reflexivity |]. intros w2 ->. cbn.
      rewrite Halias. reflexivity.
  - eexists; split; [reflexivity |]. intros w2 ->. reflexivity.
Qed.







(** *** Failed resolutions *)

Lemma startsWith_indexOf s pre :
  Js.startsWith s pre = true <-> Js.indexOf s pre = Some 0.
Proof.
  unfold Js.startsWith, Js.indexOf. split.
  - intros H. destruct s; cbn.
    + destruct pre; [reflexivity | discriminate].
    + cbn in H. rewrite H. reflexivity.
  - intros H. destruct s.
    + destruct pre; [reflexivity | discriminate].
    + cbn [String.index] in H.
      destruct (String.prefix pre (String a s)) eqn:Hp; [reflexivity |].
      destruct (String.index 0 pre s); discriminate.
Qed.

Lemma knownToManifest_test mf name :
  existsb (fun d => String.eqb (dep_name d) name) (dependencies mf)
  || bool_decide (is_Some (dependencyDependencies mf !! name)) = true
  <-> knownToManifest mf name.
Proof.
  unfold knownToManifest.
  rewrite orb_true_iff, existsb_exists, bool_decide_eq_true.
  split; (intros [(d & Hd & Hn) | H]; [left | by right]); exists d.
  - apply list_elem_of_In in Hd. by apply String.eqb_eq in Hn.
  - split; [by apply list_elem_of_In | by apply String.eqb_eq].
Qed.

(** The [catch] block: the error it raises and the cache it leaves. *)
Lemma resolutionFailed_run {A} shimmed cp d p w w' (o : Outcome A) mf :
  manifest (mgr w) = Some mf ->
  resolutionFailed shimmed cp d p w = (w', o) ->
  (exists e, o = Throw e /\ ResolutionError mf shimmed cp e) /\
  truthyCached (cachedPath_of (mgr w') d p) = None /\
  transpiledModules (mgr w') = transpiledModules (mgr w).
Proof.
  intros Hmf Hrun. unfold resolutionFailed in Hrun.
  unfold bind at 1 in Hrun. cbn [get mgr] in Hrun.
  unfold bind at 1 in Hrun.
  set (purge := match cachedPath_of (mgr w) d p with
                | Some v => if Js.truthy v
                            then modify (set_cachedPaths (alter (delete p) d))
                            else ret tt
                | None => ret tt
                end) in Hrun.
  destruct (purge w) as [w0 [[] | e0]] eqn:Hpurge.
  2: { subst purge. destruct (cachedPath_of (mgr w) d p) as [v |];
       [destruct (Js.truthy v) |]; discriminate. }
  assert (Hw0 : truthyCached (cachedPath_of (mgr w0) d p) = None /\
                transpiledModules (mgr w0) = transpiledModules (mgr w) /\
                manifest (mgr w0) = Some mf).
  { subst purge. destruct (cachedPath_of (mgr w) d p) as [v |] eqn:Hc.
    - destruct (Js.truthy v) eqn:Hv.
      + injection Hpurge as <-. cbn. split; [| done].
        unfold cachedPath_of. cbn. rewrite lookup_alter_eq.
        destruct (cachedPaths (mgr w) !! d); cbn; [| done].
        by rewrite lookup_delete_eq.
      + injection Hpurge as <-. rewrite Hc. cbn. by rewrite Hv.
    - injection Hpurge as <-. by rewrite Hc. }
  destruct Hw0 as (Hcache & Htms & Hmf0).
  assert (Hconn :
    (if decide (Js.indexOf shimmed "/node_modules" = Some 0) then shimmed
     else if Js.looks_like_dependency shimmed
          then join "/node_modules" shimmed
          else join (dirname cp) shimmed) = connectedPathOf shimmed cp).
  { unfold connectedPathOf. destruct (decide _) as [Hi | Hi].
    - by rewrite (proj2 (startsWith_indexOf _ _) Hi).
    - destruct (Js.startsWith shimmed "/node_modules") eqn:Hs; [| done].
      by apply startsWith_indexOf in Hs. }
  rewrite Hconn in Hrun.
  destruct (Js.includes (connectedPathOf shimmed cp) "/node_modules/")
    eqn:Hdep; cbn in Hrun.
  - unfold bind, get, throw in Hrun. cbn in Hrun. rewrite Hmf0 in Hrun.
    match type of Hrun with
    | context [if ?b then _ else _] => destruct b eqn:Hknown
    end; injection Hrun as <- <-; (split; [| done]); eexists; (split; [done |]).
    + eapply KnownDependencyFile; [done | done |].
      by apply knownToManifest_test.
    + eapply UnknownDependency; [done | done |].
      intros Hk. apply knownToManifest_test in Hk. congruence.
  - injection Hrun as <- <-. split; [| done]. eexists. split; [done |].
    by apply LocalFile.
Qed.

Lemma shimmedPathOf_total p cp w mf :
  manifest (mgr w) = Some mf ->
  exists shimmed, shimmedPathOf p cp w = (w, Return shimmed).
Proof.
  intros Hmf.
  unfold shimmedPathOf, getAliasedDependencyPath, bind, get, ret, throw.
  destruct (negb (Js.looks_like_dependency (getPresetAliasedPath p)));
    [eauto |].
  destruct (negb (Js.startsWith cp "/node_modules")); [eauto |].
  cbn. rewrite Hmf.
  destruct (dependencyAliases mf !! _ ≫= _) as [a |]; [| eauto].
  destruct (Js.truthy a); eauto.
Qed.

Lemma resolveModule_unfold p cp exts w :
  resolveModule p cp exts w
  = match cacheHit (mgr (ensured (dirname cp) w))
                   (cachedPath_of (mgr (ensured (dirname cp) w)) (dirname cp) p)
    with
    | Some rp => moduleAt cp p rp (ensured (dirname cp) w)
    | None => resolveFresh p cp exts (dirname cp) (ensured (dirname cp) w)
    end.
Proof.
  unfold resolveModule, ensured, ensureCacheDir, modify, get.
  unfold bind at 1 2. cbn [fst mgr trace].
  by destruct (cacheHit _ _).
Qed.

Lemma resolveModuleAsync_unfold p cp exts w :
  resolveModuleAsync p cp exts w
  = match truthyCached
            (cachedPath_of (mgr (ensured (dirname cp) w)) (dirname cp) p)
    with
    | Some rp => storedModule rp (ensured (dirname cp) w)
    | None => resolveFreshAsync p cp exts (dirname cp) (ensured (dirname cp) w)
    end.
Proof.
  unfold resolveModuleAsync, ensured, ensureCacheDir, modify, get.
  unfold bind at 1 2. cbn [fst mgr trace].
  by destruct (truthyCached _).
Qed.

Lemma ensured_cachedPath d p w :
  cachedPath_of (mgr (ensured d w)) d p = cachedPath_of (mgr w) d p.
Proof.
  unfold cachedPath_of, ensured. cbn.
  destruct (cachedPaths (mgr w) !! d) eqn:Hd; [by rewrite Hd |].
  by rewrite lookup_insert_eq.
Qed.

(** The [try] blocks leave the manifest and (when they fail) the module
    store alone; the synchronous one completes only with the shim or with a
    stored path, the asynchronous one cannot fail past the resolver. *)
Lemma resolveAttempt_run shimmed p cp exts d w w' o :
  resolveAttempt shimmed p cp exts d w = (w', o) ->
  manifest (mgr w') = manifest (mgr w) /\
  transpiledModules (mgr w') = transpiledModules (mgr w) /\
  match o with
  | Return (inl sm) => True
  | Return (inr rp) =>
      String.eqb rp EMPTY_SENTINEL = false /\
      is_Some (transpiledModules (mgr w) !! rp)
  | Throw _ => True
  end.
Proof.
  unfold resolveAttempt, bind, emit, get, ret, throw. cbn.
  destruct (browserResolve shimmed _) as [v |]; [| by intros [= <- <-]].
  cbn. destruct (String.eqb v EMPTY_SENTINEL) eqn:Hsent;
    [by intros [= <- <-] |].
  cbn. destruct (transpiledModules (mgr w) !! v) as [en |] eqn:Hen.
  - rewrite bool_decide_eq_true_2 by eauto. intros [= <- <-]. cbn. eauto.
  - rewrite bool_decide_eq_false_2 by (by intros [? ?]).
    by intros [= <- <-].
Qed.

Lemma resolveAttemptAsync_run shimmed p cp exts d w w' o :
  resolveAttemptAsync shimmed p cp exts d w = (w', o) ->
  match o with
  | Return _ => True
  | Throw _ => manifest (mgr w') = manifest (mgr w)
  end.
Proof.
  unfold resolveAttemptAsync, bind, emit, get, ret, throw. cbn.
  destruct (browserResolve shimmed _) as [v |]; [| by intros [= <- <-]].
  cbn. destruct (String.eqb v EMPTY_SENTINEL) eqn:Hsent;
    [by intros [= <- <-] |].
  cbn. destruct (transpiledModules (mgr w) !! v) as [en |] eqn:Hen.
  - rewrite bool_decide_eq_true_2 by eauto.
    unfold storedModule, bind, get, ret. cbn. rewrite Hen.
    by intros [= <- <-].
  - rewrite bool_decide_eq_false_2 by (by intros [? ?]).
    unfold addModule, storedModule, modify, bind, get, ret. cbn.
    rewrite Hen, lookup_insert_eq. by intros [= <- <-].
Qed.

Lemma resolveFresh_Throw p cp exts d w w' e mf :
  manifest (mgr w) = Some mf ->
  resolveFresh p cp exts d w = (w', Throw e) ->
  exists shimmed,
    shimmedPathOf p cp w = (w, Return shimmed) /\
    ResolutionError mf shimmed cp e /\
    truthyCached (cachedPath_of (mgr w') d p) = None.
Proof.
  intros Hmf Hrun.
  destruct (shimmedPathOf_total p cp w mf Hmf) as [shimmed Hshim].
  exists shimmed. split; [exact Hshim |].
  unfold resolveFresh in Hrun. unfold bind at 1 in Hrun.
  rewrite Hshim in Hrun.
  destruct (in_NODE_LIBS shimmed); [discriminate |].
  apply bind_inv in Hrun as (w2 & o2 & Htry & Hrun).
  apply try_catch_inv in Htry as (w3 & o3 & Hbody & Htry).
  apply resolveAttempt_run in Hbody as (Hmf3 & Htms3 & Hvalue).
  destruct o3 as [r | e0].
  - (* the [try] block completed: the value is the shim or a stored module *)
    exfalso. destruct Htry as [<- ->].
    destruct r as [sm | rp]; [discriminate |].
    destruct Hvalue as [Hsent [en Hen]].
    unfold moduleAt, storedModule, bind, get, ret in Hrun.
    rewrite Hsent in Hrun. cbn in Hrun. rewrite Htms3, Hen in Hrun.
    discriminate.
  - (* the [catch] block *)
    rewrite Hmf in Hmf3.
    destruct (resolutionFailed_run _ _ _ _ _ _ _ _ Hmf3 Htry)
      as ((e' & -> & Herr) & Hcache & _).
    destruct Hrun as [<- [= <-]]. done.
Qed.

Lemma resolveFreshAsync_Throw p cp exts d w w' e mf :
  manifest (mgr w) = Some mf ->
  resolveFreshAsync p cp exts d w = (w', Throw e) ->
  exists shimmed,
    shimmedPathOf p cp w = (w, Return shimmed) /\
    ResolutionError mf shimmed cp e /\
    truthyCached (cachedPath_of (mgr w') d p) = None.
Proof.
  intros Hmf Hrun.
  destruct (shimmedPathOf_total p cp w mf Hmf) as [shimmed Hshim].
  exists shimmed. split; [exact Hshim |].
  unfold resolveFreshAsync in Hrun. unfold bind at 1 in Hrun.
  rewrite Hshim in Hrun.
  destruct (in_NODE_LIBS shimmed); [discriminate |].
  apply try_catch_inv in Hrun as (w3 & o3 & Hbody & Hrun).
  apply resolveAttemptAsync_run in Hbody.
  destruct o3 as [r | e0]; [by destruct Hrun |].
  rewrite Hmf in Hbody.
  destruct (resolutionFailed_run _ _ _ _ _ _ _ _ Hbody Hrun)
    as ((e' & [= <-] & Herr) & Hcache & _).
  done.
Qed.

(** X1. The synchronous resolver, asked with plain keys, fails in the
    three prescribed ways only, and a failed lookup leaves no usable cache
    entry behind. *)
Lemma resolveModule_failure
    (p currentPath : string) (exts : list string) (w w' : World) (e : Exn)
    (mf : Manifest) :
  plainLookups p currentPath exts w ->
  manifest (mgr w) = Some mf ->
  resolveModule p currentPath exts w = (w', Throw e) ->
  exists shimmed,
    shimmedPathOf p currentPath w = (w, Return shimmed) /\
    ResolutionError mf shimmed currentPath e /\
    truthyCached (cachedPath_of (mgr w') (dirname currentPath) p) = None.
Proof.
  intros _ Hmf Hrun. rewrite resolveModule_unfold in Hrun.
  set (d := dirname currentPath) in *.
  assert (Hmf0 : manifest (mgr (ensured d w)) = Some mf) by exact Hmf.
  set (w0 := ensured d w) in *. clearbody w0.
  destruct (cacheHit (mgr w0) (cachedPath_of (mgr w0) d p)) as [rp |] eqn:Hhit.
  - (* a cache hit cannot fail: the path is stored *)
    exfalso. unfold cacheHit in Hhit.
    destruct (cachedPath_of (mgr w0) d p) as [c |]; [| discriminate].
    destruct (Js.truthy c && _) eqn:Hok; [| discriminate].
    injection Hhit as ->. apply andb_true_iff in Hok as [_ Hst].
    apply bool_decide_eq_true in Hst as [en Hen].
    unfold moduleAt, storedModule, bind, get, ret in Hrun.
    destruct (String.eqb rp EMPTY_SENTINEL); [discriminate |].
    cbn in Hrun. rewrite Hen in Hrun. discriminate.
  - apply (resolveFresh_Throw _ _ _ _ _ _ _ mf Hmf0) in Hrun
      as (shimmed & Hshim & Herr & Hcache).
    exists shimmed. split; [| done].
    destruct (shimmedPathOf_run p currentPath w0) as (o & Ho & Hsame).
    rewrite Ho in Hshim. injection Hshim as ->. apply Hsame. congruence.
Qed.

(** X2. The asynchronous resolver, asked with plain keys, fails either in
    one of the three prescribed ways, with the cache entry purged, or on a
    truthy cached path under which nothing is stored, with a [TypeError]
    and the cache entry kept.  (The promise is settled within the call:
    there is no host-side file resolver to wait for.) *)
Lemma resolveModuleAsync_failure
    (p currentPath : string) (exts : list string) (w w' : World) (e : Exn)
    (mf : Manifest) :
  plainLookups p currentPath exts w ->
  manifest (mgr w) = Some mf ->
  resolveModuleAsync p currentPath exts w = (w', Throw e) ->
  (exists c,
     cachedPath_of (mgr w) (dirname currentPath) p = Some c /\
     Js.truthy c = true /\
     transpiledModules (mgr w) !! c = None /\
     e = TypeError "Cannot read property 'module' of undefined" /\
     cachedPath_of (mgr w') (dirname currentPath) p = Some c)
  \/
  (exists shimmed,
     shimmedPathOf p currentPath w = (w, Return shimmed) /\
     ResolutionError mf shimmed currentPath e /\
     truthyCached (cachedPath_of (mgr w') (dirname currentPath) p) = None).
Proof.
  intros _ Hmf Hrun. rewrite resolveModuleAsync_unfold in Hrun.
  set (d := dirname currentPath) in *.
  assert (Hmf0 : manifest (mgr (ensured d w)) = Some mf) by exact Hmf.
  assert (Htms0 : transpiledModules (mgr (ensured d w))
                  = transpiledModules (mgr w)) by reflexivity.
  pose proof (ensured_cachedPath d p w) as Hcache0.
  set (w0 := ensured d w) in *. clearbody w0.
  destruct (truthyCached (cachedPath_of (mgr w0) d p)) as [c |] eqn:Hhit.
  - left. unfold truthyCached in Hhit.
    destruct (cachedPath_of (mgr w0) d p) as [c' |] eqn:Hc; [| discriminate].
    destruct (Js.truthy c') eqn:Htruthy; [| discriminate].
    injection Hhit as ->. exists c.
    unfold storedModule, bind, get, ret, throw in Hrun. cbn in Hrun.
    rewrite Htms0 in Hrun.
    destruct (transpiledModules (mgr w) !! c) eqn:Hst; [discriminate |].
    injection Hrun as <- <-. rewrite Hc. done.
  - right.
    apply (resolveFreshAsync_Throw _ _ _ _ _ _ _ mf Hmf0) in Hrun
      as (shimmed & Hshim & Herr & Hcache).
    exists shimmed. split; [| done].
    destruct (shimmedPathOf_run p currentPath w0) as (o & Ho & Hsame).
    rewrite Ho in Hshim. injection Hshim as ->. apply Hsame. congruence.
Qed.

(** *** Where the two resolvers agree *)

Lemma cacheHit_truthyCached m c :
  truthyCached c = None -> cacheHit m c = None.
Proof.
  unfold truthyCached, cacheHit. destruct c as [v |]; [| done].
  by destruct (Js.truthy v).
Qed.

Lemma bind_run {A B} (c : M A) (k : A -> M B) w w1 o :
  c w = (w1, o) ->
  bind c k w = match o with
               | Return a => k a w1
               | Throw e => (w1, Throw e)
               end.
Proof. intros H. unfold bind. rewrite H. by destruct o. Qed.

(** The [catch] block does the same whatever the type of the method's
    result. *)
Lemma resolutionFailed_uniform shimmed cp d p w :
  exists w' e,
    forall A, @resolutionFailed _ A shimmed cp d p w = (w', Throw e).
Proof.
  unfold resolutionFailed, bind, get, ret, throw, modify. cbn.
  destruct (cachedPath_of (mgr w) d p) as [v |]; cbn;
    [destruct (Js.truthy v); cbn |];
    repeat (match goal with
            | |- context [if ?b then _ else _] => destruct b
            | |- context [match manifest ?m with _ => _ end] =>
                destruct (manifest m)
            end; cbn);
    eexists _, _; intros A; reflexivity.
Qed.

(** Both [try] blocks, run side by side. *)
Lemma resolveAttempts_run shimmed p cp exts d w :
  let wE := mkWorld (mgr w) (trace w ++ [EvResolve shimmed cp]) in
  match browserResolve shimmed (resolveOpts (mgr w) cp exts) with
  | None =>
      resolveAttempt shimmed p cp exts d w
        = (wE, Throw (Foreign "Cannot find module")) /\
      resolveAttemptAsync shimmed p cp exts d w
        = (wE, Throw (Foreign "Cannot find module"))
  | Some v =>
      let wC := mkWorld (set_cachedPaths (alter (fun c => <[p := v]> c) d)
                                         (mgr w))
                        (trace wE) in
      if String.eqb v EMPTY_SENTINEL
      then resolveAttempt shimmed p cp exts d w
             = (wC, Return (inl (getShimmedModuleFromPath cp p))) /\
           resolveAttemptAsync shimmed p cp exts d w
             = (wC, Return (getShimmedModuleFromPath cp p))
      else
        match transpiledModules (mgr w) !! v with
        | Some en =>
            resolveAttempt shimmed p cp exts d w = (wC, Return (inr v)) /\
            resolveAttemptAsync shimmed p cp exts d w
              = (wC, Return (entry_module en))
        | None => True
        end
  end.
Proof.
  unfold resolveAttempt, resolveAttemptAsync, bind, emit, get, ret, throw.
  cbn.
  destruct (browserResolve shimmed _) as [v |]; [| done].
  cbn. destruct (String.eqb v EMPTY_SENTINEL); [done |].
  cbn. destruct (transpiledModules (mgr w) !! v) as [en |] eqn:Hen; [| done].
  rewrite bool_decide_eq_true_2 by eauto.
  unfold storedModule, bind, get, ret. cbn. by rewrite Hen.
Qed.

(** X3. Asked with plain keys, without a usable cache entry, and with a
    resolver that only finds stored files or the sentinel, the two siblings
    do the same thing.  (The promise of the asynchronous one is settled
    within the call: there is no host-side file resolver to wait for.) *)
Lemma resolve_siblings_agree
    (p currentPath : string) (exts : list string) (w : World) :
  plainLookups p currentPath exts w ->
  truthyCached (cachedPath_of (mgr w) (dirname currentPath) p) = None ->
  (forall shimmed v,
     browserResolve shimmed (resolveOpts (mgr w) currentPath exts) = Some v ->
     v = EMPTY_SENTINEL \/ is_Some (transpiledModules (mgr w) !! v)) ->
  resolveModuleAsync p currentPath exts w = resolveModule p currentPath exts w.
Proof.
  intros _ Hcache Hfound.
  rewrite resolveModule_unfold, resolveModuleAsync_unfold.
  rewrite ensured_cachedPath, Hcache.
  rewrite (cacheHit_truthyCached _ _ Hcache).
  assert (Hopts : resolveOpts (mgr (ensured (dirname currentPath) w))
                              currentPath exts
                  = resolveOpts (mgr w) currentPath exts) by reflexivity.
  assert (Htms : transpiledModules (mgr (ensured (dirname currentPath) w))
                 = transpiledModules (mgr w)) by reflexivity.
  set (d := dirname currentPath) in *.
  set (w0 := ensured d w) in *. clearbody w0.
  destruct (shimmedPathOf_run p currentPath w0) as (o & Ho & _).
  unfold resolveFreshAsync, resolveFresh.
  rewrite !(bind_run _ _ _ _ _ Ho).
  destruct o as [shimmed | e]; [| reflexivity].
  destruct (in_NODE_LIBS shimmed); [reflexivity |].
  pose proof (resolveAttempts_run shimmed p currentPath exts d w0) as Hatt.
  cbv zeta in Hatt. rewrite Hopts, Htms in Hatt.
  destruct (browserResolve shimmed (resolveOpts (mgr w) currentPath exts))
    as [v |] eqn:Hres.
  - destruct (String.eqb v EMPTY_SENTINEL) eqn:Hsent.
    + destruct Hatt as [Hsync Hasync].
      unfold try_catch at 1. rewrite Hasync.
      erewrite bind_run by (unfold try_catch; rewrite Hsync; reflexivity).
      reflexivity.
    + destruct (Hfound _ _ Hres) as [-> | [en Hen]]; [discriminate |].
      rewrite Hen in Hatt. destruct Hatt as [Hsync Hasync].
      unfold try_catch at 1. rewrite Hasync.
      erewrite bind_run by (unfold try_catch; rewrite Hsync; reflexivity).
      unfold moduleAt, storedModule, bind, get, ret. rewrite Hsent.
      cbn [mgr transpiledModules set_cachedPaths]. by rewrite Htms, Hen.
  - destruct Hatt as [Hsync Hasync].
    unfold try_catch at 1. rewrite Hasync.
    destruct (resolutionFailed_uniform shimmed currentPath d p
                {| mgr := mgr w0;
                   trace := trace w0 ++ [EvResolve shimmed currentPath] |})
      as (w4 & e & Hfail).
    rewrite Hfail.
    erewrite bind_run
      by (unfold try_catch; rewrite Hsync; apply Hfail).
    reflexivity.
Qed.

End Properties.

(** ** Concrete runs *)

Section Runs.
#[local] Existing Instance Sample.collaborators.

(** C1 (defect). The first asynchronous resolution of the Node library
    ['fs'] yields the empty shim and caches ['fs'].  The second one takes the
    cached path for a stored module and fails with a [TypeError], which is
    none of the three resolution errors, and the cache entry stays. *)
Theorem resolveModuleAsync_cached_shim_fails :
  Sample.run (resolveModuleAsync "fs" "/index.js" ["js"]) m0
    = (afterFs, Return (shimFor "fs")) /\
  resolveModuleAsync "fs" "/index.js" ["js"] afterFs
    = (afterFs,
       Throw (TypeError "Cannot read property 'module' of undefined")) /\
  cachedPath_of (mgr afterFs) "/" "fs" = Some "fs".
Proof. split_and!; vm_compute; reflexivity. Qed.

(** C2 (defect). From one and the same manager state, the synchronous
    resolver answers ['fs'] with the empty shim while the asynchronous one
    fails with a [TypeError]. *)
Theorem resolve_siblings_disagree :
  (resolveModule "fs" "/index.js" ["js"] afterFs).2
    = Return (shimFor "fs") /\
  (resolveModuleAsync "fs" "/index.js" ["js"] afterFs).2
    = Throw (TypeError "Cannot read property 'module' of undefined").
Proof. split; vm_compute; reflexivity. Qed.

(** C3 (counterexample). ['lodash'] is neither in the store nor in the
    manifest: resolution fails with [DependencyNotFoundError], and
    [resolveTranspiledModuleAsync] hands that error to its caller without
    fetching anything. *)
Lemma dependency_not_found_is_not_fetched :
  exists w',
    resolveTranspiledModuleAsync "lodash" (Some 0) None (withIndexTM m0)
      = (w', Throw (DependencyNotFoundError "lodash" "/index.js")) /\
    trace w' = [EvResolve "lodash" "/index.js"].
Proof. eexists. split; vm_compute; reflexivity. Qed.

Lemma resolveTranspiledModuleAsync_recovery_witness :
  resolveTranspiledModule "lodash"
      (path (tm_module (deref (mgr (withIndexTM m0_lodash)) 0))) None false
      (withIndexTM m0_lodash)
    = (lodashMissing, Throw (ModuleNotFoundError "lodash" true "/index.js")) /\
  resolveTranspiledModuleAsync "lodash" (Some 0) None (withIndexTM m0_lodash)
    = downloadDependency "lodash" 0 (splitQueryFromPath "lodash").1 None
                         lodashMissing.
Proof.
  assert (Hmiss :
    resolveTranspiledModule "lodash"
        (path (tm_module (deref (mgr (withIndexTM m0_lodash)) 0))) None false
        (withIndexTM m0_lodash)
    = (lodashMissing, Throw (ModuleNotFoundError "lodash" true "/index.js"))).
  { vm_compute. reflexivity. }
  split; [exact Hmiss |].
  exact (resolveTranspiledModuleAsync_recovery
           "lodash" 0 None (withIndexTM m0_lodash) lodashMissing
           (Throw (ModuleNotFoundError "lodash" true "/index.js")) Hmiss).
Defined.

Lemma load_discards_mismatch_witness :
  (c_version staleCache <> SCRIPT_VERSION \/
   c_dependenciesQuery staleCache <> getDependencyQuery m0) /\
  load (Some staleCache) (mkWorld m0 [])
  = (mkWorld m0 [EvClearIndexedDBCache; EvClearIndexedDBCache], Return tt).
Proof.
  assert (Hmis : c_version staleCache <> SCRIPT_VERSION \/
                 c_dependenciesQuery staleCache
                 <> getDependencyQuery (mgr (mkWorld m0 []))).
  { left. vm_compute. discriminate. }
  split; [exact Hmis |].
  exact (load_discards_mismatch staleCache (mkWorld m0 []) Hmis).
Defined.

Lemma resolveTranspiledModule_webpack_throws_witness :
  Js.startsWith "webpack:///src/index.js" "webpack:" = true /\
  resolveTranspiledModule "webpack:///src/index.js" "/index.js" None true
                          (mkWorld m0 [])
  = (mkWorld m0 [], Throw (JsError "Cannot resolve webpack path")).
Proof.
  split; [reflexivity |].
  apply (resolveTranspiledModule_webpack_throws
           "webpack:///src/index.js" "/index.js" None true (mkWorld m0 [])).
  reflexivity.
Defined.

(** C8 (counterexample). On the first load a pending hard reload is not
    carried out: the page is not reloaded and the entry is evaluated. *)
Lemma evaluateModule_first_load_ignores_hard_reload :
  let w := (Sample.run markHardReload m0).1 in
  hardReload (mgr w) = true /\
  exists w',
    evaluateModule indexModule false false w
      = (w', Return "module.exports = require('./dep') + 1") /\
    trace w' = [EvHmrStatus Fail; EvEvaluate 0; EvHmrStatus Idle;
                EvPostEvaluate 0].
Proof.
  split; [reflexivity |]. eexists. split; vm_compute; reflexivity.
Qed.

Lemma evaluateModule_hard_reload_witness :
  hardReload (mgr reloadPending) = true /\
  isFirstLoad (mgr reloadPending) = false /\
  evaluateModule indexModule false false reloadPending
  = (mkWorld (mgr reloadPending) [EvReload], Return "{}").
Proof.
  split; [reflexivity |]. split; [reflexivity |].
  apply (evaluateModule_hard_reload indexModule false false reloadPending);
    reflexivity.
Defined.

(** C6 (counterexample). [updateData] with the very modules the manager
    holds: nothing was added, updated or deleted, and the cache, empty
    before, is empty afterwards. *)
Lemma updateData_unchanged_has_empty_cache :
  moduleSetChanged m0 (modules m0) = false /\
  exists w',
    Sample.run (updateData (modules m0)) m0 = (w', Return []) /\
    cachedPaths (mgr w') = ∅.
Proof.
  split; [vm_compute; reflexivity |].
  eexists. split; vm_compute; reflexivity.
Qed.

Lemma sample_leavesCacheAlone : leavesCacheAlone.
Proof. split_and!; intros; reflexivity. Qed.

Lemma updateData_diff_cachedPaths_witness :
  leavesCacheAlone /\
  cachedPath_of (mgr afterDep) "/" "./dep" = Some "/dep.js" /\
  updateData_diff editedModules afterDep = (afterEdit, Return []) /\
  cachedPaths (mgr afterEdit)
  = if moduleSetChanged (mgr afterDep) editedModules then ∅
    else cachedPaths (mgr afterDep).
Proof.
  assert (Hrun : updateData_diff editedModules afterDep
                 = (afterEdit, Return [])).
  { vm_compute. reflexivity. }
  split; [exact sample_leavesCacheAlone |].
  split; [vm_compute; reflexivity |].
  split; [exact Hrun |].
  exact (updateData_diff_cachedPaths editedModules afterDep afterEdit []
           sample_leavesCacheAlone Hrun).
Defined.



Lemma withReact_slots p q r :
  slot (mgr withReact) p q = Some r ->
  (p = "/index.js" /\ q = "" /\ r = 0) \/
  (p = "/node_modules/react/index.js" /\ q = "" /\ r = 1).
Proof.
  intros Hslot.
  assert (r ∈ allSlots (mgr withReact)) as Hr
    by (apply elem_of_allSlots; eauto).
  unfold slot in Hslot.
  destruct (transpiledModules (mgr withReact) !! p) as [e |] eqn:He;
    [| discriminate].
  cbn in Hslot.
  assert ((p, e) ∈ map_to_list (transpiledModules (mgr withReact))) as Hpe
    by (by apply elem_of_map_to_list).
  assert ((q, r) ∈ map_to_list (tModules e)) as Hqr
    by (by apply elem_of_map_to_list).
  revert Hpe.
  assert (map_to_list (transpiledModules (mgr withReact))
          = [("/index.js", mkEntry indexModule {[ "" := 0 ]});
             ("/node_modules/react/index.js",
              mkEntry reactModule {[ "" := 1 ]})]) as ->
    by (vm_compute; reflexivity).
  intros [Hpe | [Hpe | Hpe%elem_of_nil]%elem_of_cons]%elem_of_cons;
    [| | done]; injection Hpe as -> ->; cbn in Hqr;
    rewrite map_to_list_singleton in Hqr;
    apply list_elem_of_singleton in Hqr as [= -> ->]; auto.
Qed.

Lemma serialize_persists_all_but_left_out_witness :
  manifest (mgr withReact) = Some reactManifest /\
  exists w' c,
    serialize None true 0 withReact = (w', Return c) /\
    mgr w' = mgr withReact /\
    (forall p q r, slot (mgr withReact) p q = Some r ->
       c_transpiledModules c !! getId (deref (mgr withReact) r)
       = if leftOut reactManifest (deref (mgr withReact) r) then None
         else Some (tm_serialize true r (mgr withReact))) /\
    (forall id s, c_transpiledModules c !! id = Some s ->
       exists p q r,
         slot (mgr withReact) p q = Some r /\
         id = getId (deref (mgr withReact) r) /\
         leftOut reactManifest (deref (mgr withReact) r) = false /\
         s = tm_serialize true r (mgr withReact)).
Proof.
  split; [reflexivity |].
  apply (serialize_persists_all_but_left_out None true 0 withReact
           reactManifest eq_refl).
  - intros p q r [(-> & -> & ->) | (-> & -> & ->)]%withReact_slots;
      split; vm_compute; reflexivity.
  - intros p1 q1 r1 p2 q2 r2
      [(-> & -> & ->) | (-> & -> & ->)]%withReact_slots
      [(-> & -> & ->) | (-> & -> & ->)]%withReact_slots Hid;
      try reflexivity; vm_compute in Hid; discriminate.
Defined.

(** An ES module of the manifest that still needs transpiling (it has no
    [requires]) and was not downloaded is registered, yet [serialize]
    leaves it out: it is no [.js] file. *)
Lemma serialize_omits_untranspiled_mjs :
  exists w' c r,
    slot (mgr withEsm) "/node_modules/esm/index.mjs" "" = Some r /\
    tm_module (deref (mgr withEsm) r) = esmModule /\
    manifest (mgr withEsm) = Some esmManifest /\
    precomputedBySpec esmManifest (deref (mgr withEsm) r) = false /\
    serialize None true 0 withEsm = (w', Return c) /\
    c_transpiledModules c !! getId (deref (mgr withEsm) r) = None /\
    is_Some (c_transpiledModules c !! "/index.js:").
Proof.
  eexists _, _, 1. split_and!; try (vm_compute; reflexivity).
  eexists. vm_compute. reflexivity.
Qed.

(** The record [serialize] builds for that manager: the project file is
    persisted, the precomputed one is not. *)
Example serialize_withReact :
  exists w' c,
    serialize None true 0 withReact = (w', Return c) /\
    trace w' = [EvSerialize 0] /\
    is_Some (c_transpiledModules c !! "/index.js:") /\
    c_transpiledModules c !! "/node_modules/react/index.js:" = None.
Proof.
  eexists _, _. split; [vm_compute; reflexivity |].
  split; [reflexivity |]. split; [| vm_compute; reflexivity].
  eexists. vm_compute. reflexivity.
Qed.

Lemma updateData_skips_test_files_witness :
  updateData bothEdited withTest = (afterBothEdited, Return [Some 0]) /\
  trace afterBothEdited
    = [EvUpdate 0; EvUpdate 1; EvResetTranspilation 1; EvTranspile 0] /\
  exists (w1 : World) (allModulesToUpdate : list TMRef),
    updateData_diff bothEdited withTest = (w1, Return allModulesToUpdate) /\
    trace afterBothEdited =
      trace w1
        ++ (EvResetTranspilation
              <$> filter (fun r => isTestFile (deref (mgr w1) r) = true)
                         allModulesToUpdate)
        ++ (EvTranspile <$> omap id [Some 0]) /\
    (forall r, Some r ∈ [Some 0] ->
               r ∈ allModulesToUpdate /\
               isTestFile (deref (mgr w1) r) = false).
Proof.
  assert (Hrun : updateData bothEdited withTest
                 = (afterBothEdited, Return [Some 0])).
  { vm_compute. reflexivity. }
  split; [exact Hrun |]. split; [vm_compute; reflexivity |].
  exact (updateData_skips_test_files bothEdited withTest afterBothEdited
           [Some 0] Hrun).
Defined.

(** A cache written by this version for this dependency set is restored:
    its transpiled module is registered under its hash. *)
Example load_matching_restores :
  let data :=
    mkCache {["/dep.js:" := mkSerialized depModule "" "module.exports = 41"]}
            ∅ "v1" 0 (mkConfigurations None None None) None (Some ∅) "" in
  exists w',
    load (Some data) (mkWorld m0 []) = (w', Return tt) /\
    transpiledModulesByHash (mgr w') !! "/dep.js:" = Some 0 /\
    source <$> heap (mgr w') !! 0 = Some (Some "module.exports = 41").
Proof. eexists. split_and!; vm_compute; reflexivity. Qed.

(** After a change, the retranspile pass resolves the requests of what it
    transpiles, so the cache [updateData] emptied has entries again when the
    call returns. *)
Example updateData_changed_cache_refilled :
  moduleSetChanged (mgr (withIndexTM m0)) indexEdited = true /\
  exists w',
    @updateData resolvingCollaborators indexEdited (withIndexTM m0)
      = (w', Return [Some 0]) /\
    cachedPath_of (mgr w') "/" "./dep" = Some "/dep.js".
Proof.
  split; [vm_compute; reflexivity |].
  eexists. split; vm_compute; reflexivity.
Qed.

(** The siblings also part on a file the resolver finds through the npm
    metadata but the store does not hold: the synchronous one reports the
    missing dependency, the asynchronous one stores the read error as the
    code of a new module and returns that module. *)
Example resolve_siblings_disagree_on_unfetched_file :
  (resolveModule "lodash" "/index.js" ["js"] withLodashMeta).2
    = Throw (DependencyNotFoundError "lodash" "/index.js") /\
  (resolveModuleAsync "lodash" "/index.js" ["js"] withLodashMeta).2
    = Return (Sample.src "/node_modules/lodash/index.js"
                "Error: Could not find /node_modules/lodash/index.js").
Proof. split; vm_compute; reflexivity. Qed.

End Runs.

(** ** Further properties of the class *)

Section MoreProperties.
Context `{C : Collaborators} `{D : MoreCollaborators}.

(** *** Plain keys *)

(** No member of [Object.prototype] has a name that starts with a slash:
    absolute paths are plain keys. *)
Lemma absolute_plainKey k : Js.startsWith k "/" = true -> JsObject.plainKey k.
Proof.
  unfold Js.startsWith. destruct k as [| a k]; [discriminate |].
  cbn [String.prefix].
  destruct (ascii_dec "/" a) as [<- |]; [| discriminate]. intros _.
  reflexivity.
Qed.

Lemma absolutePaths_plainlyKeyed (m : Manager) :
  absolutePaths m -> plainlyKeyed (transpiledModules m).
Proof.
  intros Habs k e He. apply absolute_plainKey. exact (Habs k e He).
Qed.

(** *** Environment variables *)

Lemma split_cons_inv sep s : exists x xs, JsText.split sep s = x :: xs.
Proof.
  induction s as [| c s (x & xs & IH)]; cbn; [eauto |].
  destruct (Ascii.eqb c sep); [eauto |]. rewrite IH. eauto.
Qed.

Lemma split_lacks sep a :
  JsText.lacks sep a = true -> JsText.split sep a = [a].
Proof.
  induction a as [| c a IH]; cbn; [done |].
  intros [Hc Ha]%andb_true_iff. apply negb_true_iff in Hc.
  rewrite Hc, (IH Ha). reflexivity.
Qed.

Lemma split_app sep a b :
  JsText.lacks sep a = true ->
  JsText.split sep (a +:+ String sep b) = a :: JsText.split sep b.
Proof.
  induction a as [| c a IH]; cbn.
  - intros _. change ("" +:+ String sep b) with (String sep b). cbn.
    by rewrite Ascii.eqb_refl.
  - intros [Hc Ha]%andb_true_iff. apply negb_true_iff in Hc.
    change (String c a +:+ String sep b) with (String c (a +:+ String sep b)).
    cbn. rewrite Hc, (IH Ha). reflexivity.
Qed.

Lemma join_cons sep x y l :
  JsText.join sep (x :: y :: l) = x +:+ sep +:+ JsText.join sep (y :: l).
Proof. reflexivity. Qed.

Lemma append_cons c a b : String c a +:+ b = String c (a +:+ b).
Proof. reflexivity. Qed.

Lemma join_split sep s :
  JsText.join (String sep EmptyString) (JsText.split sep s) = s.
Proof.
  induction s as [| c s IH]; [reflexivity |].
  cbn [JsText.split].
  destruct (split_cons_inv sep s) as (x & xs & Hs). rewrite Hs in *.
  destruct (Ascii.eqb c sep) eqn:Hc.
  - apply Ascii.eqb_eq in Hc as ->.
    rewrite join_cons, IH. reflexivity.
  - destruct xs as [| y ys].
    + cbn in *. by rewrite IH.
    + rewrite join_cons in *. rewrite append_cons, IH. reflexivity.
Qed.

Lemma split_join sep l :
  l <> [] ->
  Forall (fun x => JsText.lacks sep x = true) l ->
  JsText.split sep (JsText.join (String sep EmptyString) l) = l.
Proof.
  induction l as [| x l IH]; [done |]. intros _ Hl.
  apply Forall_cons in Hl as [Hx Hl].
  destruct l as [| y l].
  - by apply split_lacks.
  - rewrite join_cons.
    change (x +:+ String sep EmptyString +:+ ?r) with (x +:+ String sep r).
    rewrite (split_app _ _ _ Hx). f_equal. by apply IH.
Qed.

Lemma lacks_app c a b :
  JsText.lacks c (a +:+ b) = JsText.lacks c a && JsText.lacks c b.
Proof.
  induction a as [| d a IH]; [reflexivity |].
  rewrite append_cons. cbn. by rewrite IH, andb_assoc.
Qed.

(** One line [name=value] binds [name] to [value], whatever [=] signs the
    value holds, unless [name] is [__proto__]. *)
Lemma setEnvironmentLine_binding name value w :
  JsText.lacks "="%char name = true ->
  setEnvironmentLine (name +:+ "=" +:+ value) w
  = (mkWorld (set_envVariables
                (recordOf (filter (fun kv => kv.1 <> "__proto__")
                                  [(name, value)]))
                (mgr w))
             (trace w),
     Return tt).
Proof.
  intros Hname. unfold setEnvironmentLine.
  change (name +:+ "=" +:+ value) with (name +:+ String "="%char value).
  rewrite (split_app _ _ _ Hname).
  change "=" with (String "="%char EmptyString). rewrite join_split.
  rewrite filter_cons, filter_nil. cbn [fst].
  destruct (String.eqb_spec name "__proto__") as [-> | Hne].
  - rewrite decide_False by (intros H; by apply H).
    by destruct w as [[] ?].
  - by rewrite decide_True.
Qed.

Lemma recordOf_app {V} (l1 l2 : list (string * V)) (acc : gmap string V) :
  recordOf (l1 ++ l2) acc = recordOf l2 (recordOf l1 acc).
Proof. unfold recordOf. apply fold_left_app. Qed.

Lemma setEnvironmentLines_run (bindings : list (string * string)) w :
  Forall (fun kv => JsText.lacks "="%char kv.1 = true) bindings ->
  forEach setEnvironmentLine
          ((fun kv => kv.1 +:+ "=" +:+ kv.2) <$> bindings) w
  = (mkWorld (set_envVariables
                (recordOf (filter (fun kv => kv.1 <> "__proto__") bindings))
                (mgr w))
             (trace w),
     Return tt).
Proof.
  revert w. induction bindings as [| [name value] l IH]; intros w Hl.
  - cbn. by destruct w as [[] ?].
  - apply Forall_cons in Hl as [Hname Hl]. cbn [fmap list_fmap forEach].
    unfold bind. cbn [fst snd]. rewrite (setEnvironmentLine_binding _ _ _ Hname).
    rewrite (IH _ Hl). cbn [mgr trace].
    change ((name, value) :: l) with ([(name, value)] ++ l).
    rewrite filter_app. unfold set_envVariables.
    cbn [mgr trace transpiledModules transpiledModulesByHash heap nextRef
         envVariables modules manifest hardReload isFirstLoad hmrStatus
         transpileJobs cachedPaths configurations stage combinedMetas].
    by rewrite recordOf_app.
Qed.

(** X6. [setEnvironmentVariables] reads [/.env] as lines [name=value]: the
    variables are replaced by exactly the bindings of the file, a later line
    overriding an earlier one of the same name, and a value keeps its own
    [=] signs.  A line that names [__proto__] binds nothing. *)
Theorem setEnvironmentVariables_parses
    (bindings : list (string * string)) (w : World) (e : ModuleEntry) :
  hasDotEnv = true ->
  transpiledModules (mgr w) !! "/.env" = Some e ->
  bindings <> [] ->
  Forall (fun kv => JsText.lacks "="%char kv.1 = true /\
                    JsText.lacks "010"%char kv.1 = true /\
                    JsText.lacks "010"%char kv.2 = true) bindings ->
  code (entry_module e)
  = JsText.join (String "010"%char EmptyString)
                ((fun kv => kv.1 +:+ "=" +:+ kv.2) <$> bindings) ->
  setEnvironmentVariables w
  = (mkWorld (set_envVariables
                (fun _ => recordOf (filter (fun kv => kv.1 <> "__proto__")
                                           bindings) ∅)
                (mgr w))
             (trace w),
     Return tt).
Proof.
  intros Hpreset Hstored Hne Hok Hcode.
  unfold setEnvironmentVariables, bind, get. cbn [mgr].
  rewrite Hstored, Hpreset, Hcode.
  rewrite split_join.
  - cbn [modify]. rewrite setEnvironmentLines_run; [reflexivity |].
    eapply Forall_impl; [exact Hok |]. by intros kv (? & _).
  - by destruct bindings.
  - apply Forall_fmap. eapply Forall_impl; [exact Hok |].
    intros [name value] (_ & Hn & Hv). unfold compose. cbn [fst snd] in *.
    by rewrite !lacks_app, Hn, Hv.
Qed.

(** *** The module store and the two registries *)

Ltac fields :=
  unfold set_transpiledModulesByHash, set_transpiledModules, set_heap,
    set_nextRef, set_modules, set_hardReload, set_isFirstLoad, set_hmrStatus,
    set_transpileJobs, set_cachedPaths, set_configurations, set_combinedMetas,
    set_envVariables, set_manifest in *;
  cbn [mgr trace transpiledModules transpiledModulesByHash heap nextRef
       envVariables modules manifest hardReload isFirstLoad hmrStatus
       transpileJobs cachedPaths configurations stage combinedMetas
       entry_module tModules] in *.

Ltac keeps_step :=
  match goal with
  | |- preserves _ (bind _ _) => apply preserves_bind; [| intros ?]
  | |- preserves _ (ret _) => apply preserves_ret
  | |- preserves _ (throw _) => apply preserves_throw
  | |- preserves _ get => apply preserves_get
  | |- preserves _ (emit _) => apply preserves_emit
  | |- preserves _ (modify _) => apply preserves_modify; intros ? ?
  | |- preserves _ (foreign _ _) => apply preserves_foreign; intros ? ?
  | |- preserves _ (foreign_call _ _) =>
      apply preserves_foreign_call; intros ? ?
  | |- preserves _ (forEach _ _) => apply preserves_forEach; intros ?
  | |- preserves _ (mapM _ _) => apply preserves_mapM; intros ?
  | |- preserves _ (filterM _ _) => apply preserves_filterM; intros ?
  | |- preserves _ (match ?x with _ => _ end) => destruct x
  end.

Lemma addTranspiledModule_run sm q w :
  addTranspiledModule sm q w
  = (mkWorld (registered sm q (mgr w)) (trace w), Return (nextRef (mgr w))).
Proof.
  unfold addTranspiledModule, addModule, registered, withModule,
    bind, get, modify, ret.
  fields.
  destruct (decide (is_Some (transpiledModules (mgr w) !! path sm)))
    as [[e He] | Hnone]; fields.
  - by rewrite He.
  - destruct (transpiledModules (mgr w) !! path sm) eqn:He; [| done].
    exfalso. apply Hnone. eauto.
Qed.

Lemma getTranspiledModule_run sm q w :
  getTranspiledModule sm q w
  = match slot (mgr w) (path sm) q with
    | Some r => (w, Return r)
    | None =>
        (mkWorld (registered sm q (mgr w)) (trace w), Return (nextRef (mgr w)))
    end.
Proof.
  unfold getTranspiledModule, slot, bind, get. fields.
  destruct (decide (is_Some (transpiledModules (mgr w) !! path sm)))
    as [[e He] | Hnone].
  - unfold ret. fields. rewrite He. cbn [mbind option_bind].
    destruct (tModules e !! q) as [r |] eqn:Hq; [reflexivity |].
    rewrite addTranspiledModule_run. reflexivity.
  - assert (transpiledModules (mgr w) !! path sm = None) as Hn.
    { destruct (transpiledModules (mgr w) !! path sm) eqn:He; [| done].
      exfalso. apply Hnone. eauto. }
    unfold addModule, modify. fields. rewrite Hn.
    rewrite lookup_insert_eq. cbn [mbind option_bind]. fields.
    rewrite lookup_empty.
    rewrite addTranspiledModule_run. unfold registered, withModule. fields.
    rewrite lookup_insert_eq, Hn. reflexivity.
Qed.

Lemma slot_registered sm q m p q' :
  slot (registered sm q m) p q'
  = if decide (p = path sm /\ q' = q) then Some (nextRef m) else slot m p q'.
Proof.
  unfold slot, registered, withModule. fields.
  destruct (decide (p = path sm)) as [-> | Hp].
  - rewrite lookup_alter_eq.
    destruct (transpiledModules m !! path sm) as [e |] eqn:He.
    + rewrite He. cbn. destruct (decide (q' = q)) as [-> | Hq].
      * rewrite lookup_insert_eq. by rewrite decide_True.
      * rewrite lookup_insert_ne by done. rewrite decide_False by tauto. done.
    + rewrite lookup_insert_eq. cbn. destruct (decide (q' = q)) as [-> | Hq].
      * rewrite lookup_insert_eq. by rewrite decide_True.
      * rewrite lookup_insert_ne by done. rewrite decide_False by tauto. done.
  - rewrite lookup_alter_ne by done. rewrite decide_False by tauto.
    destruct (transpiledModules m !! path sm); [done |].
    by rewrite lookup_insert_ne.
Qed.

Lemma deref_registered sm q m r :
  deref (registered sm q m) r
  = if decide (r = nextRef m) then newTranspiledModule sm q else deref m r.
Proof.
  unfold deref, registered. fields.
  destruct (decide (r = nextRef m)) as [-> | Hr].
  - by rewrite lookup_insert_eq.
  - by rewrite lookup_insert_ne.
Qed.

Lemma registered_consistent sm q m :
  hashSeparates m (path sm) q -> registryConsistent m ->
  registryConsistent (registered sm q m).
Proof.
  intros Hinj [H1 H2]. split.
  - intros p q' r Hs. rewrite slot_registered in Hs.
    rewrite deref_registered.
    destruct (decide (p = path sm /\ q' = q)) as [[-> ->] | Hne].
    + injection Hs as <-. rewrite decide_True by done.
      unfold registered. fields. rewrite lookup_insert_eq.
      repeat split; try done. cbn. lia.
    + destruct (H1 _ _ _ Hs) as (Hlt & Hp & Hq & Hh & Hb).
      rewrite decide_False by lia.
      unfold registered at 1 2. fields.
      repeat split; try done; [lia |].
      rewrite lookup_insert_ne; [done |].
      intros Heq. apply Hne. apply Hinj; eauto.
  - intros h r Hb. unfold registered in Hb. fields.
    destruct (decide (h = hashOf (path sm) q)) as [-> | Hh].
    + rewrite lookup_insert_eq in Hb. injection Hb as <-.
      exists (path sm), q. rewrite slot_registered.
      by rewrite decide_True.
    + rewrite lookup_insert_ne in Hb by done.
      destruct (H2 _ _ Hb) as (p' & q' & Hs & ->).
      exists p', q'. rewrite slot_registered.
      rewrite decide_False; [done |].
      intros [-> ->]. done.
Qed.

(** X7. [getTranspiledModule] is get-or-create: the call after a successful
    call finds the same transpiled module and changes nothing. *)
Theorem getTranspiledModule_again
    (sm : SourceModule) (q : string) (w w1 : World) (r : TMRef) :
  getTranspiledModule sm q w = (w1, Return r) ->
  getTranspiledModule sm q w1 = (w1, Return r).
Proof.
  rewrite !getTranspiledModule_run.
  destruct (slot (mgr w) (path sm) q) as [r0 |] eqn:Hslot.
  - intros [= <- <-]. by rewrite Hslot.
  - intros [= <- <-]. cbn [mgr]. rewrite slot_registered.
    by rewrite decide_True.
Qed.

Lemma removeTranspiledModule_run r w e :
  transpiledModules (mgr w) !! path (tm_module (deref (mgr w) r)) = Some e ->
  removeTranspiledModule r w
  = (mkWorld (unregistered r (mgr w)) (trace w), Return tt).
Proof.
  intros He. unfold removeTranspiledModule, unregistered, bind, get, modify.
  fields. by rewrite He.
Qed.

Lemma slot_unregistered r m p q :
  slot (unregistered r m) p q
  = if decide (p = path (tm_module (deref m r)) /\ q = query (deref m r))
    then None else slot m p q.
Proof.
  unfold slot, unregistered. fields.
  destruct (decide (p = path (tm_module (deref m r)))) as [-> | Hp].
  - rewrite lookup_alter_eq.
    destruct (transpiledModules m !! path (tm_module (deref m r))) as [e |];
      cbn; [| by destruct (decide _)].
    destruct (decide (q = query (deref m r))) as [-> | Hq].
    + rewrite lookup_delete_eq. by rewrite decide_True.
    + rewrite lookup_delete_ne by done. rewrite decide_False by tauto. done.
  - rewrite lookup_alter_ne by done. rewrite decide_False by tauto. done.
Qed.

(** Consistency reads the slots, the hash registry, the allocation bound and
    the path, query and hash of the objects only. *)
Lemma registryConsistent_ext m m' :
  (forall p q, slot m' p q = slot m p q) ->
  transpiledModulesByHash m' = transpiledModulesByHash m ->
  nextRef m' = nextRef m ->
  (forall r, path (tm_module (deref m' r)) = path (tm_module (deref m r)) /\
             query (deref m' r) = query (deref m r) /\
             hash (deref m' r) = hash (deref m r)) ->
  registryConsistent m -> registryConsistent m'.
Proof.
  intros Hs Hb Hn Hd [H1 H2]. split.
  - intros p q r Hslot. rewrite Hs in Hslot.
    destruct (H1 _ _ _ Hslot) as (? & ? & ? & ? & ?).
    destruct (Hd r) as (-> & -> & ->). rewrite Hb, Hn. done.
  - intros h r Hh. rewrite Hb in Hh.
    destruct (H2 _ _ Hh) as (p & q & ? & ?). exists p, q. by rewrite Hs.
Qed.

Lemma unregistered_consistent m p q r :
  registryConsistent m -> slot m p q = Some r ->
  registryConsistent (unregistered r m).
Proof.
  intros [H1 H2] Hslot.
  destruct (H1 _ _ _ Hslot) as (Hlt & Hp & Hq & Hh & Hb).
  split.
  - intros p' q' r' Hs. rewrite slot_unregistered in Hs.
    destruct (decide _) as [| Hne] in Hs; [done |].
    destruct (H1 _ _ _ Hs) as (Hlt' & Hp' & Hq' & Hh' & Hb').
    unfold unregistered, deref in *. fields.
    split; [done |]. split; [done |]. split; [done |]. split; [done |].
    rewrite lookup_delete_ne; [done |].
    rewrite Hh. intros Heq. rewrite Heq in Hb.
    assert (r = r') as <- by congruence.
    apply Hne. rewrite Hp, Hq in *. by subst.
  - intros h r' Hh'. unfold unregistered in Hh'. fields.
    destruct (decide (h = hash (deref m r))) as [-> | Hne].
    { by rewrite lookup_delete_eq in Hh'. }
    rewrite lookup_delete_ne in Hh' by done.
    destruct (H2 _ _ Hh') as (p' & q' & Hs' & ->).
    exists p', q'. split; [| done].
    rewrite slot_unregistered. rewrite decide_False; [done |].
    rewrite Hp, Hq. intros [-> ->]. by rewrite Hh in Hne.
Qed.

Lemma dispose_consistent r m :
  disposeIsLocal -> registryConsistent m ->
  registryConsistent (tm_dispose r m) /\
  forall p q, slot (tm_dispose r m) p q = slot m p q.
Proof.
  intros Hd Hc. destruct (Hd r m) as (Ht & Hb & Hn & _ & Hr).
  assert (forall p q, slot (tm_dispose r m) p q = slot m p q) as Hs.
  { intros p q. unfold slot. by rewrite Ht. }
  split; [| done]. by apply (registryConsistent_ext m).
Qed.

Lemma slot_entry m p q r :
  slot m p q = Some r -> is_Some (transpiledModules m !! p).
Proof.
  unfold slot. destruct (transpiledModules m !! p); [eauto | done].
Qed.

(** The loop of [removeModule] over the transpiled modules of [p]. *)
Lemma removeModule_loop p (l : list (string * TMRef)) : forall w,
  disposeIsLocal ->
  NoDup l.*1 ->
  registryConsistent (mgr w) ->
  (forall q r, (q, r) ∈ l -> slot (mgr w) p q = Some r) ->
  exists w',
    forEach (fun r => foreign (EvDispose r) (tm_dispose r) >>
                      removeTranspiledModule r) l.*2 w = (w', Return tt) /\
    registryConsistent (mgr w') /\
    (forall p' q', slot (mgr w') p' q'
                   = if decide (p' = p /\ q' ∈ l.*1) then None
                     else slot (mgr w) p' q') /\
    (forall p', p' <> p ->
                transpiledModules (mgr w') !! p' = transpiledModules (mgr w) !! p') /\
    cachedPaths (mgr w') = cachedPaths (mgr w) /\
    trace w' = trace w ++ (EvDispose <$> l.*2).
Proof.
  induction l as [| [q r] l IH]; intros w Hd Hnd Hc Hl.
  - exists w. cbn. split; [done |]. split; [done |].
    split; [| by rewrite app_nil_r].
    intros p' q'. rewrite decide_False; [done |].
    intros [_ Hin]. by apply elem_of_nil in Hin.
  - cbn [fmap list_fmap forEach snd fst] in *.
    apply NoDup_cons in Hnd as [Hq Hnd].
    assert (slot (mgr w) p q = Some r) as Hslot by (apply Hl; left).
    destruct (dispose_consistent r (mgr w) Hd Hc) as [Hc1 Hs1].
    destruct (Hd r (mgr w)) as (Ht1 & Hb1 & Hn1 & Hcp1 & Hr1).
    set (wa := mkWorld (tm_dispose r (mgr w)) (trace w ++ [EvDispose r])).
    assert (slot (mgr wa) p q = Some r) as Hslota by (cbn; by rewrite Hs1).
    destruct Hc1 as [H1a H2a].
    destruct (H1a _ _ _ Hslota) as (_ & Hpa & Hqa & _ & _).
    destruct (slot_entry _ _ _ _ Hslota) as [e He].
    assert (removeTranspiledModule r wa
            = (mkWorld (unregistered r (mgr wa)) (trace wa), Return tt)) as Hrun.
    { apply (removeTranspiledModule_run r wa e). unfold wa in *.
      cbn [mgr] in *. by rewrite Hpa. }
    set (wb := mkWorld (unregistered r (mgr wa)) (trace wa)) in *.
    assert (forall p' q', slot (mgr wb) p' q'
              = if decide (p' = p /\ q' = q) then None else slot (mgr w) p' q')
      as Hsb.
    { intros p' q'. unfold wb, wa. cbn [mgr].
      rewrite slot_unregistered, Hpa, Hqa. by rewrite Hs1. }
    destruct (IH wb Hd Hnd) as (w' & Hrun' & Hc' & Hs' & Ht' & Hcp' & Htr').
    { apply (unregistered_consistent _ p q); [by split | done]. }
    { intros q2 r2 Hin. rewrite Hsb. rewrite decide_False.
      - apply Hl. by right.
      - intros [_ ->]. apply Hq. apply list_elem_of_fmap.
        by exists (q, r2). }
    exists w'. split.
    { unfold bind at 1. unfold bind at 1. unfold foreign. fold wa.
      rewrite Hrun. exact Hrun'. }
    split; [done |]. split.
    { intros p' q'. rewrite Hs', Hsb.
      destruct (decide (p' = p /\ q' ∈ l.*1)) as [[-> Hin] | Hn1'].
      - rewrite decide_True; [done |]. split; [done | by right].
      - destruct (decide (p' = p /\ q' = q)) as [[-> ->] | Hn2].
        + rewrite decide_True; [done |]. split; [done | by left].
        + rewrite decide_False; [done |].
          intros [-> Hin]. apply elem_of_cons in Hin as [-> | Hin]; tauto. }
    split.
    { intros p' Hp'. rewrite Ht' by done. unfold wb, wa, unregistered.
      fields. rewrite Hpa. rewrite lookup_alter_ne by done. by rewrite Ht1. }
    split.
    { rewrite Hcp'. unfold wb, wa, unregistered. fields. done. }
    rewrite Htr'. unfold wb, wa. cbn [trace]. by rewrite <- app_assoc.
Qed.

Lemma removeModule_spec sm w e :
  disposeIsLocal ->
  registryConsistent (mgr w) ->
  transpiledModules (mgr w) !! path sm = Some e ->
  exists w1,
    removeModule sm w = (w1, Return tt) /\
    transpiledModules (mgr w1) = delete (path sm) (transpiledModules (mgr w)) /\
    cachedPaths (mgr w1) = ∅ /\
    registryConsistent (mgr w1) /\
    forgotten (path sm) (mgr w1) /\
    trace w1 = trace w ++ (EvDispose <$> (map_to_list (tModules e)).*2).
Proof.
  intros Hd Hc He.
  set (w0 := mkWorld (set_cachedPaths (fun _ => ∅) (mgr w)) (trace w)).
  destruct (removeModule_loop (path sm) (map_to_list (tModules e)) w0 Hd)
    as (w' & Hrun & Hc' & Hs' & Ht' & Hcp' & Htr').
  { apply NoDup_fst_map_to_list. }
  { revert Hc. apply registryConsistent_ext; done. }
  { intros q r Hin. apply elem_of_map_to_list in Hin.
    unfold slot. cbn. fields. by rewrite He. }
  assert (forall q', slot (mgr w') (path sm) q' = None) as Hnone.
  { intros q'. rewrite Hs'.
    destruct (decide _) as [| Hn]; [done |].
    unfold slot. cbn. fields. rewrite He. cbn.
    destruct (tModules e !! q') as [r |] eqn:Hq; [| done].
    exfalso. apply Hn. split; [done |].
    apply list_elem_of_fmap. exists (q', r). split; [done |].
    by apply elem_of_map_to_list. }
  set (m1 := set_transpiledModules (delete (path sm)) (mgr w')).
  assert (forall p q, slot m1 p q = slot (mgr w') p q) as Hs1.
  { intros p q. destruct (decide (p = path sm)) as [-> | Hp].
    - rewrite Hnone. unfold slot, m1. fields. by rewrite lookup_delete_eq.
    - unfold slot, m1. fields. by rewrite lookup_delete_ne. }
  assert (registryConsistent m1) as Hc1.
  { revert Hc'. apply registryConsistent_ext; done. }
  exists (mkWorld m1 (trace w')). split.
  { unfold removeModule.
    rewrite (bind_run _ _ w w0 (Return tt)) by reflexivity.
    rewrite (bind_run get _ w0 w0 (Return (mgr w0))) by reflexivity.
    replace (transpiledModules (mgr w0) !! path sm) with (Some e)
      by (unfold w0; fields; done).
    rewrite (bind_run _ _ _ _ _ Hrun). reflexivity. }
  cbn [mgr trace]. split.
  { apply map_eq. intros p. unfold m1. fields.
    destruct (decide (p = path sm)) as [-> | Hp].
    - by rewrite !lookup_delete_eq.
    - rewrite !lookup_delete_ne by done. rewrite Ht' by done. done. }
  split; [unfold m1; fields; by rewrite Hcp' |].
  split; [done |]. split; [| done].
  intros h r Hh Hpath. destruct Hc1 as [H1 H2].
  destruct (H2 _ _ Hh) as (p' & q' & Hslot & _).
  destruct (H1 _ _ _ Hslot) as (_ & Hp' & _).
  rewrite Hpath in Hp'. subst p'. rewrite Hs1, Hnone in Hslot. done.
Qed.

(** X9. In a store whose registries agree, [removeModule] of a stored
    module returns normally: the path is no longer stored, no transpiled
    module of that path is left in the hash registry, every other module
    stays, each transpiled module of the path was disposed once, the
    resolution cache is empty and the registries still agree. *)
Theorem removeModule_removes (sm : SourceModule) (w : World) (e : ModuleEntry) :
  disposeIsLocal ->
  registryConsistent (mgr w) ->
  transpiledModules (mgr w) !! path sm = Some e ->
  exists w1,
    removeModule sm w = (w1, Return tt) /\
    moduleOf (mgr w1) (path sm) = None /\
    forgotten (path sm) (mgr w1) /\
    (forall p, p <> path sm -> moduleOf (mgr w1) p = moduleOf (mgr w) p) /\
    trace w1 = trace w ++ (EvDispose <$> getTranspiledModulesByModule sm (mgr w)) /\
    cachedPaths (mgr w1) = ∅ /\
    registryConsistent (mgr w1).
Proof.
  intros Hd Hc He.
  destruct (removeModule_spec sm w e Hd Hc He)
    as (w1 & Hrun & Ht & Hcp & Hc1 & Hf & Htr).
  exists w1. split; [done |]. unfold moduleOf, getTranspiledModulesByModule.
  rewrite Ht, He. split; [by rewrite lookup_delete_eq |].
  split; [done |]. split; [| done].
  intros p Hp. by rewrite lookup_delete_ne.
Qed.


(** *** Filling the store: the constructor and [setManifest] *)

Lemma world_eta w : mkWorld (mgr w) (trace w) = w.
Proof. by destruct w. Qed.

Lemma set_transpiledModules_id m : set_transpiledModules (fun t => t) m = m.
Proof. by destruct m. Qed.

Lemma forEach_addModule_run (l : list SourceModule) : forall w,
  forEach addModule l w
  = (mkWorld (set_transpiledModules (withModules l) (mgr w)) (trace w), Return tt).
Proof.
  induction l as [| sm l IH]; intros w.
  - cbn. unfold ret, withModules. cbn.
    by rewrite set_transpiledModules_id, world_eta.
  - cbn [forEach]. unfold bind, addModule at 1, modify. rewrite IH. reflexivity.
Qed.

Lemma withModule_lookup sm tms p :
  withModule sm tms !! p
  = match tms !! p with
    | Some e => Some e
    | None => if decide (p = path sm) then Some (mkEntry sm ∅) else None
    end.
Proof.
  unfold withModule. destruct (decide (p = path sm)) as [-> | Hp].
  - destruct (tms !! path sm) eqn:He; [by rewrite He |].
    by rewrite lookup_insert_eq.
  - destruct (tms !! path sm); [by destruct (tms !! p) |].
    rewrite lookup_insert_ne by done. by destruct (tms !! p).
Qed.




Lemma slot_withModules l m p q :
  slot (set_transpiledModules (withModules l) m) p q = slot m p q.
Proof.
  unfold slot. fields. generalize (transpiledModules m). clear m.
  induction l as [| sm l IH]; intros tms; [done |].
  cbn. rewrite IH, withModule_lookup.
  destruct (tms !! p); [done |].
  destruct (decide (p = path sm)); [| done]. cbn. apply lookup_empty.
Qed.

Lemma blankManager_consistent ms metas :
  registryConsistent (blankManager ms metas).
Proof.
  split.
  - intros p q r Hs. unfold slot, blankManager in Hs. fields.
    by rewrite lookup_empty in Hs.
  - intros h r Hh. unfold blankManager in Hh. fields.
    by rewrite lookup_empty in Hh.
Qed.





(** *** Saving and restoring *)

Lemma metaOf_fold (l : list string) : forall (acc : gmap string (list string)) d f,
  (exists fs, fold_left (fun (acc : gmap string (list string)) p =>
                 let dir := dirname (Js.replace p "/node_modules" "") in
                 <[dir := default [] (acc !! dir) ++ [basename p]]> acc) l acc
              !! d = Some fs /\ f ∈ fs)
  <-> (exists fs, acc !! d = Some fs /\ f ∈ fs) \/
      (exists p, p ∈ l /\ d = dirname (Js.replace p "/node_modules" "") /\
                 f = basename p).
Proof.
  induction l as [| p l IH]; intros acc d f.
  - cbn. split; [by left |]. intros [H | (p & Hp & _)]; [done |].
    by apply elem_of_nil in Hp.
  - cbn [fold_left]. rewrite IH. clear IH.
    set (dir := dirname (Js.replace p "/node_modules" "")).
    split.
    + intros [(fs & Hfs & Hf) | (p' & Hp' & Hd & Hb)].
      * destruct (decide (d = dir)) as [-> | Hne].
        -- rewrite lookup_insert_eq in Hfs. injection Hfs as <-.
           apply elem_of_app in Hf as [Hf | Hf%list_elem_of_singleton].
           ++ left. destruct (acc !! dir) as [fs |]; [eauto |].
              by apply elem_of_nil in Hf.
           ++ right. exists p. split; [by left | done].
        -- rewrite lookup_insert_ne in Hfs by done. left. eauto.
      * right. exists p'. split; [by right | done].
    + intros [(fs & Hfs & Hf) | (p' & Hp' & Hd & Hb)].
      * left. destruct (decide (d = dir)) as [-> | Hne].
        -- rewrite lookup_insert_eq, Hfs. eexists. split; [done |].
           apply elem_of_app. by left.
        -- rewrite lookup_insert_ne by done. eauto.
      * apply elem_of_cons in Hp' as [-> | Hp'].
        -- left. subst d. fold dir. rewrite lookup_insert_eq.
           eexists. split; [done |]. apply elem_of_app. right.
           by apply list_elem_of_singleton.
        -- right. eauto.
Qed.

Lemma metasOf_metaOf (cm : gset string) :
  metaPathsSplit cm -> metasOf (metaOf cm) = cm.
Proof.
  intros Hsplit. apply set_eq. intros x. unfold metasOf.
  rewrite elem_of_list_to_set, elem_of_concat_fmap. split.
  - intros ([d fs] & Hin%elem_of_map_to_list & (f & -> & Hf)%list_elem_of_fmap).
    cbn [fst snd] in *.
    assert (exists fs, metaOf cm !! d = Some fs /\ f ∈ fs) as Hex by eauto.
    apply metaOf_fold in Hex as [(fs' & Hfs' & _) | (p & Hp & -> & ->)].
    { by rewrite lookup_empty in Hfs'. }
    apply elem_of_elements in Hp. by rewrite (Hsplit p Hp).
  - intros Hx.
    assert (exists fs, metaOf cm !! dirname (Js.replace x "/node_modules" "")
                       = Some fs /\ basename x ∈ fs) as (fs & Hfs & Hf).
    { apply metaOf_fold. right. exists x. split; [| done].
      by apply elem_of_elements. }
    exists (dirname (Js.replace x "/node_modules" ""), fs). split.
    + by apply elem_of_map_to_list.
    + apply list_elem_of_fmap. exists (basename x). split; [| done].
      cbn [fst]. symmetry. by apply Hsplit.
Qed.

Lemma serializeSlot_pure optimizeForSize m0 r :
  preserves (fun m => m = m0) (serializeSlot optimizeForSize r).
Proof.
  unfold serializeSlot. apply preserves_bind; [apply preserves_get |].
  intros m. destruct (manifest m); [| apply preserves_throw].
  destruct (notPrecomputed _ _); [| apply preserves_ret].
  apply preserves_bind; [apply preserves_emit |]. intros _. apply preserves_ret.
Qed.

Lemma serialize_record entryPath optimizeForSize timestamp w w1 data :
  serialize entryPath optimizeForSize timestamp w = (w1, Return data) ->
  mgr w1 = mgr w /\
  c_cachedPaths data = cachedPaths (mgr w) /\
  c_configurations data = configurations (mgr w) /\
  c_version data = SCRIPT_VERSION /\
  c_dependenciesQuery data = getDependencyQuery (mgr w) /\
  c_meta data = Some (metaOf (combinedMetas (mgr w))) /\
  c_entry data = entryPath /\
  c_timestamp data = timestamp.
Proof.
  unfold serialize. intros Hrun.
  apply bind_Return_inv in Hrun as (w0 & m0 & [= <- <-] & Hrun).
  apply bind_Return_inv in Hrun as (w2 & saved & Hsaved & Hrun).
  assert (mgr w2 = mgr w) as Hm.
  { eapply (preserves_mapM (fun m => m = mgr w)); [| exact Hsaved | done].
    intros r. apply serializeSlot_pure. }
  apply bind_Return_inv in Hrun as (w3 & m & [= <- <-] & Hrun).
  injection Hrun as <- <-. cbn. rewrite Hm. done.
Qed.

(** The part of [load] that follows the assignments of a matching record. *)
Lemma load_tail_keeps P (data : SerializedCache) :
  (forall m sm q, P m -> P (registered sm q m)) ->
  (forall r s tms m, P m -> P (tm_load r s tms m)) ->
  preserves P
    (let* created :=
       mapM (fun kv : string * SerializedTranspiledModule =>
               let* r := addTranspiledModule (s_module kv.2) (s_query kv.2) in
               ret (kv.1, r))
            (map_to_list (c_transpiledModules data)) in
     let tModules : gmap string TMRef := list_to_map created in
     forEach (fun kv : string * TMRef =>
                match c_transpiledModules data !! kv.1 with
                | Some sTModule =>
                    foreign (EvLoad kv.2) (tm_load kv.2 sTModule tModules)
                | None => ret tt
                end)
             (map_to_list tModules)).
Proof.
  intros Hreg Hload. apply preserves_bind.
  - apply preserves_mapM. intros kv. apply preserves_bind.
    + intros w w' o Hrun HP. rewrite addTranspiledModule_run in Hrun.
      injection Hrun as <- _. cbn. by apply Hreg.
    + intros r. apply preserves_ret.
  - intros created. apply preserves_forEach. intros kv.
    destruct (c_transpiledModules data !! kv.1); [| apply preserves_ret].
    apply preserves_foreign. intros m. apply Hload.
Qed.




(** X13. A record written by [serialize] is accepted by [load] in a
    manager with the same dependencies: [load] returns, and the resolver
    cache and the configurations are the ones that were saved.  The npm
    metadata are the saved ones too when each of their paths is made of
    [/node_modules], a directory and a base name. *)
Theorem load_restores_serialized
    (entryPath : option string) (optimizeForSize : bool) (timestamp : nat)
    (w w1 w2 : World) (data : SerializedCache) :
  loadIsLocal ->
  serialize entryPath optimizeForSize timestamp w = (w1, Return data) ->
  getDependencyQuery (mgr w2) = getDependencyQuery (mgr w) ->
  exists w3,
    load (Some data) w2 = (w3, Return tt) /\
    cachedPaths (mgr w3) = cachedPaths (mgr w) /\
    configurations (mgr w3) = configurations (mgr w) /\
    (metaPathsSplit (combinedMetas (mgr w)) ->
     combinedMetas (mgr w3) = combinedMetas (mgr w)).
Proof.
  intros Hlocal Hser Hquery.
  destruct (serialize_record _ _ _ _ _ _ Hser)
    as (_ & Hcp & Hcf & Hver & Hdq & Hmeta & _).
  set (P := fun m => cachedPaths m = cachedPaths (mgr w) /\
                     configurations m = configurations (mgr w) /\
                     combinedMetas m = metasOf (metaOf (combinedMetas (mgr w)))).
  assert (exists w3, load (Some data) w2 = (w3, Return tt) /\ P (mgr w3))
    as (w3 & Hrun & HP3 & HP3' & HP3'').
  { destruct (load (Some data) w2) as [w3 o] eqn:Hrun.
    unfold load in Hrun. apply bind_inv in Hrun as (wa & oa & Htry & Hrest).
    apply try_catch_inv in Htry as (wb & ob & Hbody & Hcatch).
    assert (P (mgr wb)) as HPb.
    { unfold load_try in Hbody.
      apply bind_inv in Hbody as (? & ? & [= <- <-] & Hbody).
      apply bind_inv in Hbody as (? & ? & [= <- <-] & Hbody).
      cbn [mgr] in Hbody.
      rewrite Hver, Hdq, <- Hquery, !String.eqb_refl, Hmeta in Hbody.
      cbn [andb] in Hbody.
      apply bind_inv in Hbody as (? & ? & [= <- <-] & Hbody).
      apply bind_inv in Hbody as (? & ? & [= <- <-] & Hbody).
      apply bind_inv in Hbody as (? & ? & [= <- <-] & Hbody).
      apply bind_inv in Hbody as (? & ? & [= <- <-] & Hbody).
      refine (load_tail_keeps P data _ _ _ _ _ Hbody _).
      - intros m sm q HP. exact HP.
      - intros r s0 tms m (? & ? & ?). unfold P.
        destruct (Hlocal r s0 tms m) as (-> & -> & ->). done.
      - unfold P. cbn [mgr]. fields. by rewrite Hcp, Hcf. }
    assert (wa = wb /\ oa = Return tt) as [-> ->].
    { destruct ob as [[] |]; [by destruct Hcatch as [-> ->] |].
      by injection Hcatch as <- <-. }
    injection Hrest as <- <-. eexists. split; [reflexivity | exact HPb]. }
  exists w3. split; [done |]. split; [done |]. split; [done |].
  intros Hsplit. rewrite HP3''. by apply metasOf_metaOf.
Qed.

(** *** [updateData] and the hard reload *)

Section Flags.
Hypothesis Hkeep : keepFlags.

Lemma removeModule_keeps_flags h f c sm :
  preserves (flagsAre h f c) (removeModule sm).
Proof.
  unfold removeModule, removeTranspiledModule.
  repeat keeps_step; try done; by apply Hkeep.
Qed.

Lemma addTranspiledModule_keeps_flags h f c sm q :
  preserves (flagsAre h f c) (addTranspiledModule sm q).
Proof.
  unfold addTranspiledModule, addModule. repeat keeps_step; done.
Qed.

Lemma updateModule_keeps_flags h f c sm :
  preserves (flagsAre h f c) (updateModule sm).
Proof.
  unfold updateModule. repeat keeps_step; try done; by apply Hkeep.
Qed.

Lemma modulesWithErrors_keeps_flags h f c :
  preserves (flagsAre h f c) modulesWithErrors.
Proof.
  unfold modulesWithErrors. repeat keeps_step; try done; by apply Hkeep.
Qed.

Lemma updateData_retranspile_keeps_flags h f c all :
  preserves (flagsAre h f c) (updateData_retranspile all).
Proof.
  unfold updateData_retranspile, retranspileStep.
  repeat keeps_step; try done; by apply Hkeep.
Qed.

Lemma updateData_apply_flags added updated f c w w' all :
  flagsAre false f c (mgr w) ->
  updateData_apply added updated w = (w', Return all) ->
  flagsAre (match added ++ updated, sandbox c with
            | _ :: _, Some sb => hardReloadOnChange sb
            | _, _ => false
            end) f c (mgr w').
Proof.
  intros Hflags Hrun. unfold updateData_apply in Hrun.
  apply bind_Return_inv in Hrun as (w1 & [] & Hadd & Hrun).
  assert (flagsAre false f c (mgr w1)) as H1.
  { revert Hadd Hflags. apply preserves_forEach. intros sm.
    apply preserves_bind; [apply addTranspiledModule_keeps_flags |].
    intros r. apply preserves_ret. }
  apply bind_Return_inv in Hrun as (w2 & tms & Hupd & Hrun).
  assert (flagsAre false f c (mgr w2)) as H2.
  { revert Hupd H1. apply preserves_mapM. intros sm.
    apply updateModule_keeps_flags. }
  apply bind_Return_inv in Hrun as (? & m & [= <- <-] & Hrun).
  apply bind_Return_inv in Hrun as (w3 & [] & Hset & Hrun).
  apply bind_Return_inv in Hrun as (w4 & errs & Herrs & [= <- _]).
  refine (modulesWithErrors_keeps_flags _ _ _ _ _ _ Herrs _).
  destruct H2 as (Hh & Hf & Hc). rewrite Hc in Hset.
  destruct (added ++ updated); [injection Hset as <-; done |].
  destruct (sandbox c); injection Hset as <-; done.
Qed.

Lemma updateData_diff_flags newModules w wd all :
  updateData_diff newModules w = (wd, Return all) ->
  flagsAre (reloadDue (mgr w) newModules) false (configurations (mgr w))
           (mgr wd).
Proof.
  intros Hdiff. unfold updateData_diff in Hdiff.
  apply bind_Return_inv in Hdiff as (? & [] & [= <-] & Hdiff).
  apply bind_Return_inv in Hdiff as (? & [] & [= <-] & Hdiff).
  apply bind_Return_inv in Hdiff as (? & [] & [= <-] & Hdiff).
  apply bind_Return_inv in Hdiff as (? & [] & [= <-] & Hdiff).
  apply bind_Return_inv in Hdiff as (? & m & [= <- <-] & Hdiff).
  apply bind_Return_inv in Hdiff as (w2 & [] & Hreset & Hdiff).
  apply bind_Return_inv in Hdiff as (w3 & [] & Hdel & Hdiff).
  cbn [mgr] in *.
  assert (flagsAre false false (configurations (mgr w)) (mgr w2)) as H2.
  { destruct (_ ++ _) in Hreset; injection Hreset as <-; done. }
  assert (flagsAre false false (configurations (mgr w)) (mgr w3)) as H3.
  { revert Hdel H2. unfold updateData_delete. apply preserves_forEach.
    intros sm. destruct (isDeleted newModules sm); [| apply preserves_ret].
    apply removeModule_keeps_flags. }
  exact (updateData_apply_flags _ _ _ _ _ _ _ H3 Hdiff).
Qed.

Lemma updateData_flags newModules w w1 res :
  updateData newModules w = (w1, Return res) ->
  flagsAre (reloadDue (mgr w) newModules) false (configurations (mgr w))
           (mgr w1).
Proof.
  intros Hrun. unfold updateData in Hrun.
  apply bind_Return_inv in Hrun as (wd & all & Hdiff & Hrun).
  refine (updateData_retranspile_keeps_flags _ _ _ _ _ _ _ Hrun _).
  exact (updateData_diff_flags _ _ _ _ Hdiff).
Qed.

End Flags.

(** X14. [updateData] decides about the reload of the page anew: when it
    returns, the first load is over and a hard reload is pending exactly
    when it found a module to add or to update and the sandbox
    configuration asks for a hard reload on change, whatever was pending
    before; and then the next [evaluateModule] reloads the page and
    evaluates nothing. *)
Theorem updateData_decides_reload
    (newModules : gmap string SourceModule) (w w1 : World)
    (res : list (option TMRef)) (module : SourceModule)
    (force testGlobals : bool) :
  keepFlags ->
  updateData newModules w = (w1, Return res) ->
  isFirstLoad (mgr w1) = false /\
  hardReload (mgr w1) = reloadDue (mgr w) newModules /\
  (reloadDue (mgr w) newModules = true ->
   evaluateModule module force testGlobals w1
   = (mkWorld (mgr w1) (trace w1 ++ [EvReload]), Return "{}")).
Proof.
  intros Hkeep Hrun.
  destruct (updateData_flags Hkeep _ _ _ _ Hrun) as (Hh & Hf & _).
  split; [done |]. split; [done |].
  intros Hdue. unfold evaluateModule, bind, get.
  by rewrite Hh, Hf, Hdue.
Qed.

(** *** What [updateData] leaves in the store *)

Lemma moduleOf_mods m p : moduleOf m p = mods m !! p.
Proof. unfold moduleOf, mods. by rewrite lookup_fmap. Qed.

Lemma mods_alter_tModules (f : ModuleEntry -> gmap string TMRef) p
    (tms : gmap string ModuleEntry) :
  entry_module <$> alter (fun e => mkEntry (entry_module e) (f e)) p tms
  = entry_module <$> tms.
Proof.
  apply map_eq. intros k. rewrite !lookup_fmap.
  destruct (decide (k = p)) as [-> | Hk].
  - rewrite lookup_alter_eq. by destruct (tms !! p).
  - by rewrite lookup_alter_ne.
Qed.

Lemma mods_alter_module sm (f : ModuleEntry -> gmap string TMRef) p
    (tms : gmap string ModuleEntry) :
  is_Some (tms !! p) ->
  entry_module <$> alter (fun e => mkEntry sm (f e)) p tms
  = <[p := sm]> (entry_module <$> tms).
Proof.
  intros [e He]. apply map_eq. intros k. rewrite lookup_fmap.
  destruct (decide (k = p)) as [-> | Hk].
  - rewrite lookup_alter_eq, lookup_insert_eq, He. done.
  - rewrite lookup_alter_ne, lookup_insert_ne, lookup_fmap by done. done.
Qed.

Lemma mods_registered sm q m :
  mods (registered sm q m) = <[path sm := sm]> (mods m).
Proof.
  unfold mods, registered, withModule. fields.
  destruct (transpiledModules m !! path sm) as [e |] eqn:He.
  - rewrite mods_alter_module; [done | by rewrite He].
  - rewrite mods_alter_module by (rewrite lookup_insert_eq; eauto).
    rewrite fmap_insert. cbn. by rewrite insert_insert_eq.
Qed.

Lemma insAll_cons sm l acc :
  insAll (sm :: l) acc = insAll l (<[path sm := sm]> acc).
Proof. reflexivity. Qed.

Lemma delAll_cons nm sm l acc :
  delAll nm (sm :: l) acc
  = delAll nm l (if isDeleted nm sm then delete (path sm) acc else acc).
Proof. reflexivity. Qed.

Section Mods.
Hypothesis Hkeep : keepModules.

Lemma removeTranspiledModule_mods X r :
  preserves (fun m => mods m = X) (removeTranspiledModule r).
Proof.
  unfold removeTranspiledModule. repeat keeps_step; try done.
  unfold mods in *. fields. by rewrite mods_alter_tModules.
Qed.

Lemma removeModule_mods sm w w' :
  removeModule sm w = (w', Return tt) ->
  mods (mgr w') = delete (path sm) (mods (mgr w)).
Proof.
  destruct Hkeep as (_ & Hdisp & _).
  unfold removeModule. intros Hrun.
  apply bind_Return_inv in Hrun as (? & [] & [= <-] & Hrun).
  apply bind_Return_inv in Hrun as (? & m & [= <- <-] & Hrun).
  cbn [mgr] in Hrun.
  destruct (transpiledModules _ !! path sm) as [e |]; [| done].
  apply bind_Return_inv in Hrun as (w1 & [] & Hloop & [= <-]).
  assert (mods (mgr w1) = mods (mgr w)) as H1.
  { refine (preserves_forEach (fun m => mods m = mods (mgr w)) _ _ _ _ _ _
              Hloop _); [| done].
    intros r. apply preserves_bind.
    - apply preserves_foreign. intros m' Hm'. by rewrite Hdisp.
    - intros _. apply removeTranspiledModule_mods. }
  cbn [mgr]. unfold mods in *. fields. by rewrite fmap_delete, H1.
Qed.

Lemma updateData_delete_mods newModules stored : forall w w',
  updateData_delete newModules stored w = (w', Return tt) ->
  mods (mgr w') = delAll newModules stored (mods (mgr w)).
Proof.
  unfold updateData_delete.
  induction stored as [| sm stored IH]; intros w w' Hrun.
  - by injection Hrun as <-.
  - cbn [forEach] in Hrun.
    apply bind_Return_inv in Hrun as (w1 & [] & Hsm & Hrun).
    rewrite (IH _ _ Hrun), delAll_cons. f_equal.
    destruct (isDeleted newModules sm).
    + by apply removeModule_mods.
    + by injection Hsm as <-.
Qed.

Lemma forEach_add_mods added : forall w w' o,
  forEach (fun sm => addTranspiledModule sm "" >> ret tt) added w = (w', o) ->
  mods (mgr w') = insAll added (mods (mgr w)).
Proof.
  induction added as [| sm added IH]; intros w w' o Hrun.
  - by injection Hrun as <-.
  - cbn [forEach] in Hrun.
    rewrite (bind_run _ _ w
               (mkWorld (registered sm "" (mgr w)) (trace w)) (Return tt))
      in Hrun.
    + rewrite (IH _ _ _ Hrun), insAll_cons. cbn [mgr].
      by rewrite mods_registered.
    + rewrite (bind_run _ _ _ _ _ (addTranspiledModule_run sm "" w)).
      reflexivity.
Qed.

Lemma updateModule_mods sm w w' l :
  updateModule sm w = (w', Return l) ->
  mods (mgr w') = <[path sm := sm]> (mods (mgr w)).
Proof.
  destruct Hkeep as (Hupd & _ & _).
  unfold updateModule. intros Hrun.
  apply bind_Return_inv in Hrun as (? & m & [= <- <-] & Hrun).
  destruct (transpiledModules (mgr w) !! path sm) as [e |] eqn:He; [| done].
  apply bind_Return_inv in Hrun as (? & [] & [= <-] & Hrun).
  apply bind_Return_inv in Hrun as (? & m & [= <- <-] & Hrun).
  refine (preserves_mapM (fun m => mods m = <[path sm := sm]> (mods (mgr w)))
            _ _ _ _ _ _ Hrun _).
  - intros r. apply preserves_bind; [| intros _; apply preserves_ret].
    apply preserves_foreign. intros m' Hm'. by rewrite Hupd.
  - cbn [mgr]. unfold mods. fields.
    apply mods_alter_module. by rewrite He.
Qed.

Lemma mapM_updateModule_mods l : forall w w' res,
  mapM updateModule l w = (w', Return res) ->
  mods (mgr w') = insAll l (mods (mgr w)).
Proof.
  induction l as [| sm l IH]; intros w w' res Hrun.
  - by injection Hrun as <-.
  - cbn [mapM] in Hrun.
    apply bind_Return_inv in Hrun as (w1 & r & Hsm & Hrun).
    apply bind_Return_inv in Hrun as (w2 & rs & Hl & [= <- _]).
    rewrite (IH _ _ _ Hl), insAll_cons.
    by rewrite (updateModule_mods _ _ _ _ Hsm).
Qed.

Lemma modulesWithErrors_mods X : preserves (fun m => mods m = X) modulesWithErrors.
Proof.
  destruct Hkeep as (_ & _ & Hreset).
  unfold modulesWithErrors. repeat keeps_step; try done.
  by rewrite Hreset.
Qed.

Lemma updateData_diff_mods newModules w w1 all :
  updateData_diff newModules w = (w1, Return all) ->
  mods (mgr w1)
  = insAll (addedModules (mgr w) newModules ++ updatedModules (mgr w) newModules)
      (insAll (addedModules (mgr w) newModules)
         (delAll newModules (getModules (mgr w)) (mods (mgr w)))).
Proof.
  intros Hdiff. unfold updateData_diff in Hdiff.
  apply bind_Return_inv in Hdiff as (? & [] & [= <-] & Hdiff).
  apply bind_Return_inv in Hdiff as (? & [] & [= <-] & Hdiff).
  apply bind_Return_inv in Hdiff as (? & [] & [= <-] & Hdiff).
  apply bind_Return_inv in Hdiff as (? & [] & [= <-] & Hdiff).
  apply bind_Return_inv in Hdiff as (? & m & [= <- <-] & Hdiff).
  apply bind_Return_inv in Hdiff as (w2 & [] & Hreset & Hdiff).
  apply bind_Return_inv in Hdiff as (w3 & [] & Hdel & Hdiff).
  cbn [mgr] in *.
  assert (mods (mgr w2) = mods (mgr w)) as H2.
  { destruct (_ ++ _) in Hreset; injection Hreset as <-; done. }
  apply updateData_delete_mods in Hdel. rewrite H2 in Hdel.
  unfold updateData_apply in Hdiff.
  apply bind_Return_inv in Hdiff as (w4 & [] & Hadd & Hdiff).
  apply forEach_add_mods in Hadd. rewrite Hdel in Hadd.
  apply bind_Return_inv in Hdiff as (w5 & tms & Hupd & Hdiff).
  apply mapM_updateModule_mods in Hupd. rewrite Hadd in Hupd.
  apply bind_Return_inv in Hdiff as (? & m & [= <- <-] & Hdiff).
  apply bind_Return_inv in Hdiff as (w6 & [] & Hset & Hdiff).
  apply bind_Return_inv in Hdiff as (w7 & errs & Herrs & [= <- _]).
  refine (modulesWithErrors_mods _ _ _ _ Herrs _).
  transitivity (mods (mgr w5)); [| exact Hupd].
  destruct (_ ++ _) in Hset; [by injection Hset as <- |].
  destruct (sandbox _) in Hset; by injection Hset as <-.
Qed.

End Mods.

Lemma insAll_lookup_notin l : forall acc k,
  k ∉ path <$> l -> insAll l acc !! k = acc !! k.
Proof.
  induction l as [| sm l IH]; intros acc k Hk; [done |].
  rewrite fmap_cons in Hk. apply not_elem_of_cons in Hk as [Hk Hl].
  rewrite insAll_cons, IH by done. by rewrite lookup_insert_ne.
Qed.

Lemma insAll_lookup_in l : forall acc sm,
  NoDup (path <$> l) -> sm ∈ l -> insAll l acc !! path sm = Some sm.
Proof.
  induction l as [| sm' l IH]; intros acc sm Hnd Hin.
  - by apply elem_of_nil in Hin.
  - rewrite fmap_cons in Hnd. apply NoDup_cons in Hnd as [Hsm' Hnd].
    rewrite insAll_cons.
    apply elem_of_cons in Hin as [-> | Hin].
    + rewrite insAll_lookup_notin by done. by rewrite lookup_insert_eq.
    + by apply IH.
Qed.

Lemma delAll_None nm l : forall acc k,
  acc !! k = None -> delAll nm l acc !! k = None.
Proof.
  induction l as [| sm l IH]; intros acc k Hk; [done |].
  rewrite delAll_cons. apply IH. destruct (isDeleted nm sm); [| done].
  destruct (decide (k = path sm)) as [-> | Hne].
  - by rewrite lookup_delete_eq.
  - by rewrite lookup_delete_ne.
Qed.

Lemma delAll_lookup_keep nm l : forall acc k,
  (forall sm, sm ∈ l -> path sm = k -> isDeleted nm sm = false) ->
  delAll nm l acc !! k = acc !! k.
Proof.
  induction l as [| sm l IH]; intros acc k Hk; [done |].
  rewrite delAll_cons, IH by (intros sm' Hin; apply Hk; by right).
  destruct (isDeleted nm sm) eqn:Hdel; [| done].
  rewrite lookup_delete_ne; [done |].
  intros Heq. rewrite (Hk sm) in Hdel; [done | by left | done].
Qed.

Lemma delAll_lookup_del nm l : forall acc sm,
  sm ∈ l -> isDeleted nm sm = true -> delAll nm l acc !! path sm = None.
Proof.
  induction l as [| sm' l IH]; intros acc sm Hin Hdel.
  - by apply elem_of_nil in Hin.
  - rewrite delAll_cons. apply elem_of_cons in Hin as [<- | Hin].
    + rewrite Hdel. apply delAll_None. by rewrite lookup_delete_eq.
    + by apply IH.
Qed.

Lemma elem_of_selected (P : string * SourceModule -> bool)
    (nm : gmap string SourceModule) sm :
  sm ∈ (filter (fun kv => P kv = true) (map_to_list nm)).*2
  <-> exists k, nm !! k = Some sm /\ P (k, sm) = true.
Proof.
  rewrite list_elem_of_fmap. split.
  - intros ([k sm'] & -> & [HP Hin%elem_of_map_to_list]%list_elem_of_filter).
    eauto.
  - intros (k & Hk & HP). exists (k, sm). split; [done |].
    apply list_elem_of_filter. split; [done | by apply elem_of_map_to_list].
Qed.

Lemma NoDup_selected (P : string * SourceModule -> bool)
    (nm : gmap string SourceModule) :
  map_Forall (fun k sm => path sm = k) nm ->
  NoDup (path <$> (filter (fun kv => P kv = true) (map_to_list nm)).*2).
Proof.
  intros Hkeys.
  replace (path <$> (filter (fun kv => P kv = true) (map_to_list nm)).*2)
    with (filter (fun kv => P kv = true) (map_to_list nm)).*1.
  - apply (sublist_NoDup _ (map_to_list nm).*1).
    + apply NoDup_fst_map_to_list.
    + apply fmap_sublist, sublist_filter.
  - rewrite <- list_fmap_compose. apply list_fmap_ext.
    intros i [k sm] Hi%list_elem_of_lookup_2.
    apply list_elem_of_filter in Hi as [_ Hi%elem_of_map_to_list].
    cbn. symmetry. exact (Hkeys _ _ Hi).
Qed.

Lemma elem_of_getModules m sm :
  sm ∈ getModules m
  <-> exists k e, transpiledModules m !! k = Some e /\ sm = entry_module e.
Proof.
  unfold getModules. rewrite list_elem_of_fmap. split.
  - intros (e & -> & ([k e'] & -> & Hin%elem_of_map_to_list)%list_elem_of_fmap).
    eauto.
  - intros (k & e & He & ->). exists e. split; [done |].
    apply list_elem_of_fmap. exists (k, e). split; [done |].
    by apply elem_of_map_to_list.
Qed.

Lemma insAll_is_Some l : forall acc k,
  is_Some (acc !! k) \/ k ∈ path <$> l -> is_Some (insAll l acc !! k).
Proof.
  induction l as [| sm l IH]; intros acc k Hk.
  - destruct Hk as [Hk | Hk]; [done | by apply elem_of_nil in Hk].
  - rewrite insAll_cons. apply IH.
    destruct (decide (k = path sm)) as [-> | Hne].
    + left. by rewrite lookup_insert_eq.
    + rewrite lookup_insert_ne by done.
      destruct Hk as [Hk | [Hk | Hk]%elem_of_cons]; [by left | done | by right].
Qed.

Lemma mods_is_Some m k :
  is_Some (mods m !! k) <-> is_Some (transpiledModules m !! k).
Proof.
  unfold mods. rewrite lookup_fmap.
  destruct (transpiledModules m !! k); split; intros [? ?]; by eauto.
Qed.

Lemma updateData_delete_returns newModules stored : forall w,
  disposeIsLocal ->
  registryConsistent (mgr w) ->
  NoDup (path <$> stored) ->
  (forall sm, sm ∈ stored -> is_Some (transpiledModules (mgr w) !! path sm)) ->
  exists w', updateData_delete newModules stored w = (w', Return tt).
Proof.
  unfold updateData_delete.
  induction stored as [| sm stored IH]; intros w Hd Hc Hnd Hin.
  - by exists w.
  - rewrite fmap_cons in Hnd. apply NoDup_cons in Hnd as [Hsm Hnd].
    cbn [forEach]. destruct (isDeleted newModules sm).
    + destruct (Hin sm) as [e He]; [by left |].
      destruct (removeModule_spec sm w e Hd Hc He)
        as (w1 & Hrun & Ht & _ & Hc1 & _).
      destruct (IH w1 Hd Hc1 Hnd) as [w' Hrun'].
      { intros sm' Hsm'. rewrite Ht. rewrite lookup_delete_ne.
        - apply Hin. by right.
        - intros Heq. apply Hsm. rewrite Heq. apply list_elem_of_fmap. eauto. }
      exists w'. by rewrite (bind_run _ _ _ _ _ Hrun).
    + destruct (IH w Hd Hc Hnd) as [w' Hrun'].
      { intros sm' Hsm'. apply Hin. by right. }
      exists w'. by rewrite (bind_run (ret tt) _ w w (Return tt) eq_refl).
Qed.

Lemma forEach_add_returns added : forall w,
  exists w',
    forEach (fun sm => addTranspiledModule sm "" >> ret tt) added w
    = (w', Return tt).
Proof.
  induction added as [| sm added IH]; intros w; [by exists w |].
  destruct (IH (mkWorld (registered sm "" (mgr w)) (trace w))) as [w' Hrun].
  exists w'. cbn [forEach].
  rewrite (bind_run _ _ w (mkWorld (registered sm "" (mgr w)) (trace w))
             (Return tt)); [done |].
  by rewrite (bind_run _ _ _ _ _ (addTranspiledModule_run sm "" w)).
Qed.

Lemma mapM_update_returns sm (l : list TMRef) : forall w,
  exists w',
    mapM (fun r => foreign (EvUpdate r) (tm_update r sm) >> ret r) l w
    = (w', Return l).
Proof.
  induction l as [| r l IH]; intros w; [by exists w |].
  destruct (IH (mkWorld (tm_update r sm (mgr w)) (trace w ++ [EvUpdate r])))
    as [w' Hrun].
  exists w'. cbn [mapM].
  rewrite (bind_run _ _ w
             (mkWorld (tm_update r sm (mgr w)) (trace w ++ [EvUpdate r]))
             (Return r)); [| done].
  by rewrite (bind_run _ _ _ _ _ Hrun).
Qed.

Lemma updateModule_returns sm w :
  is_Some (transpiledModules (mgr w) !! path sm) ->
  exists w' l, updateModule sm w = (w', Return l).
Proof.
  intros [e He]. unfold updateModule.
  rewrite (bind_run get _ w w (Return (mgr w)) eq_refl), He.
  rewrite (bind_run (modify _) _ _ _ _ eq_refl).
  rewrite (bind_run get _ _ _ _ eq_refl).
  match goal with
  | |- context [mapM _ ?l ?w0] => destruct (mapM_update_returns sm l w0) as [w' ->]
  end.
  eauto.
Qed.

Lemma mapM_updateModule_returns l : forall w,
  keepModules ->
  (forall sm, sm ∈ l -> is_Some (transpiledModules (mgr w) !! path sm)) ->
  exists w' res, mapM updateModule l w = (w', Return res).
Proof.
  induction l as [| sm l IH]; intros w Hkeep Hin; [by exists w, [] |].
  destruct (updateModule_returns sm w) as (w1 & r & Hrun); [apply Hin; by left |].
  destruct (IH w1 Hkeep) as (w' & res & Hrun').
  { intros sm' Hsm'. apply mods_is_Some.
    rewrite (updateModule_mods Hkeep _ _ _ _ Hrun).
    destruct (decide (path sm' = path sm)) as [-> | Hne].
    - rewrite lookup_insert_eq. eauto.
    - rewrite lookup_insert_ne by done. apply mods_is_Some, Hin. by right. }
  exists w', (r :: res). cbn [mapM].
  rewrite (bind_run _ _ _ _ _ Hrun). by rewrite (bind_run _ _ _ _ _ Hrun').
Qed.

Lemma modulesWithErrors_loop_returns (l : list TMRef) : forall w,
  exists w' l',
    filterM (fun r =>
      let* m := get in
      (if hasMissingDependencies (deref m r)
       then foreign (EvResetTranspilation r) (tm_resetTranspilation r)
       else ret tt) >>
      let* m := get in
      ret (negb (Nat.eqb (length (errors (deref m r))) 0)
           || hasMissingDependencies (deref m r))) l w = (w', Return l').
Proof.
  induction l as [| r l IH]; intros w; [by exists w, [] |].
  cbn [filterM].
  rewrite (bind_run _ _ w
    (if hasMissingDependencies (deref (mgr w) r)
     then mkWorld (tm_resetTranspilation r (mgr w))
                  (trace w ++ [EvResetTranspilation r])
     else w)
    (Return (let m := if hasMissingDependencies (deref (mgr w) r)
                      then tm_resetTranspilation r (mgr w) else mgr w in
             negb (Nat.eqb (length (errors (deref m r))) 0)
             || hasMissingDependencies (deref m r)))).
  - match goal with
    | |- context [bind (filterM _ l) _ ?w0] =>
        destruct (IH w0) as (w' & l' & Hrun)
    end.
    rewrite (bind_run _ _ _ _ _ Hrun). eauto.
  - rewrite (bind_run get _ w w (Return (mgr w)) eq_refl).
    destruct (hasMissingDependencies (deref (mgr w) r)); reflexivity.
Qed.

(** The deletions, additions and updates of [updateData] and the
    collection of the modules with errors run to their end in a manager
    whose registries agree and whose modules, like the new ones, are filed
    under their own paths, when [dispose] is local and the
    [TranspiledModule] methods do not change which modules are stored. *)
Lemma updateData_diff_runs
    (newModules : gmap string SourceModule) (w : World) :
  disposeIsLocal ->
  keepModules ->
  registryConsistent (mgr w) ->
  storeKeyed (mgr w) ->
  map_Forall (fun k sm => path sm = k) newModules ->
  exists w1 all, updateData_diff newModules w = (w1, Return all).
Proof.
  intros Hd Hkeep Hc Hstore Hkeys. unfold updateData_diff.
  rewrite (bind_run (modify _) _ _ _ _ eq_refl).
  rewrite (bind_run (modify _) _ _ _ _ eq_refl).
  rewrite (bind_run (modify _) _ _ _ _ eq_refl).
  rewrite (bind_run (modify _) _ _ _ _ eq_refl).
  rewrite (bind_run get _ _ _ _ eq_refl). cbn [mgr trace].
  set (m := set_modules _ _).
  set (added := addedModules m newModules).
  set (updated := updatedModules m newModules).
  set (w5 := mkWorld (match added ++ updated with
                      | [] => m
                      | _ :: _ => set_cachedPaths (fun _ => ∅) m
                      end) (trace w)).
  rewrite (bind_run _ _ _ w5 (Return tt))
    by (unfold w5; by destruct (added ++ updated)).
  assert (transpiledModules (mgr w5) = transpiledModules (mgr w)) as Ht5
    by (unfold w5; by destruct (added ++ updated)).
  assert (forall k e, transpiledModules (mgr w) !! k = Some e ->
            path (entry_module e) = k) as Hkeyed by exact Hstore.
  destruct (updateData_delete_returns newModules (getModules m) w5 Hd)
    as [w6 Hdel].
  { revert Hc. apply registryConsistent_ext;
      unfold w5; by destruct (added ++ updated). }
  { unfold getModules.
    replace (path <$> (entry_module <$> (map_to_list (transpiledModules m)).*2))
      with (map_to_list (transpiledModules m)).*1;
      [apply NoDup_fst_map_to_list |].
    rewrite <- !list_fmap_compose. apply list_fmap_ext.
    intros i [k e] Hi%list_elem_of_lookup_2%elem_of_map_to_list.
    cbn. symmetry. exact (Hkeyed _ _ Hi). }
  { intros sm (k & e & He & ->)%elem_of_getModules.
    rewrite Ht5. change (transpiledModules m) with (transpiledModules (mgr w)) in He.
    rewrite (Hkeyed _ _ He). eauto. }
  rewrite (bind_run _ _ _ _ _ Hdel).
  pose proof (updateData_delete_mods Hkeep _ _ _ _ Hdel) as Hmods6.
  unfold updateData_apply.
  destruct (forEach_add_returns added w6) as [w7 Hadd].
  rewrite (bind_run _ _ _ _ _ Hadd).
  pose proof (forEach_add_mods _ _ _ _ Hadd) as Hmods7.
  destruct (mapM_updateModule_returns (added ++ updated) w7 Hkeep)
    as (w8 & tms & Hupd).
  { intros sm Hsm. apply mods_is_Some. rewrite Hmods7. apply insAll_is_Some.
    apply elem_of_app in Hsm as [Hsm | Hsm].
    - right. apply list_elem_of_fmap. eauto.
    - left. apply elem_of_selected in Hsm as (k & Hk & Hu).
      pose proof (Hkeys _ _ Hk) as Hpath. cbn in Hpath.
      rewrite Hmods6, delAll_lookup_keep.
      + apply mods_is_Some. rewrite Ht5, Hpath.
        unfold isUpdated in Hu. cbn [fst snd] in Hu.
        change (transpiledModules m) with (transpiledModules (mgr w)) in Hu.
        destruct (transpiledModules (mgr w) !! k); [eauto | done].
      + intros om _ Hpom. unfold isDeleted. rewrite Hpom, Hpath, Hk.
        rewrite (bool_decide_eq_false_2 (Some sm = None)) by done.
        by rewrite andb_false_r. }
  rewrite (bind_run _ _ _ _ _ Hupd).
  rewrite (bind_run get _ _ _ _ eq_refl).
  set (w9 := mkWorld (match added ++ updated, sandbox (configurations (mgr w8)) with
                      | _ :: _, Some sb =>
                          set_hardReload (fun _ => hardReloadOnChange sb) (mgr w8)
                      | _, _ => mgr w8
                      end) (trace w8)).
  rewrite (bind_run _ _ _ w9 (Return tt)).
  - unfold modulesWithErrors.
    destruct (modulesWithErrors_loop_returns (getTranspiledModules (mgr w9)) w9)
      as (w10 & errs & Herrs).
    rewrite (bind_run _ _ w9 w10 (Return errs)); [eauto |].
    rewrite (bind_run get _ w9 w9 (Return (mgr w9)) eq_refl). exact Herrs.
  - unfold w9. destruct (added ++ updated); [by rewrite world_eta |].
    destruct (sandbox (configurations (mgr w8))); [done | by rewrite world_eta].
Qed.

(** X23. The diff of [updateData] completes normally, and leaves no hard
    reload pending, when it has no hard-reload setting to read (nothing to
    add or to update, or no sandbox configuration): in a manager whose
    registries agree and whose modules, like the new ones, are filed under
    their own paths, which are plain keys, when [dispose] is local and the
    [TranspiledModule] methods change neither which modules are stored nor
    the flags and configurations. *)
Theorem updateData_diff_returns
    (newModules : gmap string SourceModule) (w : World) :
  disposeIsLocal ->
  keepModules ->
  keepFlags ->
  registryConsistent (mgr w) ->
  storeKeyed (mgr w) ->
  map_Forall (fun k sm => path sm = k) newModules ->
  plainlyKeyed (transpiledModules (mgr w)) ->
  plainlyKeyed newModules ->
  reloadNotAsked (mgr w) newModules ->
  exists w1 all,
    updateData_diff newModules w = (w1, Return all) /\
    hardReload (mgr w1) = false /\
    configurations (mgr w1) = configurations (mgr w).
Proof.
  intros Hd Hkeep Hflags Hc Hstore Hkeys _ _ Hasked.
  destruct (updateData_diff_runs newModules w Hd Hkeep Hc Hstore Hkeys)
    as (w1 & all & Hrun).
  exists w1, all. split; [exact Hrun |].
  destruct (updateData_diff_flags Hflags _ _ _ _ Hrun) as (Hh & _ & Hconf).
  split; [| exact Hconf]. rewrite Hh. unfold reloadDue.
  destruct Hasked as [-> | ->]; [done |].
  by destruct (_ ++ _).
Qed.

(** X15. What the diff of [updateData] leaves in the store, when the new
    modules and the stored ones are filed under their own paths: every
    module handed over is stored with the code handed over (the module
    itself when it is new or its code changed, the stored one otherwise);
    a stored module that was not handed over is removed when it is a
    project file (not under [/node_modules], not the empty shim, not
    emitted by another module) and stays otherwise. *)
Theorem updateData_diff_stores
    (newModules : gmap string SourceModule) (w w1 : World) (all : list TMRef) :
  keepModules ->
  storeKeyed (mgr w) ->
  map_Forall (fun k sm => path sm = k) newModules ->
  updateData_diff newModules w = (w1, Return all) ->
  (forall k sm, newModules !! k = Some sm ->
     code <$> moduleOf (mgr w1) k = Some (code sm) /\
     moduleOf (mgr w1) k
     = if isAdded (mgr w) (k, sm) || isUpdated (mgr w) (k, sm) then Some sm
       else moduleOf (mgr w) k) /\
  (forall k, newModules !! k = None ->
     moduleOf (mgr w1) k
     = match moduleOf (mgr w) k with
       | Some om => if isDeleted newModules om then None else Some om
       | None => None
       end).
Proof.
  intros Hkeep Hstore Hkeys Hdiff.
  pose proof (updateData_diff_mods Hkeep _ _ _ _ Hdiff) as Hmods.
  set (added := addedModules (mgr w) newModules) in *.
  set (updated := updatedModules (mgr w) newModules) in *.
  set (stored := getModules (mgr w)) in *.
  assert (forall sm, sm ∈ added <->
            exists k, newModules !! k = Some sm /\
                      isAdded (mgr w) (k, sm) = true) as Hadded
    by (intros sm; apply elem_of_selected).
  assert (forall sm, sm ∈ updated <->
            exists k, newModules !! k = Some sm /\
                      isUpdated (mgr w) (k, sm) = true) as Hupdated
    by (intros sm; apply elem_of_selected).
  assert (NoDup (path <$> added)) as Hnd_a by by apply NoDup_selected.
  assert (NoDup (path <$> updated)) as Hnd_u by by apply NoDup_selected.
  assert (forall k, newModules !! k = None -> k ∉ path <$> added) as Hout_a.
  { intros k Hk (sm & -> & (k' & Hk' & _)%Hadded)%list_elem_of_fmap.
    rewrite (Hkeys _ _ Hk') in Hk. congruence. }
  assert (forall k, newModules !! k = None -> k ∉ path <$> updated) as Hout_u.
  { intros k Hk (sm & -> & (k' & Hk' & _)%Hupdated)%list_elem_of_fmap.
    rewrite (Hkeys _ _ Hk') in Hk. congruence. }
  assert (forall k, mods (mgr w1) !! k
            = insAll updated (insAll added (insAll added
                (delAll newModules stored (mods (mgr w))))) !! k) as Hlook.
  { intros k. rewrite Hmods. unfold insAll at 1. rewrite fold_left_app. done. }
  assert (forall k om, mods (mgr w) !! k = Some om ->
            om ∈ stored /\ path om = k) as Hstored.
  { intros k om Hom. unfold mods in Hom. rewrite lookup_fmap in Hom.
    destruct (transpiledModules (mgr w) !! k) as [e |] eqn:He; [| done].
    injection Hom as <-. split; [| exact (Hstore _ _ He)].
    apply elem_of_getModules. eauto. }
  assert (forall om, om ∈ stored -> mods (mgr w) !! path om = Some om)
    as Hstored'.
  { intros om (k & e & He & ->)%elem_of_getModules.
    unfold mods. rewrite lookup_fmap, (Hstore _ _ He), He. done. }
  assert (forall k sm, newModules !! k = Some sm ->
            moduleOf (mgr w1) k
            = if isAdded (mgr w) (k, sm) || isUpdated (mgr w) (k, sm)
              then Some sm else moduleOf (mgr w) k) as Hnew.
  { intros k sm Hk. rewrite !moduleOf_mods, Hlook.
    pose proof (Hkeys _ _ Hk) as Hpath. cbn in Hpath.
    destruct (isUpdated (mgr w) (k, sm)) eqn:Hu.
    { rewrite orb_true_r. rewrite <- Hpath.
      apply insAll_lookup_in; [done |]. apply Hupdated. exists k. by subst. }
    rewrite orb_false_r.
    assert (k ∉ path <$> updated) as Hku.
    { intros (sm' & Hp' & (k' & Hk' & Hu')%Hupdated)%list_elem_of_fmap.
      rewrite (Hkeys _ _ Hk') in Hp'. subst k'.
      assert (sm' = sm) as -> by congruence. congruence. }
    rewrite insAll_lookup_notin by done.
    destruct (isAdded (mgr w) (k, sm)) eqn:Ha.
    { rewrite <- Hpath. apply insAll_lookup_in; [done |].
      apply Hadded. exists k. by subst. }
    assert (k ∉ path <$> added) as Hka.
    { intros (sm' & Hp' & (k' & Hk' & Ha')%Hadded)%list_elem_of_fmap.
      rewrite (Hkeys _ _ Hk') in Hp'. subst k'.
      assert (sm' = sm) as -> by congruence. congruence. }
    rewrite !insAll_lookup_notin by done.
    apply delAll_lookup_keep. intros om Hom Hpom.
    unfold isDeleted. rewrite Hpom, Hk.
    rewrite (bool_decide_eq_false_2 (Some sm = None)) by done.
    by rewrite andb_false_r. }
  split.
  - intros k sm Hk. split; [| by apply Hnew].
    rewrite (Hnew _ _ Hk).
    destruct (isAdded (mgr w) (k, sm)) eqn:Ha; [done |].
    destruct (isUpdated (mgr w) (k, sm)) eqn:Hu; [done |].
    cbn [orb]. unfold isAdded, isUpdated, moduleOf in *. cbn [fst snd] in *.
    destruct (transpiledModules (mgr w) !! k) as [e |]; cbn.
    + apply negb_false_iff, String.eqb_eq in Hu. by rewrite Hu.
    + by apply bool_decide_eq_false in Ha.
  - intros k Hk. rewrite !moduleOf_mods, Hlook.
    rewrite !insAll_lookup_notin by auto.
    destruct (mods (mgr w) !! k) as [om |] eqn:Hom.
    + destruct (Hstored _ _ Hom) as [Hin Hpath].
      destruct (isDeleted newModules om) eqn:Hdel.
      * rewrite <- Hpath. by apply delAll_lookup_del.
      * rewrite delAll_lookup_keep; [done |].
        intros om' Hin' Hpath'. apply Hstored' in Hin'.
        rewrite Hpath', Hom in Hin'. by injection Hin' as <-.
    + by apply delAll_None.
Qed.

(** *** What a call leaves in the trace *)

Lemma emits_ret {A} Q (a : A) : emits Q (ret a).
Proof. intros w w' o [= <- _]. exists []. by rewrite app_nil_r. Qed.

Lemma emits_throw {A} Q e : emits Q (@throw A e).
Proof. intros w w' o [= <- _]. exists []. by rewrite app_nil_r. Qed.

Lemma emits_get Q : emits Q get.
Proof. intros w w' o [= <- _]. exists []. by rewrite app_nil_r. Qed.

Lemma emits_modify Q f : emits Q (modify f).
Proof. intros w w' o [= <- _]. exists []. by rewrite app_nil_r. Qed.

Lemma emits_emit (Q : Event -> Prop) ev : Q ev -> emits Q (emit ev).
Proof. intros HQ w w' o [= <- _]. exists [ev]. split; [done | by constructor]. Qed.

Lemma emits_foreign (Q : Event -> Prop) ev f : Q ev -> emits Q (foreign ev f).
Proof. intros HQ w w' o [= <- _]. exists [ev]. split; [done | by constructor]. Qed.

Lemma emits_foreign_call {A} (Q : Event -> Prop) ev
    (f : Manager -> Manager * Outcome A) :
  Q ev -> emits Q (foreign_call ev f).
Proof.
  intros HQ w w' o Hrun. unfold foreign_call in Hrun.
  destruct (f (mgr w)) as [m' o']. injection Hrun as <- _.
  exists [ev]. split; [done | by constructor].
Qed.

Lemma emits_bind {A B} Q (c : M A) (k : A -> M B) :
  emits Q c -> (forall a, emits Q (k a)) -> emits Q (bind c k).
Proof.
  intros Hc Hk w w' o Hrun.
  apply bind_inv in Hrun as (w1 & o1 & Hc1 & Hrest).
  destruct (Hc _ _ _ Hc1) as (evs1 & Ht1 & HQ1).
  destruct o1 as [a | e].
  - destruct (Hk a _ _ _ Hrest) as (evs2 & Ht2 & HQ2).
    exists (evs1 ++ evs2). rewrite Ht2, Ht1, app_assoc.
    split; [done | by apply Forall_app].
  - destruct Hrest as [<- _]. eauto.
Qed.

Lemma emits_try_catch {A} Q (c : M A) (h : Exn -> M A) :
  emits Q c -> (forall e, emits Q (h e)) -> emits Q (try_catch c h).
Proof.
  intros Hc Hh w w' o Hrun.
  apply try_catch_inv in Hrun as (w1 & o1 & Hc1 & Hrest).
  destruct (Hc _ _ _ Hc1) as (evs1 & Ht1 & HQ1).
  destruct o1 as [a | e].
  - destruct Hrest as [<- _]. eauto.
  - destruct (Hh e _ _ _ Hrest) as (evs2 & Ht2 & HQ2).
    exists (evs1 ++ evs2). rewrite Ht2, Ht1, app_assoc.
    split; [done | by apply Forall_app].
Qed.

Lemma emits_try_finally {A} Q (c : M A) (f : M unit) :
  emits Q c -> emits Q f -> emits Q (try_finally c f).
Proof.
  intros Hc Hf w w' o Hrun. unfold try_finally in Hrun.
  destruct (c w) as [w1 o1] eqn:Hc1.
  destruct (Hc _ _ _ Hc1) as (evs1 & Ht1 & HQ1).
  destruct (f w1) as [w2 o2] eqn:Hf1.
  destruct (Hf _ _ _ Hf1) as (evs2 & Ht2 & HQ2).
  assert (w' = w2) as ->.
  { destruct o1, o2; by injection Hrun as <- _. }
  exists (evs1 ++ evs2). rewrite Ht2, Ht1, app_assoc.
  split; [done | by apply Forall_app].
Qed.

Lemma emits_forEach {A} Q (f : A -> M unit) l :
  (forall a, emits Q (f a)) -> emits Q (forEach f l).
Proof.
  intros Hf. induction l as [| a l IH]; cbn [forEach].
  - apply emits_ret.
  - apply emits_bind; [apply Hf | intros _; exact IH].
Qed.

Lemma emits_mapM {A B} Q (f : A -> M B) l :
  (forall a, emits Q (f a)) -> emits Q (mapM f l).
Proof.
  intros Hf. induction l as [| a l IH]; cbn [mapM].
  - apply emits_ret.
  - apply emits_bind; [apply Hf |]. intros b.
    apply emits_bind; [exact IH |]. intros bs. apply emits_ret.
Qed.

Ltac emits_step :=
  match goal with
  | |- emits _ (bind _ _) => apply emits_bind; [| intros ?]
  | |- emits _ (try_catch _ _) => apply emits_try_catch; [| intros ?]
  | |- emits _ (try_finally _ _) => apply emits_try_finally
  | |- emits _ (ret _) => apply emits_ret
  | |- emits _ (throw _) => apply emits_throw
  | |- emits _ get => apply emits_get
  | |- emits _ (modify _) => apply emits_modify
  | |- emits _ (emit _) => apply emits_emit
  | |- emits _ (foreign _ _) => apply emits_foreign
  | |- emits _ (foreign_call _ _) => apply emits_foreign_call
  | |- emits _ (forEach _ _) => apply emits_forEach; intros ?
  | |- emits _ (mapM _ _) => apply emits_mapM; intros ?
  | |- emits _ (match ?x with _ => _ end) => destruct x
  end.

Lemma preserves_try_catch {A} P (c : M A) (h : Exn -> M A) :
  preserves P c -> (forall e, preserves P (h e)) -> preserves P (try_catch c h).
Proof.
  intros Hc Hh w w' o Hrun HP.
  apply try_catch_inv in Hrun as (w1 & o1 & Hc1 & Hrest).
  pose proof (Hc _ _ _ Hc1 HP) as HP1.
  destruct o1 as [a | e].
  - by destruct Hrest as [<- _].
  - exact (Hh e _ _ _ Hrest HP1).
Qed.

(** *** What [load] does with a record it cannot use *)

Lemma load_try_emits (d : SerializedCache) :
  emits (fun _ => True) (load_try d).
Proof.
  unfold load_try, clearCache, addTranspiledModule, addModule.
  repeat emits_step; done.
Qed.

(** X5. [load] completes normally whatever it is given, and its last call
    is [clearCache]: the events of the call end with it.  Without a record
    nothing else happens.  A record without [meta] is given up before
    anything is restored: the manager is as before, and the only other
    call is the [clearCache] that opens the body. *)
Theorem load_swallows_errors (data : option SerializedCache) (w : World) :
  exists w' evs,
    load data w = (w', Return tt) /\
    trace w' = trace w ++ evs ++ [EvClearIndexedDBCache] /\
    (data = None -> evs = [] /\ mgr w' = mgr w) /\
    (forall d, data = Some d -> c_meta d = None ->
       evs = [EvClearIndexedDBCache] /\ mgr w' = mgr w).
Proof.
  unfold load. destruct data as [d |].
  - destruct (load_try d w) as [w1 o] eqn:Htry.
    destruct (load_try_emits d w w1 o Htry) as (evs & Hevs & _).
    exists (mkWorld (mgr w1) (trace w1 ++ [EvClearIndexedDBCache])), evs.
    split; [| split; [| split]].
    + unfold bind, try_catch, clearCache, emit, ret. rewrite Htry.
      by destruct o as [[] | e].
    + cbn. by rewrite Hevs, <- app_assoc.
    + discriminate.
    + intros d' [= <-] Hmeta.
      unfold load_try, bind, clearCache, emit, get, throw, ret in Htry.
      cbn in Htry. rewrite Hmeta in Htry.
      destruct (String.eqb (c_version d) SCRIPT_VERSION
                && String.eqb (c_dependenciesQuery d)
                              (getDependencyQuery (mgr w)));
        injection Htry as <- <-; cbn in Hevs;
        apply app_inv_head in Hevs as <-; done.
  - exists (mkWorld (mgr w) (trace w ++ [EvClearIndexedDBCache])), [].
    split; [reflexivity |]. split; [reflexivity |]. split; [done |].
    discriminate.
Qed.

Lemma getTranspiledModule_silent Q sm q : emits Q (getTranspiledModule sm q).
Proof.
  unfold getTranspiledModule, addTranspiledModule, addModule.
  repeat emits_step.
Qed.

(** X16. [resolveModule], whatever its outcome, changes nothing of the
    manager but the resolver cache, in particular it stores no module, and
    it calls nothing but the resolver, from the current path. *)
Theorem resolveModule_writes_cache_only
    (p currentPath : string) (exts : list string) (w w' : World)
    (o : Outcome SourceModule) :
  resolveModule p currentPath exts w = (w', o) ->
  sameButCache (mgr w) (mgr w') /\
  exists evs,
    trace w' = trace w ++ evs /\
    Forall (fun ev => exists shimmed, ev = EvResolve shimmed currentPath) evs.
Proof.
  intros Hrun. split.
  - assert (preserves (sameButCache (mgr w))
                      (resolveModule p currentPath exts)) as Hkeeps;
      [| exact (Hkeeps w w' o Hrun eq_refl)].
    unfold resolveModule, ensureCacheDir, resolveFresh, resolveAttempt,
      resolutionFailed, moduleAt, storedModule, shimmedPathOf,
      getAliasedDependencyPath, writeCache.
    repeat first [keeps_step | apply preserves_try_catch; [| intros ?]];
      done.
  - revert w w' o Hrun.
    change (emits (fun ev => exists shimmed, ev = EvResolve shimmed currentPath)
                  (resolveModule p currentPath exts)).
    unfold resolveModule, ensureCacheDir, resolveFresh, resolveAttempt,
      resolutionFailed, moduleAt, storedModule, shimmedPathOf,
      getAliasedDependencyPath, writeCache.
    repeat emits_step; eauto.
Qed.

(** X17. Unless a hard reload is pending after the first load,
    [evaluateModule] does not reload the page, whatever else it does and
    whatever its outcome. *)
Theorem evaluateModule_no_reload
    (module : SourceModule) (force testGlobals : bool) (w w' : World)
    (o : Outcome string) :
  hardReload (mgr w) && negb (isFirstLoad (mgr w)) = false ->
  evaluateModule module force testGlobals w = (w', o) ->
  exists evs, trace w' = trace w ++ evs /\ EvReload ∉ evs.
Proof.
  intros Hguard Hrun. unfold evaluateModule in Hrun.
  apply bind_inv in Hrun as (? & ? & [= <- <-] & Hrun).
  rewrite Hguard in Hrun.
  assert (exists evs, trace w' = trace w ++ evs /\
                      Forall (fun ev => ev <> EvReload) evs)
    as (evs & Ht & HQ).
  { match type of Hrun with
    | ?c w = _ =>
        assert (emits (fun ev => ev <> EvReload) c) as Hemits;
          [| exact (Hemits w w' o Hrun)]
    end.
    unfold evaluateTranspiledModule, setHmrStatus, clearCompilation.
    repeat first [emits_step | apply getTranspiledModule_silent]; done. }
  exists evs. split; [done |]. intros Hin.
  rewrite Forall_forall in HQ. by apply (HQ _ Hin).
Qed.

(** *** Transpiled modules of a directory *)




(** *** Evaluation *)






End MoreProperties.

(** ** The file tree *)

Section FileTreeProperties.
Import FileTree.

Lemma leb_refl s : String.leb s s = true.
Proof.
  pose proof (proj2 (OrderedTypeEx.String_as_OT.cmp_eq s s) eq_refl) as H.
  unfold OrderedTypeEx.String_as_OT.cmp in H. unfold String.leb.
  by rewrite H.
Qed.

Lemma leb_false_lt a b :
  String.leb a b = false -> OrderedTypeEx.String_as_OT.lt b a.
Proof.
  unfold String.leb. intros H.
  apply OrderedTypeEx.String_as_OT.cmp_lt.
  rewrite OrderedTypeEx.String_as_OT.cmp_antisym.
  unfold OrderedTypeEx.String_as_OT.cmp.
  by destruct (String.compare a b).
Qed.

Lemma leb_true_cases a b :
  String.leb a b = true -> a = b \/ OrderedTypeEx.String_as_OT.lt a b.
Proof.
  unfold String.leb. intros H.
  destruct (String.compare a b) eqn:Hc; [left | right | done].
  - by apply OrderedTypeEx.String_as_OT.cmp_eq.
  - by apply OrderedTypeEx.String_as_OT.cmp_lt.
Qed.

Lemma lt_leb a b : OrderedTypeEx.String_as_OT.lt a b -> String.leb a b = true.
Proof.
  intros H%OrderedTypeEx.String_as_OT.cmp_lt.
  unfold String.leb, OrderedTypeEx.String_as_OT.cmp in *. by rewrite H.
Qed.

Lemma leb_trans a b c :
  String.leb a b = true -> String.leb b c = true -> String.leb a c = true.
Proof.
  intros [-> | Hab]%leb_true_cases [-> | Hbc]%leb_true_cases.
  - apply leb_refl.
  - by apply lt_leb.
  - by apply lt_leb.
  - apply lt_leb. by apply (OrderedTypeEx.String_as_OT.lt_trans _ b).
Qed.

Lemma leb_false_flip a b : String.leb a b = false -> String.leb b a = true.
Proof. intros H%leb_false_lt. by apply lt_leb. Qed.

Lemma insertBy_elem {A} (key : A -> string) x l y :
  y ∈ insertBy key x l <-> y = x \/ y ∈ l.
Proof.
  induction l as [| z l IH]; cbn.
  - rewrite list_elem_of_singleton, elem_of_nil. tauto.
  - destruct (String.leb (key x) (key z)).
    + by rewrite elem_of_cons.
    + rewrite !elem_of_cons, IH. tauto.
Qed.

Lemma sortBy_elem {A} (key : A -> string) l y : y ∈ sortBy key l <-> y ∈ l.
Proof.
  induction l as [| x l IH]; [done |].
  cbn. rewrite insertBy_elem, IH, elem_of_cons. tauto.
Qed.

Lemma insertBy_sorted {A} (key : A -> string) x l :
  StronglySorted (byTitle key) l -> StronglySorted (byTitle key) (insertBy key x l).
Proof.
  induction 1 as [| z l Hl IH Hz]; cbn.
  - repeat constructor.
  - destruct (String.leb (key x) (key z)) eqn:Hxz.
    + constructor; [by constructor |].
      constructor; [done |].
      eapply Forall_impl; [exact Hz |].
      intros a Ha. by apply (leb_trans _ (key z)).
    + constructor; [done |].
      apply Forall_forall. intros a [-> | Ha]%insertBy_elem.
      * by apply leb_false_flip.
      * rewrite Forall_forall in Hz. by apply Hz.
Qed.

Lemma sortBy_sorted {A} (key : A -> string) l :
  StronglySorted (byTitle key) (sortBy key l).
Proof.
  induction l as [| x l IH]; [constructor |].
  cbn. by apply insertBy_sorted.
Qed.

Lemma filter_sorted {A} (R : A -> A -> Prop) (P : A -> Prop)
    `{forall x, Decision (P x)} (l : list A) :
  StronglySorted R l -> StronglySorted R (filter P l).
Proof.
  induction 1 as [| x l Hl IH Hx]; [constructor |].
  rewrite filter_cons. destruct (decide (P x)); [| done].
  constructor; [done |].
  apply Forall_forall. intros a [_ Ha]%list_elem_of_filter.
  rewrite Forall_forall in Hx. by apply Hx.
Qed.

Lemma filter_comm {A} (P Q : A -> Prop)
    `{forall x, Decision (P x)} `{forall x, Decision (Q x)} (l : list A) :
  filter P (filter Q l) = filter Q (filter P l).
Proof.
  induction l as [| x l IH]; [done |].
  rewrite !(filter_cons _ x l).
  destruct (decide (Q x)), (decide (P x));
    rewrite ?filter_cons, ?decide_True, ?decide_False by done;
    by rewrite IH.
Qed.

Lemma filter_insertBy {A} (key : A -> string) k x l :
  filter (fun y => key y = k) (insertBy key x l)
  = if decide (key x = k) then x :: filter (fun y => key y = k) l
    else filter (fun y => key y = k) l.
Proof.
  induction l as [| z l IH]; cbn [insertBy].
  - rewrite filter_cons, filter_nil. done.
  - destruct (String.leb (key x) (key z)) eqn:Hxz.
    + by rewrite filter_cons.
    + rewrite (filter_cons _ z (insertBy key x l)), IH, (filter_cons _ z l).
      destruct (decide (key x = k)) as [Hx | Hx]; [| done].
      destruct (decide (key z = k)) as [Hz | Hz]; [| done].
      rewrite Hx, Hz, leb_refl in Hxz. done.
Qed.

Lemma sortBy_stable {A} (key : A -> string) k l :
  filter (fun y => key y = k) (sortBy key l) = filter (fun y => key y = k) l.
Proof.
  induction l as [| x l IH]; [done |].
  cbn [sortBy foldr]. fold (sortBy key l).
  rewrite filter_insertBy, IH, filter_cons. done.
Qed.

(** X20. What [DirectoryChildren] lists for a directory: the directories
    whose parent it is, except, at the root, the hidden ones, and the
    modules whose parent it is; both in ascending order of their titles,
    entries of the same title in the order they had. *)
Theorem directoryChildren_lists
    (HIDDEN_DIRECTORIES : list string) (parentShortid : option string)
    (directories : list Directory) (modules : list File) :
  (forall d, d ∈ childDirectories HIDDEN_DIRECTORIES parentShortid directories
     <-> d ∈ directories /\ d_directoryShortid d = parentShortid /\
         ~ (parentShortid = None /\ d_title d ∈ HIDDEN_DIRECTORIES)) /\
  StronglySorted (byTitle d_title)
    (childDirectories HIDDEN_DIRECTORIES parentShortid directories) /\
  (forall t,
     filter (fun d => d_title d = t)
            (childDirectories HIDDEN_DIRECTORIES parentShortid directories)
     = filter (fun d => d_title d = t)
         (filter (fun x => ~ (d_directoryShortid x = None /\
                              d_title x ∈ HIDDEN_DIRECTORIES))
            (filter (fun x => d_directoryShortid x = parentShortid)
                    directories))) /\
  (forall m, m ∈ childModules parentShortid modules
     <-> m ∈ modules /\ f_directoryShortid m = parentShortid) /\
  StronglySorted (byTitle f_title) (childModules parentShortid modules) /\
  (forall t,
     filter (fun m => f_title m = t) (childModules parentShortid modules)
     = filter (fun m => f_title m = t)
         (filter (fun x => f_directoryShortid x = parentShortid) modules)).
Proof.
  unfold childDirectories, childModules.
  split; [| split; [| split; [| split; [| split]]]].
  - intros d. rewrite !list_elem_of_filter, sortBy_elem. split.
    + intros (Hhid & Hpar & Hin). split; [done |]. split; [done |].
      intros [-> Ht]. apply Hhid. by rewrite Hpar.
    + intros (Hin & Hpar & Hhid). split; [| done].
      intros [Hnone Ht]. apply Hhid. by rewrite <- Hpar.
  - apply filter_sorted, filter_sorted, sortBy_sorted.
  - intros t.
    rewrite (filter_comm (fun d => d_title d = t)).
    rewrite (filter_comm (fun d => d_title d = t)
                         (fun x => d_directoryShortid x = parentShortid)).
    rewrite sortBy_stable.
    rewrite <- (filter_comm (fun d => d_title d = t)
                            (fun x => d_directoryShortid x = parentShortid)).
    by rewrite <- (filter_comm (fun d => d_title d = t)).
  - intros m. rewrite sortBy_elem, list_elem_of_filter. tauto.
  - apply sortBy_sorted.
  - intros t. apply sortBy_stable.
Qed.

End FileTreeProperties.

(** ** Further concrete runs *)

Section MoreRuns.
#[local] Existing Instance Sample.collaborators.
#[local] Existing Instance Sample2.collaborators.

Lemma filter_agree {A} (f g : A -> bool) (l : list A) :
  Forall (fun x => f x = g x) l ->
  filter (fun x => f x = true) l = filter (fun x => g x = true) l.
Proof.
  induction 1 as [| x l Hx _ IH]; [done |].
  rewrite !filter_cons, IH, Hx. reflexivity.
Qed.

(** The sample resolver looks at the candidate files only. *)
Lemma sample_resolver_reads_plain request cp exts m (o : ResolveOpts) :
  Forall JsObject.plainKey
    (let base :=
       if String.prefix "." request || String.prefix "/" request
       then Sample.joinImpl (Sample.dirnameImpl cp) request
       else "/node_modules/" +:+ request in
     [base] ++ ((fun e => base +:+ e) <$> ((fun ext => "." +:+ ext) <$> exts))
       ++ [Sample.joinImpl base "index.js"]) ->
  filename o = cp ->
  extensions o = extensions (resolveOpts m cp exts) ->
  (forall k, JsObject.plainKey k ->
             opt_isFile o k = isFile m k /\
             opt_readFileSync o k = readFileSync m k) ->
  browserResolve request o = browserResolve request (resolveOpts m cp exts).
Proof.
  intros Hplain Hfn Hext Hsame.
  cbn [browserResolve Sample.collaborators]. unfold Sample.browserResolveImpl.
  rewrite Hfn, Hext. cbn [filename extensions opt_isFile resolveOpts].
  destruct (String.eqb request "electron"); [done |].
  f_equal. apply filter_agree.
  eapply Forall_impl; [exact Hplain |].
  intros k Hk. by destruct (Hsame k Hk).
Qed.

Ltac plain_lookups :=
  unfold plainLookups;
  repeat match goal with
         | |- _ /\ _ => split
         | |- JsObject.plainKey _ => vm_compute; reflexivity
         | |- forall o : ResolveOpts, _ =>
             let Hfn := fresh in
             let Hext := fresh in
             let Hsame := fresh in
             intros ? Hfn Hext _ Hsame;
             apply sample_resolver_reads_plain;
             [vm_compute; repeat constructor | exact Hfn | exact Hext
             | exact Hsame]
         | |- forall x : string, _ -> _ =>
             let H := fresh in
             intros ? H; vm_compute in H;
             first [discriminate H | injection H as <-]
         end.

Lemma resolveModule_failure_witness :
  plainLookups "lodash" "/index.js" ["js"] (mkWorld m0 []) /\
  manifest (mgr (mkWorld m0 [])) = Some Sample.emptyManifest /\
  resolveModule "lodash" "/index.js" ["js"] (mkWorld m0 [])
    = (lodashUnknown, Throw (DependencyNotFoundError "lodash" "/index.js")) /\
  exists shimmed,
    shimmedPathOf "lodash" "/index.js" (mkWorld m0 [])
      = (mkWorld m0 [], Return shimmed) /\
    ResolutionError Sample.emptyManifest shimmed "/index.js"
                    (DependencyNotFoundError "lodash" "/index.js") /\
    truthyCached (cachedPath_of (mgr lodashUnknown) (dirname "/index.js")
                                "lodash") = None.
Proof.
  assert (Hplain : plainLookups "lodash" "/index.js" ["js"] (mkWorld m0 []))
    by plain_lookups.
  assert (Hrun : resolveModule "lodash" "/index.js" ["js"] (mkWorld m0 [])
                 = (lodashUnknown,
                    Throw (DependencyNotFoundError "lodash" "/index.js"))).
  { vm_compute. reflexivity. }
  split; [exact Hplain |]. split; [reflexivity |]. split; [exact Hrun |].
  exact (resolveModule_failure "lodash" "/index.js" ["js"] (mkWorld m0 [])
           lodashUnknown _ Sample.emptyManifest Hplain eq_refl Hrun).
Defined.

Lemma resolveModuleAsync_failure_witness :
  plainLookups "fs" "/index.js" ["js"] afterFs /\
  manifest (mgr afterFs) = Some Sample.emptyManifest /\
  resolveModuleAsync "fs" "/index.js" ["js"] afterFs
    = (afterFs, Throw (TypeError "Cannot read property 'module' of undefined"))
  /\
  ((exists c,
      cachedPath_of (mgr afterFs) (dirname "/index.js") "fs" = Some c /\
      Js.truthy c = true /\
      transpiledModules (mgr afterFs) !! c = None /\
      TypeError "Cannot read property 'module' of undefined"
        = TypeError "Cannot read property 'module' of undefined" /\
      cachedPath_of (mgr afterFs) (dirname "/index.js") "fs" = Some c)
   \/
   (exists shimmed,
      shimmedPathOf "fs" "/index.js" afterFs = (afterFs, Return shimmed) /\
      ResolutionError Sample.emptyManifest shimmed "/index.js"
        (TypeError "Cannot read property 'module' of undefined") /\
      truthyCached (cachedPath_of (mgr afterFs) (dirname "/index.js") "fs")
        = None)).
Proof.
  assert (Hplain : plainLookups "fs" "/index.js" ["js"] afterFs)
    by plain_lookups.
  assert (Hrun : resolveModuleAsync "fs" "/index.js" ["js"] afterFs
                 = (afterFs,
                    Throw (TypeError
                             "Cannot read property 'module' of undefined"))).
  { vm_compute. reflexivity. }
  split; [exact Hplain |]. split; [reflexivity |]. split; [exact Hrun |].
  exact (resolveModuleAsync_failure "fs" "/index.js" ["js"] afterFs afterFs _
           Sample.emptyManifest Hplain eq_refl Hrun).
Defined.

Lemma setEnvironmentVariables_parses_witness :
  setEnvironmentVariables protoEnvStore
  = (mkWorld (set_envVariables
                (fun _ => recordOf (filter (fun kv => kv.1 <> "__proto__")
                                           protoBindings) ∅)
                (mgr protoEnvStore))
             (trace protoEnvStore), Return tt) /\
  envVariables (mgr (setEnvironmentVariables protoEnvStore).1)
  = {[ "NODE_PATH" := "src"; "API" := "a=b" ]}.
Proof.
  split; [| vm_compute; reflexivity].
  apply (setEnvironmentVariables_parses protoBindings protoEnvStore
           (mkEntry protoEnvModule ∅)).
  - reflexivity.
  - vm_compute. reflexivity.
  - discriminate.
  - repeat constructor.
  - reflexivity.
Defined.

(** The [NODE_PATH] of [/.env] becomes a module directory of the
    resolver. *)
Example setEnvironmentVariables_module_directory :
  getModuleDirectories (mgr (setEnvironmentVariables envStore).1)
  = ["node_modules"; "src"].
Proof. vm_compute. reflexivity. Qed.

Lemma sample_disposeIsLocal : disposeIsLocal.
Proof. intros r m. repeat split; reflexivity. Qed.

Lemma sample_loadIsLocal : loadIsLocal.
Proof. intros r s tms m. repeat split; reflexivity. Qed.

Lemma storeA_no_slots p q : slot (mgr storeA) p q = None.
Proof.
  unfold storeA, construct.
  rewrite (bind_run _ _ _ _ _ eq_refl), forEach_addModule_run.
  cbn [fst mgr]. rewrite slot_withModules. unfold slot, blankManager. cbn.
  by rewrite lookup_empty.
Qed.

Lemma storeA_consistent : registryConsistent (mgr storeA).
Proof.
  unfold storeA, construct.
  rewrite (bind_run _ _ _ _ _ eq_refl), forEach_addModule_run.
  cbn [fst mgr].
  generalize (blankManager_consistent twoFiles (combinedMetas m0)).
  apply registryConsistent_ext; try done.
  intros p q. by rewrite slot_withModules.
Qed.

Lemma storeB_consistent : registryConsistent (mgr storeB).
Proof.
  apply registered_consistent; [| apply storeA_consistent].
  intros p' q' [r Hr]. by rewrite storeA_no_slots in Hr.
Qed.


Lemma getTranspiledModule_again_witness :
  getTranspiledModule indexModule "" storeA = (storeB, Return 0) /\
  getTranspiledModule indexModule "" storeB = (storeB, Return 0).
Proof.
  assert (getTranspiledModule indexModule "" storeA = (storeB, Return 0))
    as Hrun by (vm_compute; reflexivity).
  split; [exact Hrun |].
  exact (getTranspiledModule_again indexModule "" storeA storeB 0 Hrun).
Defined.


Lemma removeModule_removes_witness :
  exists w1,
    removeModule indexModule storeB = (w1, Return tt) /\
    moduleOf (mgr w1) (path indexModule) = None /\
    forgotten (path indexModule) (mgr w1) /\
    (forall p, p <> path indexModule ->
               moduleOf (mgr w1) p = moduleOf (mgr storeB) p) /\
    trace w1 = trace storeB
               ++ (EvDispose <$> getTranspiledModulesByModule indexModule
                                   (mgr storeB)) /\
    cachedPaths (mgr w1) = ∅ /\
    registryConsistent (mgr w1).
Proof.
  apply (removeModule_removes indexModule storeB
           (mkEntry indexModule {[ "" := 0 ]})).
  - exact sample_disposeIsLocal.
  - exact storeB_consistent.
  - vm_compute. reflexivity.
Defined.


(** Moving [/index.js] to a free path stores it there; moving it onto
    [/dep.js] leaves [/dep.js] as it was, and [/index.js] is gone. *)
Example moveModule_free_and_occupied :
  code <$> moduleOf (mgr storeMoved) "/main.js" = Some (code indexModule) /\
  moduleOf (mgr storeOnto) "/dep.js" = Some depModule /\
  moduleOf (mgr storeOnto) "/index.js" = None.
Proof. vm_compute. done. Qed.




(** The file of [react] is stored with the manifest's list of requires,
    as its code needs no transpiling. *)
Example setManifest_react :
  moduleOf (mgr withManifest) "/node_modules/react/index.js" = Some reactModule.
Proof. vm_compute. reflexivity. Qed.

Lemma load_restores_serialized_witness :
  exists w3,
    load (Some lodashSaved) (mkWorld m0 []) = (w3, Return tt) /\
    cachedPaths (mgr w3) = cachedPaths (mgr withLodashMeta) /\
    configurations (mgr w3) = configurations (mgr withLodashMeta) /\
    (metaPathsSplit (combinedMetas (mgr withLodashMeta)) ->
     combinedMetas (mgr w3) = combinedMetas (mgr withLodashMeta)).
Proof.
  assert (serialize None true 0 withLodashMeta
          = (withLodashMeta, Return lodashSaved)) as Hser
    by (vm_compute; reflexivity).
  exact (load_restores_serialized None true 0 withLodashMeta withLodashMeta
           (mkWorld m0 []) lodashSaved sample_loadIsLocal Hser eq_refl).
Defined.

(** The npm metadata of that manager split as required, and [load] gives
    them back to a manager that had none. *)
Example load_restores_metadata :
  metaPathsSplit (combinedMetas (mgr withLodashMeta)) /\
  combinedMetas m0 = ∅ /\
  combinedMetas (mgr lodashLoaded) = {[ "/node_modules/lodash/index.js" ]}.
Proof.
  split; [| split; [reflexivity | vm_compute; reflexivity]].
  intros p Hp. unfold withLodashMeta in Hp. cbn in Hp.
  apply elem_of_singleton in Hp as ->. vm_compute. reflexivity.
Qed.

Lemma sample_keepFlags : keepFlags.
Proof.
  intros h f c m Hm. split; [| split; [| split]]; intros; exact Hm.
Qed.

Lemma updateData_decides_reload_witness :
  updateData editedModules hardReloadSandbox
    = (afterHardEdit, Return []) /\
  reloadDue (mgr hardReloadSandbox) editedModules = true /\
  isFirstLoad (mgr afterHardEdit) = false /\
  hardReload (mgr afterHardEdit)
    = reloadDue (mgr hardReloadSandbox) editedModules /\
  (reloadDue (mgr hardReloadSandbox) editedModules = true ->
   evaluateModule indexModule false false afterHardEdit
   = (mkWorld (mgr afterHardEdit) (trace afterHardEdit ++ [EvReload]),
      Return "{}")).
Proof.
  assert (updateData editedModules hardReloadSandbox
          = (afterHardEdit, Return [])) as Hrun
    by (vm_compute; reflexivity).
  split; [exact Hrun |]. split; [vm_compute; reflexivity |].
  exact (updateData_decides_reload editedModules hardReloadSandbox
           afterHardEdit _ indexModule false false sample_keepFlags Hrun).
Defined.

(** A hard reload that was marked does not outlive an [updateData] that
    finds nothing changed. *)
Example updateData_drops_pending_reload :
  hardReload (mgr hardReloadSandbox) = true /\
  hardReload (mgr afterNoEdit) = false.
Proof. vm_compute. done. Qed.

Lemma sample_keepModules : keepModules.
Proof. split; [| split]; intros; reflexivity. Qed.

Lemma updateData_diff_stores_witness :
  updateData_diff editedModules afterDep = (afterEdit, Return []) /\
  (forall k sm, editedModules !! k = Some sm ->
     code <$> moduleOf (mgr afterEdit) k = Some (code sm) /\
     moduleOf (mgr afterEdit) k
     = if isAdded (mgr afterDep) (k, sm) || isUpdated (mgr afterDep) (k, sm)
       then Some sm else moduleOf (mgr afterDep) k) /\
  (forall k, editedModules !! k = None ->
     moduleOf (mgr afterEdit) k
     = match moduleOf (mgr afterDep) k with
       | Some om => if isDeleted editedModules om then None else Some om
       | None => None
       end).
Proof.
  assert (updateData_diff editedModules afterDep = (afterEdit, Return []))
    as Hrun by (vm_compute; reflexivity).
  split; [exact Hrun |].
  apply (updateData_diff_stores editedModules afterDep afterEdit []).
  - exact sample_keepModules.
  - apply map_Forall_to_list. vm_compute. repeat constructor.
  - apply map_Forall_to_list. vm_compute. repeat constructor.
  - exact Hrun.
Defined.

Lemma resolveModule_writes_cache_only_witness :
  resolveModule "./dep" "/index.js" ["js"] (mkWorld m0 [])
    = (afterDep, Return depModule) /\
  sameButCache m0 (mgr afterDep) /\
  exists evs,
    trace afterDep = [] ++ evs /\
    Forall (fun ev => exists shimmed, ev = EvResolve shimmed "/index.js") evs.
Proof.
  assert (resolveModule "./dep" "/index.js" ["js"] (mkWorld m0 [])
          = (afterDep, Return depModule)) as Hrun
    by (vm_compute; reflexivity).
  split; [exact Hrun |].
  exact (resolveModule_writes_cache_only "./dep" "/index.js" ["js"]
           (mkWorld m0 []) afterDep (Return depModule) Hrun).
Defined.

Lemma evaluateModule_no_reload_witness :
  hardReload (mgr firstLoadMarked) = true /\
  evaluateModule indexModule false false firstLoadMarked
    = (firstLoadEvaluated, Return "module.exports = require('./dep') + 1") /\
  exists evs,
    trace firstLoadEvaluated = trace firstLoadMarked ++ evs /\
    EvReload ∉ evs.
Proof.
  assert (evaluateModule indexModule false false firstLoadMarked
          = (firstLoadEvaluated,
             Return "module.exports = require('./dep') + 1")) as Hrun
    by (vm_compute; reflexivity).
  split; [reflexivity |]. split; [exact Hrun |].
  exact (evaluateModule_no_reload indexModule false false firstLoadMarked
           firstLoadEvaluated _ eq_refl Hrun).
Defined.

Lemma storeB_keyed : storeKeyed (mgr storeB).
Proof. apply map_Forall_to_list. vm_compute. repeat constructor. Qed.


(** The directory is matched as a prefix of the path: from [/index.js],
    [./d] selects [/dep.js]. *)
Example resolveTranspiledModulesInDirectory_prefix :
  (resolveTranspiledModulesInDirectory "./" "/index.js" storeB).2
    = Return [0; 1] /\
  (resolveTranspiledModulesInDirectory "./d" "/index.js" storeB).2
    = Return [1].
Proof. vm_compute. done. Qed.


Lemma sample_resolver_finds_files shimmed v :
  browserResolve shimmed (resolveOpts m0 "/index.js" ["js"]) = Some v ->
  v = EMPTY_SENTINEL \/ is_Some (transpiledModules m0 !! v).
Proof.
  cbn [browserResolve Sample.collaborators]. unfold Sample.browserResolveImpl.
  destruct (String.eqb shimmed "electron"); [intros [= <-]; by left |].
  intros Hhead%head_Some_elem_of. right.
  apply list_elem_of_filter in Hhead as [Hfile _].
  cbn [opt_isFile resolveOpts] in Hfile. unfold isFile, isFile_of in Hfile.
  change (stage m0) with Transpilation in Hfile.
  change (combinedMetas m0) with (∅ : gset string) in Hfile.
  apply orb_true_iff in Hfile as [Hfile | Hmeta].
  - by apply bool_decide_eq_true in Hfile.
  - apply bool_decide_eq_true in Hmeta. by apply elem_of_empty in Hmeta.
Qed.

Lemma resolve_siblings_agree_witness :
  plainLookups "./dep" "/index.js" ["js"] (mkWorld m0 []) /\
  truthyCached (cachedPath_of m0 (dirname "/index.js") "./dep") = None /\
  resolveModuleAsync "./dep" "/index.js" ["js"] (mkWorld m0 [])
  = resolveModule "./dep" "/index.js" ["js"] (mkWorld m0 []).
Proof.
  assert (Hplain : plainLookups "./dep" "/index.js" ["js"] (mkWorld m0 []))
    by plain_lookups.
  split; [exact Hplain |]. split; [vm_compute; reflexivity |].
  apply (resolve_siblings_agree "./dep" "/index.js" ["js"] (mkWorld m0 [])).
  - exact Hplain.
  - vm_compute. reflexivity.
  - exact sample_resolver_finds_files.
Defined.

Lemma onTM_keeps_test_flag f r r' m :
  (forall t, isTestFile (f t) = isTestFile t) ->
  isTestFile (deref (Sample.onTM f r m) r') = isTestFile (deref m r').
Proof.
  intros Hf. unfold deref, Sample.onTM. cbn.
  destruct (decide (r' = r)) as [-> | Hne].
  - rewrite lookup_alter_eq. destruct (heap m !! r); cbn; [apply Hf | done].
  - by rewrite lookup_alter_ne.
Qed.

Lemma sample_keepsTestFlags : keepsTestFlags.
Proof.
  split; intros r r' m.
  - by apply onTM_keeps_test_flag.
  - by apply onTM_keeps_test_flag.
Qed.

Lemma updateData_returns_no_test_file_witness :
  updateData bothEdited withTest = (afterBothEdited, Return [Some 0]) /\
  isTestFile (deref (mgr afterBothEdited) 1) = true /\
  forall r, Some r ∈ [Some 0] ->
            isTestFile (deref (mgr afterBothEdited) r) = false.
Proof.
  assert (updateData bothEdited withTest
          = (afterBothEdited, Return [Some 0])) as Hrun
    by (vm_compute; reflexivity).
  split; [exact Hrun |]. split; [vm_compute; reflexivity |].
  exact (updateData_returns_no_test_file bothEdited withTest afterBothEdited
           [Some 0] sample_keepsTestFlags Hrun).
Defined.


Lemma updateData_diff_returns_witness :
  reloadNotAsked (mgr storeB) editedModules /\
  addedModules (mgr storeB) editedModules
    ++ updatedModules (mgr storeB) editedModules <> [] /\
  exists w1 all,
    updateData_diff editedModules storeB = (w1, Return all) /\
    hardReload (mgr w1) = false /\
    configurations (mgr w1) = configurations (mgr storeB).
Proof.
  assert (reloadNotAsked (mgr storeB) editedModules) as Hasked
    by (right; reflexivity).
  split; [exact Hasked |]. split; [by vm_compute |].
  apply (updateData_diff_returns editedModules storeB).
  - exact sample_disposeIsLocal.
  - exact sample_keepModules.
  - exact sample_keepFlags.
  - exact storeB_consistent.
  - exact storeB_keyed.
  - apply map_Forall_to_list. vm_compute. repeat constructor.
  - apply map_Forall_to_list. vm_compute. repeat constructor.
  - apply map_Forall_to_list. vm_compute. repeat constructor.
  - exact Hasked.
Defined.

Lemma load_swallows_errors_witness :
  c_version depCacheWithoutMeta = SCRIPT_VERSION /\
  c_dependenciesQuery depCacheWithoutMeta = getDependencyQuery m0 /\
  exists w',
    load (Some depCacheWithoutMeta) (mkWorld m0 []) = (w', Return tt) /\
    trace w' = [EvClearIndexedDBCache; EvClearIndexedDBCache] /\
    mgr w' = m0.
Proof.
  split; [reflexivity |]. split; [reflexivity |].
  destruct (load_swallows_errors (Some depCacheWithoutMeta) (mkWorld m0 []))
    as (w' & evs & Hrun & Htrace & _ & Hmeta).
  destruct (Hmeta depCacheWithoutMeta eq_refl eq_refl) as [-> Hmgr].
  exists w'. split; [exact Hrun |]. split; [exact Htrace | exact Hmgr].
Defined.



End MoreRuns.
